(** * Thos (HaxBall clone): the authoritative room simulation

    A shallow embedding of the server side of the game: the physics engine
    (class [PhysicsEngine]), the [Player] entity and the [GameRoom] with its
    tick, its team bookkeeping, its snapshot and the timer of its game loop;
    the server's room codes; and, to compare it with the server's tick, the
    client's offline tick.

    Numbers.  JavaScript numbers are IEEE doubles.  The kinematic quantities
    (positions, velocities, radii, masses, the normalised time step) are
    modelled as real numbers: arithmetic is exact, there is no NaN and no
    infinity.  Counters, scores and millisecond timestamps are integers in the
    source and are modelled as [Z].  The rounding of the snapshot, which is a
    statement about the numbers themselves, is modelled a second time on
    binary64 doubles, with the Standard Library's specification of IEEE 754
    arithmetic.

    Mutation.  The source mutates objects in place.  Every operation below
    takes the objects it touches and returns their new values; where the
    source returns early after a partial update, so does the model. *)

From Stdlib Require Import Reals Lra Lia ZArith List String Bool Psatz SpecFloat.
Import ListNotations.
Open Scope R_scope.

(** ** Entities *)

(** The four kinematic fields every physics operation reads and writes
    ([obj.x], [obj.y], [obj.vx], [obj.vy]); the ball is exactly this. *)
Record Body : Type := mkBody { x : R; y : R; vx : R; vy : R }.

(** Plain [{x, y}] vectors built inside the engine. *)
Record Vec : Type := mkVec { vec_x : R; vec_y : R }.

(** [player.input]. *)
Record Input : Type := mkInput { up : bool; down : bool; left : bool; right : bool }.

(** ['red'] and ['blue']; the spectator is [null], i.e. [None] below. *)
Inductive Team : Type := Red | Blue.

Definition set_x (b : Body) (v : R) : Body := mkBody v (y b) (vx b) (vy b).
Definition set_y (b : Body) (v : R) : Body := mkBody (x b) v (vx b) (vy b).
Definition set_vx (b : Body) (v : R) : Body := mkBody (x b) (y b) v (vy b).
Definition set_vy (b : Body) (v : R) : Body := mkBody (x b) (y b) (vx b) v.

(** ** PhysicsEngine *)

(** The constructor's constants. *)
Definition friction : R := 0.98.
Definition bounceRestitution : R := 0.8.
Definition playerRadius : R := 15.
Definition ballRadius : R := 10.
Definition maxSpeed : R := 5.
Definition acceleration : R := 0.5.

(** The locals of [constrainToBounds] and [checkGoal]. *)
Definition fieldWidth : R := 800.
Definition fieldHeight : R := 400.
Definition goalHeight : R := 80.
Definition goalDepth : R := 20.
Definition goalTop : R := (fieldHeight - goalHeight) / 2.
Definition goalBottom : R := goalTop + goalHeight.

(** Comparisons of numbers, as booleans. *)
Definition Rltb (a b : R) : bool := if Rlt_dec a b then true else false.
Definition Rleb (a b : R) : bool := if Rle_dec a b then true else false.
Definition Reqb (a b : R) : bool := if Req_dec_T a b then true else false.

Definition distance (obj1 obj2 : Body) : R :=
  let dx := x obj1 - x obj2 in
  let dy := y obj1 - y obj2 in
  sqrt (dx * dx + dy * dy).

Definition normalize (vector : Vec) : Vec :=
  let magnitude := sqrt (vec_x vector * vec_x vector + vec_y vector * vec_y vector) in
  if Reqb magnitude 0 then mkVec 0 0
  else mkVec (vec_x vector / magnitude) (vec_y vector / magnitude).

Definition dotProduct (v1 v2 : Vec) : R :=
  vec_x v1 * vec_x v2 + vec_y v1 * vec_y v2.

(** [constrainToBounds(obj, radius)]: four tests in sequence, each on the
    object as the previous ones left it. *)
Definition constrainLeft (obj : Body) (radius : R) : Body :=
  if Rltb (x obj - radius) 0 then
    if Rleb goalTop (y obj) && Rleb (y obj) goalBottom then
      if Rltb (x obj - radius) (- goalDepth) then
        set_vx (set_x obj (- goalDepth + radius)) (Rabs (vx obj) * bounceRestitution)
      else obj
    else set_vx (set_x obj radius) (Rabs (vx obj) * bounceRestitution)
  else obj.

Definition constrainRight (obj : Body) (radius : R) : Body :=
  if Rltb fieldWidth (x obj + radius) then
    if Rleb goalTop (y obj) && Rleb (y obj) goalBottom then
      if Rltb (fieldWidth + goalDepth) (x obj + radius) then
        set_vx (set_x obj (fieldWidth + goalDepth - radius))
               (- Rabs (vx obj) * bounceRestitution)
      else obj
    else set_vx (set_x obj (fieldWidth - radius)) (- Rabs (vx obj) * bounceRestitution)
  else obj.

Definition constrainTop (obj : Body) (radius : R) : Body :=
  if Rltb (y obj - radius) 0 then
    set_vy (set_y obj radius) (Rabs (vy obj) * bounceRestitution)
  else obj.

Definition constrainBottom (obj : Body) (radius : R) : Body :=
  if Rltb fieldHeight (y obj + radius) then
    set_vy (set_y obj (fieldHeight - radius)) (- Rabs (vy obj) * bounceRestitution)
  else obj.

Definition constrainToBounds (obj : Body) (radius : R) : Body :=
  constrainBottom (constrainTop (constrainRight (constrainLeft obj radius) radius) radius) radius.

(** [updatePlayer(player, input, deltaTime)], step by step. *)
Definition applyInput (player : Body) (input : Input) : Body :=
  let p1 := if up input then set_vy player (vy player - acceleration) else player in
  let p2 := if down input then set_vy p1 (vy p1 + acceleration) else p1 in
  let p3 := if left input then set_vx p2 (vx p2 - acceleration) else p2 in
  if right input then set_vx p3 (vx p3 + acceleration) else p3.

Definition limitSpeed (player : Body) : Body :=
  let speed := sqrt (vx player * vx player + vy player * vy player) in
  if Rltb maxSpeed speed then
    mkBody (x player) (y player)
           (vx player / speed * maxSpeed) (vy player / speed * maxSpeed)
  else player.

Definition applyFriction (obj : Body) : Body :=
  mkBody (x obj) (y obj) (vx obj * friction) (vy obj * friction).

Definition move (obj : Body) (deltaTime : R) : Body :=
  mkBody (x obj + vx obj * deltaTime) (y obj + vy obj * deltaTime) (vx obj) (vy obj).

Definition updatePlayer (player : Body) (input : Input) (deltaTime : R) : Body :=
  constrainToBounds (move (applyFriction (limitSpeed (applyInput player input))) deltaTime)
                    playerRadius.

Definition updateBall (ball : Body) (deltaTime : R) : Body :=
  constrainToBounds (move (applyFriction ball) deltaTime) ballRadius.

Definition checkCollision (obj1 obj2 : Body) (radius1 radius2 : R) : bool :=
  Rltb (distance obj1 obj2) (radius1 + radius2).

(** [resolveCollision(obj1, obj2, radius1, radius2, mass1, mass2)] returns the
    two objects as the call leaves them.  There are two early returns: before
    anything is written, and after the positions are separated. *)
Definition resolveCollision (obj1 obj2 : Body) (radius1 radius2 mass1 mass2 : R)
  : Body * Body :=
  let dist := distance obj1 obj2 in
  let minDistance := radius1 + radius2 in
  if Rleb minDistance dist then (obj1, obj2)
  else
    let dx := x obj2 - x obj1 in
    let dy := y obj2 - y obj1 in
    let normal := normalize (mkVec dx dy) in
    let overlap := minDistance - dist in
    let separation := overlap / 2 in
    let o1 := mkBody (x obj1 - vec_x normal * separation)
                     (y obj1 - vec_y normal * separation) (vx obj1) (vy obj1) in
    let o2 := mkBody (x obj2 + vec_x normal * separation)
                     (y obj2 + vec_y normal * separation) (vx obj2) (vy obj2) in
    let relativeVelocity := mkVec (vx o2 - vx o1) (vy o2 - vy o1) in
    let velocityAlongNormal := dotProduct relativeVelocity normal in
    if Rltb 0 velocityAlongNormal then (o1, o2)
    else
      let restitution := bounceRestitution in
      let impulseScalar :=
        - (1 + restitution) * velocityAlongNormal / (1 / mass1 + 1 / mass2) in
      let impulse := mkVec (impulseScalar * vec_x normal) (impulseScalar * vec_y normal) in
      (mkBody (x o1) (y o1) (vx o1 - vec_x impulse / mass1) (vy o1 - vec_y impulse / mass1),
       mkBody (x o2) (y o2) (vx o2 + vec_x impulse / mass2) (vy o2 + vec_y impulse / mass2)).

(** [checkGoal(ball)]: the scoring team, or [null]. *)
Definition checkGoal (ball : Body) : option Team :=
  if Rltb (x ball) 0 && Rleb goalTop (y ball) && Rleb (y ball) goalBottom then Some Blue
  else if Rltb fieldWidth (x ball) && Rleb goalTop (y ball) && Rleb (y ball) goalBottom
       then Some Red
  else None.

Definition resetBall (ball : Body) : Body := mkBody 400 200 0 0.

(** ** Player *)

(** The fields of [Player] that the room, the engine or the snapshot read or
    write.  The four kinematic fields are grouped in [body], so that a player
    can be handed to the engine as any other object; [score] of the source is
    [playerScore] here (the room has a [score] of its own). *)
Record Player : Type := mkPlayer {
  id : string;
  nickname : string;
  body : Body;
  team : option Team;
  playerScore : Z;
  input : Input;
  lastSeen : Z
}.

Definition set_body (p : Player) (b : Body) : Player :=
  mkPlayer (id p) (nickname p) b (team p) (playerScore p) (input p) (lastSeen p).

(** The spot [setTeam] puts a player on: red, blue, else the spectator's. *)
Definition teamSpot (t : option Team) : Body :=
  match t with
  | Some Red => mkBody 100 200 0 0
  | Some Blue => mkBody 700 200 0 0
  | None => mkBody 400 50 0 0
  end.

Definition setTeam (p : Player) (t : option Team) : Player :=
  let b1 := match t with
            | Some Red => set_y (set_x (body p) 100) 200
            | Some Blue => set_y (set_x (body p) 700) 200
            | None => set_y (set_x (body p) 400) 50
            end in
  mkPlayer (id p) (nickname p) (set_vy (set_vx b1 0) 0) t
           (playerScore p) (input p) (lastSeen p).

Definition resetPosition (p : Player) : Player :=
  let b1 := match team p with
            | Some Red => set_y (set_x (body p) 100) 200
            | Some Blue => set_y (set_x (body p) 700) 200
            | None => body p
            end in
  set_body p (set_vy (set_vx b1 0) 0).

(** [isActive()], given the reading of [Date.now()] it makes. *)
Definition isActive (now : Z) (p : Player) : bool := (now - lastSeen p <? 5000)%Z.

(** [Math.round]: the nearest integer, a tie going up. *)
Definition Math_round (v : R) : Z := Int_part (v + 0.5).

(** [Math.round(v * 100) / 100]. *)
Definition round2 (v : R) : R := IZR (Math_round (v * 100)) / 100.

Definition roundBody (b : Body) : Body :=
  mkBody (round2 (x b)) (round2 (y b)) (round2 (vx b)) (round2 (vy b)).

(** What [getGameData()] returns. *)
Record PlayerData : Type := mkPlayerData {
  data_id : string;
  data_nickname : string;
  data_body : Body;
  data_team : option Team
}.

Definition getGameData (p : Player) : PlayerData :=
  mkPlayerData (id p) (nickname p) (roundBody (body p)) (team p).

(** ** GameRoom *)

Record Score : Type := mkScore { red : Z; blue : Z }.

Record GameState : Type := mkGameState {
  ball : Body;
  score : Score;
  gameTime : Z;
  lastUpdate : Z
}.

(** The constructor sets [maxPlayers] and [maxTeamSize] and nothing assigns
    them afterwards. *)
Definition maxPlayers : nat := 10.
Definition maxTeamSize : Z := 4.

(** [players] is the room's [Map], in insertion order, each player carrying
    its key [id].  The host reference, the physics engine (a constant) and
    the scheduler handle are left out. *)
Record GameRoom : Type := mkGameRoom {
  code : string;
  players : list Player;
  isPlaying : bool;
  gameState : GameState;
  redTeamCount : Z;
  blueTeamCount : Z
}.

Definition set_players (r : GameRoom) (ps : list Player) : GameRoom :=
  mkGameRoom (code r) ps (isPlaying r) (gameState r)
             (redTeamCount r) (blueTeamCount r).

Definition set_gameState (r : GameRoom) (g : GameState) : GameRoom :=
  mkGameRoom (code r) (players r) (isPlaying r) g
             (redTeamCount r) (blueTeamCount r).

Definition set_redTeamCount (r : GameRoom) (n : Z) : GameRoom :=
  mkGameRoom (code r) (players r) (isPlaying r) (gameState r)
             n (blueTeamCount r).

Definition set_blueTeamCount (r : GameRoom) (n : Z) : GameRoom :=
  mkGameRoom (code r) (players r) (isPlaying r) (gameState r)
             (redTeamCount r) n.

(** [players.get(playerId)]. *)
Definition getPlayer (ps : list Player) (playerId : string) : option Player :=
  find (fun p => String.eqb (id p) playerId) ps.

(** The effect, on the map, of mutating the object [players.get(playerId)]. *)
Fixpoint modifyPlayer (ps : list Player) (playerId : string) (f : Player -> Player)
  : list Player :=
  match ps with
  | [] => []
  | p :: tl =>
      if String.eqb (id p) playerId then f p :: tl
      else p :: modifyPlayer tl playerId f
  end.

(** [players.set(player.id, player)]: a known key keeps its place. *)
Fixpoint mapSet (ps : list Player) (player : Player) : list Player :=
  match ps with
  | [] => [player]
  | p :: tl =>
      if String.eqb (id p) (id player) then player :: tl
      else p :: mapSet tl player
  end.

(** [autoAssignTeam(player)]: the room with its counters, and the player. *)
Definition autoAssignTeam (r : GameRoom) (player : Player) : GameRoom * Player :=
  if (redTeamCount r <? maxTeamSize)%Z && (redTeamCount r <=? blueTeamCount r)%Z then
    (set_redTeamCount r (redTeamCount r + 1), setTeam player (Some Red))
  else if (blueTeamCount r <? maxTeamSize)%Z then
    (set_blueTeamCount r (blueTeamCount r + 1), setTeam player (Some Blue))
  else (r, setTeam player None).

(** [addPlayer(player)]: the player object is stored in the map and then
    assigned, so the map holds the assigned player. *)
Definition addPlayer (r : GameRoom) (player : Player) : GameRoom * bool :=
  if (maxPlayers <=? List.length (players r))%nat then (r, false)
  else
    let '(r1, player1) := autoAssignTeam r player in
    (set_players r1 (mapSet (players r1) player1), true).

(** The counter updates that open and, on failure, close [switchPlayerTeam]. *)
Definition leaveCount (r : GameRoom) (t : option Team) : GameRoom :=
  match t with
  | Some Red => set_redTeamCount r (redTeamCount r - 1)
  | Some Blue => set_blueTeamCount r (blueTeamCount r - 1)
  | None => r
  end.

Definition restoreCount (r : GameRoom) (t : option Team) : GameRoom :=
  match t with
  | Some Red => set_redTeamCount r (redTeamCount r + 1)
  | Some Blue => set_blueTeamCount r (blueTeamCount r + 1)
  | None => r
  end.

(** The [newTeam] argument arrives from the client: [null] or a string. *)
Definition isString (v : option string) (s : string) : bool :=
  match v with
  | Some s' => String.eqb s' s
  | None => false
  end.

Definition isNull (v : option string) : bool :=
  match v with
  | Some _ => false
  | None => true
  end.

(** [switchPlayerTeam(playerId, newTeam)]: the room and the value returned. *)
Definition switchPlayerTeam (r : GameRoom) (playerId : string) (newTeam : option string)
  : GameRoom * bool :=
  match getPlayer (players r) playerId with
  | None => (r, false)
  | Some player =>
      let r1 := leaveCount r (team player) in
      if isString newTeam "red" && (redTeamCount r1 <? maxTeamSize)%Z then
        (set_redTeamCount
           (set_players r1 (modifyPlayer (players r1) playerId (fun p => setTeam p (Some Red))))
           (redTeamCount r1 + 1), true)
      else if isString newTeam "blue" && (blueTeamCount r1 <? maxTeamSize)%Z then
        (set_blueTeamCount
           (set_players r1 (modifyPlayer (players r1) playerId (fun p => setTeam p (Some Blue))))
           (blueTeamCount r1 + 1), true)
      else if isString newTeam "spectator" || isNull newTeam then
        (set_players r1 (modifyPlayer (players r1) playerId (fun p => setTeam p None)), true)
      else (restoreCount r1 (team player), false)
  end.

(** *** The tick *)

(** [Date.now()] is read at the top of [updateGame] and once more by every
    [isActive()] call; [clock k] is the [k]-th reading a tick makes.  The
    test [player.team && player.isActive()] reads the clock for a teamed
    player only. *)
Fixpoint updatePlayers (clock : nat -> Z) (k : nat) (dt : R) (ps : list Player)
  : list Player :=
  match ps with
  | [] => []
  | p :: tl =>
      match team p with
      | None => p :: updatePlayers clock k dt tl
      | Some _ =>
          (if isActive (clock k) p
           then set_body p (updatePlayer (body p) (input p) dt)
           else p) :: updatePlayers clock (S k) dt tl
      end
  end.

(** One turn of the player-ball loop of [checkCollisions]. *)
Definition collideWithBall (p : Player) (b : Body) : Player * Body :=
  match team p with
  | Some _ =>
      if checkCollision (body p) b 15 10 then
        let '(b1, b2) := resolveCollision (body p) b 15 10 1 0.5 in
        (set_body p b1, b2)
      else (p, b)
  | None => (p, b)
  end.

(** The player-ball loop, the ball passing from one turn to the next. *)
Fixpoint collideBall (ps : list Player) (b : Body) : list Player * Body :=
  match ps with
  | [] => ([], b)
  | p :: tl =>
      let '(p1, b1) := collideWithBall p b in
      let '(tl1, b2) := collideBall tl b1 in
      (p1 :: tl1, b2)
  end.

(** One turn of the player-player loop: both players are teamed here. *)
Definition collidePair (p1 p2 : Player) : Player * Player :=
  if checkCollision (body p1) (body p2) 15 15 then
    let '(b1, b2) := resolveCollision (body p1) (body p2) 15 15 1 1 in
    (set_body p1 b1, set_body p2 b2)
  else (p1, p2).

(** The inner loop for a fixed [player1 = playerArray[i]]: the players after
    it, in order; those without a team are not in [playerArray] and are
    passed over.  The array holds the player objects themselves, so every
    turn sees the writes of the turns before it. *)
Fixpoint collideWithRest (p1 : Player) (rest : list Player) : Player * list Player :=
  match rest with
  | [] => (p1, [])
  | p2 :: tl =>
      match team p2 with
      | Some _ =>
          let '(p1a, p2a) := collidePair p1 p2 in
          let '(p1b, tl1) := collideWithRest p1a tl in
          (p1b, p2a :: tl1)
      | None =>
          let '(p1b, tl1) := collideWithRest p1 tl in
          (p1b, p2 :: tl1)
      end
  end.

(** The outer loop.  [fuel] bounds the number of turns by the length of the
    list, which the inner loop never changes. *)
Fixpoint collidePlayersFuel (fuel : nat) (ps : list Player) : list Player :=
  match fuel, ps with
  | O, _ => ps
  | _, [] => []
  | S fuel', p1 :: rest =>
      match team p1 with
      | Some _ =>
          let '(p1a, rest1) := collideWithRest p1 rest in
          p1a :: collidePlayersFuel fuel' rest1
      | None => p1 :: collidePlayersFuel fuel' rest
      end
  end.

(** The player-player loops; the fuel given is enough
    ([collidePlayersFuel_enough] below). *)
Definition collidePlayers (ps : list Player) : list Player :=
  collidePlayersFuel (List.length ps) ps.

(** [checkCollisions()]. *)
Definition checkCollisions (ps : list Player) (b : Body) : list Player * Body :=
  let '(ps1, b1) := collideBall ps b in
  (collidePlayers ps1, b1).

(** [score[team]++]. *)
Definition incrementScore (s : Score) (t : Team) : Score :=
  match t with
  | Red => mkScore (red s + 1) (blue s)
  | Blue => mkScore (red s) (blue s + 1)
  end.

(** [handleGoal(team)]. *)
Definition handleGoal (r : GameRoom) (t : Team) : GameRoom :=
  let g := gameState r in
  set_players
    (set_gameState r (mkGameState (resetBall (ball g)) (incrementScore (score g) t)
                                  (gameTime g) (lastUpdate g)))
    (map (fun p => match team p with Some _ => resetPosition p | None => p end)
         (players r)).

(** The phases of [updateGame], in the order the source runs them. *)
Definition tickDelta (clock : nat -> Z) (r : GameRoom) : Z :=
  (clock O - lastUpdate (gameState r))%Z.

Definition tickDt (clock : nat -> Z) (r : GameRoom) : R :=
  IZR (tickDelta clock r) / 16.67.

Definition motionPhase (clock : nat -> Z) (r : GameRoom) : GameRoom :=
  let g := gameState r in
  let dt := tickDt clock r in
  set_players
    (set_gameState r (mkGameState (updateBall (ball g) dt) (score g) (gameTime g) (clock O)))
    (updatePlayers clock 1 dt (players r)).

Definition collisionPhase (r : GameRoom) : GameRoom :=
  let g := gameState r in
  let '(ps1, b1) := checkCollisions (players r) (ball g) in
  set_players (set_gameState r (mkGameState b1 (score g) (gameTime g) (lastUpdate g))) ps1.

Definition goalPhase (r : GameRoom) : GameRoom :=
  match checkGoal (ball (gameState r)) with
  | Some goalScored => handleGoal r goalScored
  | None => r
  end.

Definition addGameTime (r : GameRoom) (deltaTime : Z) : GameRoom :=
  let g := gameState r in
  set_gameState r (mkGameState (ball g) (score g) (gameTime g + deltaTime) (lastUpdate g)).

(** [updateGame()]. *)
Definition updateGame (clock : nat -> Z) (r : GameRoom) : GameRoom :=
  addGameTime (goalPhase (collisionPhase (motionPhase clock r))) (tickDelta clock r).

(** *** The snapshot *)

Record Snapshot : Type := mkSnapshot {
  snap_players : list PlayerData;
  snap_ball : Body;
  snap_score : Score;
  snap_gameTime : Z;
  snap_isPlaying : bool;
  snap_roomCode : string
}.

(** [getGameState()]. *)
Definition getGameState (r : GameRoom) : Snapshot :=
  mkSnapshot (map getGameData (players r))
             (roundBody (ball (gameState r)))
             (score (gameState r))
             (gameTime (gameState r))
             (isPlaying r)
             (code r).

(** ** Spec-side definitions *)

(** A team's counter, and the opposite team. *)
Definition teamCount (r : GameRoom) (t : Team) : Z :=
  match t with
  | Red => redTeamCount r
  | Blue => blueTeamCount r
  end.

Definition otherTeam (t : Team) : Team :=
  match t with
  | Red => Blue
  | Blue => Red
  end.

(** The string a client sends to ask for a team. *)
Definition teamName (t : Team) : string :=
  match t with
  | Red => "red"
  | Blue => "blue"
  end.

(** The rule of [autoAssign] as the specification words it: the team with
    fewer members, Red on a tie, if under the cap; else the other team if
    under the cap; else Spectator. *)
Definition fewerTeam (r : GameRoom) : Team :=
  if (redTeamCount r <=? blueTeamCount r)%Z then Red else Blue.

Definition autoAssign_spec (r : GameRoom) : option Team :=
  let t := fewerTeam r in
  if (teamCount r t <? maxTeamSize)%Z then Some t
  else if (teamCount r (otherTeam t) <? maxTeamSize)%Z then Some (otherTeam t)
  else None.

(** The goal mouth's vertical span. *)
Definition inGoalSpan (v : R) : Prop := 160 <= v <= 240.

(** The field rectangle, widened by [goalDepth] inside the goal span only. *)
Definition inExtendedField (b : Body) : Prop :=
  0 <= y b <= 400 /\
  (0 <= x b <= 800 \/ (inGoalSpan (y b) /\ -20 <= x b <= 820)).

(** The magnitude of the velocity. *)
Definition speed (b : Body) : R := sqrt (vx b * vx b + vy b * vy b).

(** Total momentum, per axis, and total kinetic energy of two objects of
    masses [m1] and [m2]. *)
Definition momentum_x (m1 m2 : R) (ab : Body * Body) : R :=
  m1 * vx (fst ab) + m2 * vx (snd ab).

Definition momentum_y (m1 m2 : R) (ab : Body * Body) : R :=
  m1 * vy (fst ab) + m2 * vy (snd ab).

Definition kineticEnergy (m1 m2 : R) (ab : Body * Body) : R :=
  m1 * (vx (fst ab) * vx (fst ab) + vy (fst ab) * vy (fst ab)) / 2 +
  m2 * (vx (snd ab) * vx (snd ab) + vy (snd ab) * vy (snd ab)) / 2.

(** ** Constructors *)

(** [new Player(id, nickname)], created at time [now]. *)
Definition newPlayer (playerId nick : string) (now : Z) : Player :=
  mkPlayer playerId nick (mkBody 100 200 0 0) None 0
           (mkInput false false false false) now.

(** [new GameRoom(code, hostPlayer)], created at time [now]. *)
Definition newGameRoom (roomCode : string) (hostPlayer : Player) (now : Z) : GameRoom :=
  fst (addPlayer
         (mkGameRoom roomCode [] false
                     (mkGameState (mkBody 400 200 0 0) (mkScore 0 0) 0 now) 0 0)
         hostPlayer).

(** ** Properties of bodies, players and snapshots *)

(** What a [newTeam] argument that is honoured asks for. *)
Definition requestedTeam (newTeam : option string) : option Team :=
  if isString newTeam "red" then Some Red
  else if isString newTeam "blue" then Some Blue
  else None.

(** [emitted] is [actual] rounded to two decimal digits: a whole number of
    hundredths, no further than half a hundredth from [actual]. *)
Definition roundedTo2 (emitted actual : R) : Prop :=
  (exists k : Z, emitted = IZR k / 100) /\ Rabs (emitted - actual) <= 0.005.

(** The same, field by field. *)
Definition bodyRoundedTo2 (emitted actual : Body) : Prop :=
  roundedTo2 (x emitted) (x actual) /\ roundedTo2 (y emitted) (y actual) /\
  roundedTo2 (vx emitted) (vx actual) /\ roundedTo2 (vy emitted) (vy actual).

(** The field rectangle shrunk by the radius, with the goal mouths. *)
Definition insideWalls (radius : R) (b : Body) : Prop :=
  radius <= y b <= 400 - radius /\
  (radius <= x b <= 800 - radius \/
   (inGoalSpan (y b) /\ radius - 20 <= x b <= 820 - radius)).

(** The square of [speed]. *)
Definition speedSq (b : Body) : R := vx b * vx b + vy b * vy b.

(** A team's kickoff position, at rest. *)
Definition kickoffSpot (t : Team) : Body :=
  match t with
  | Red => mkBody 100 200 0 0
  | Blue => mkBody 700 200 0 0
  end.

(** [q] is [p] with, at most, other kinematics; a player without a team is
    not touched at all. *)
Definition keptBy (p q : Player) : Prop :=
  q = set_body p (body q) /\ (team p = None -> q = p).

(** [player.team] as a condition. *)
Definition teamed (p : Player) : bool :=
  match team p with
  | Some _ => true
  | None => false
  end.


(** ** Scenarios *)

(** Players of the given names joining a room one after the other. *)
Definition joinAll (r : GameRoom) (names : list string) : GameRoom :=
  fold_left (fun acc n => fst (addPlayer acc (newPlayer n n 0))) names r.

(** A room filled by nine joins: [a], [c], [e], [g] on Red, [b], [d], [f],
    [h] on Blue, and [i] a spectator. *)
Definition crowdedRoom : GameRoom :=
  joinAll (newGameRoom "ROOM01" (newPlayer "a" "a" 0) 0)
          ["b"; "c"; "d"; "e"; "f"; "g"; "h"; "i"]%string.

(** Red player [a] runs down into the bottom wall while Blue player [b] runs
    left along that wall into it; both are teamed and active, and the tick
    comes 17 ms after the last one. *)
Definition wallRoom : GameRoom :=
  mkGameRoom "ROOM01"
    [ mkPlayer "a" "a" (mkBody 200 383 0 4.9) (Some Red) 0
               (mkInput false true false false) 1000;
      mkPlayer "b" "b" (mkBody 232 385 (-4.9) 0) (Some Blue) 0
               (mkInput false false true false) 1000 ]
    true
    (mkGameState (mkBody 400 200 0 0) (mkScore 0 0) 0 1000)
    1 1.

(** The clock of the ticks below: every reading is 1017, that is 17 ms after
    the rooms' [lastUpdate]. *)
Definition wallClock : nat -> Z := fun _ => 1017%Z.

(** [wallRoom] after the motion updates: [a] has bounced off the wall. *)
Definition wallRoom_moved : GameRoom :=
  mkGameRoom "ROOM01"
    [ mkPlayer "a" "a" (mkBody 200 385 0 (-3.92)) (Some Red) 0
               (mkInput false true false false) 1000;
      mkPlayer "b" "b" (mkBody (232 - 4.9 * (17 / 16.67)) 385 (-4.9) 0) (Some Blue) 0
               (mkInput false false true false) 1000 ]
    true
    (mkGameState (mkBody 400 200 0 0) (mkScore 0 0) 0 1017)
    1 1.

(** [wallRoom] after the collision pass: [a] has taken [b]'s push. *)
Definition wallRoom_collided : GameRoom :=
  mkGameRoom "ROOM01"
    [ mkPlayer "a" "a"
               (mkBody (200 - (30 - (32 - 4.9 * (17 / 16.67))) / 2) 385 (-4.41) (-3.92))
               (Some Red) 0 (mkInput false true false false) 1000;
      mkPlayer "b" "b"
               (mkBody (232 - 4.9 * (17 / 16.67) + (30 - (32 - 4.9 * (17 / 16.67))) / 2)
                       385 (-0.49) 0)
               (Some Blue) 0 (mkInput false false true false) 1000 ]
    true
    (mkGameState (mkBody 400 200 0 0) (mkScore 0 0) 0 1017)
    1 1.

(** Red player [a] stands in the left goal mouth, just under its upper post;
    Blue player [b], also inside the mouth, runs up into it. *)
Definition mouthRoom : GameRoom :=
  mkGameRoom "ROOM01"
    [ mkPlayer "a" "a" (mkBody (-5) 161 0 0) (Some Red) 0
               (mkInput false false false false) 1000;
      mkPlayer "b" "b" (mkBody (-5) 191 0 (-4.9)) (Some Blue) 0
               (mkInput true false false false) 1000 ]
    true
    (mkGameState (mkBody 400 200 0 0) (mkScore 0 0) 0 1000)
    1 1.

(** [mouthRoom] after the motion updates. *)
Definition mouthRoom_moved : GameRoom :=
  mkGameRoom "ROOM01"
    [ mkPlayer "a" "a" (mkBody (-5) 161 0 0) (Some Red) 0
               (mkInput false false false false) 1000;
      mkPlayer "b" "b" (mkBody (-5) (191 - 4.9 * (17 / 16.67)) 0 (-4.9)) (Some Blue) 0
               (mkInput true false false false) 1000 ]
    true
    (mkGameState (mkBody 400 200 0 0) (mkScore 0 0) 0 1017)
    1 1.

(** [mouthRoom] after the collision pass: [a] is above the goal span. *)
Definition mouthRoom_collided : GameRoom :=
  mkGameRoom "ROOM01"
    [ mkPlayer "a" "a" (mkBody (-5) (161 - 4.9 * (17 / 16.67) / 2) 0 (-4.41)) (Some Red) 0
               (mkInput false false false false) 1000;
      mkPlayer "b" "b" (mkBody (-5) (191 - 4.9 * (17 / 16.67) / 2) 0 (-0.49)) (Some Blue) 0
               (mkInput true false false false) 1000 ]
    true
    (mkGameState (mkBody 400 200 0 0) (mkScore 0 0) 0 1017)
    1 1.

(** A shot into the left goal: the ball is three units from the goal line,
    inside the goal span, moving left at 6; Red player [a] and Blue player
    [b] stand on their kickoff spots and [s] is a spectator. *)
Definition shotRoom : GameRoom :=
  mkGameRoom "ROOM01"
    [ mkPlayer "a" "a" (mkBody 100 200 0 0) (Some Red) 0
               (mkInput false false false false) 1000;
      mkPlayer "s" "s" (mkBody 400 50 0 0) None 0
               (mkInput false false false false) 1000;
      mkPlayer "b" "b" (mkBody 650 120 0 0) (Some Blue) 0
               (mkInput false false false false) 1000 ]
    true
    (mkGameState (mkBody 3 200 (-6) 0) (mkScore 2 1) 0 1000)
    1 1.

(** [shotRoom] after the motion updates: the ball is over the goal line. *)
Definition shotRoom_moved : GameRoom :=
  mkGameRoom "ROOM01"
    [ mkPlayer "a" "a" (mkBody 100 200 0 0) (Some Red) 0
               (mkInput false false false false) 1000;
      mkPlayer "s" "s" (mkBody 400 50 0 0) None 0
               (mkInput false false false false) 1000;
      mkPlayer "b" "b" (mkBody 650 120 0 0) (Some Blue) 0
               (mkInput false false false false) 1000 ]
    true
    (mkGameState (mkBody (3 - 5.88 * (17 / 16.67)) 200 (-5.88) 0) (mkScore 2 1) 0 1017)
    1 1.


(** [spectatorS] as a Red player. *)
Definition sOnRed : Player :=
  mkPlayer "s" "s" (mkBody 400 50 0 0) (Some Red) 0 (mkInput false false false false) 1000.


(** ** The rest of the engine *)

(** [applyKick(player, ball, kickForce)]: the ball as the call leaves it; the
    player is only read. *)
Definition applyKick (player ball : Body) (kickForce : R) : Body :=
  let dist := distance player ball in
  let maxKickDistance := playerRadius + ballRadius + 5 in
  if Rleb dist maxKickDistance then
    let dx := x ball - x player in
    let dy := y ball - y player in
    let direction := normalize (mkVec dx dy) in
    let b1 := set_vx ball (vx ball + vec_x direction * kickForce) in
    let b2 := set_vy b1 (vy b1 + vec_y direction * kickForce) in
    let b3 := set_vx b2 (vx b2 + vx player * 0.3) in
    set_vy b3 (vy b3 + vy player * 0.3)
  else ball.

(** ** The rest of the player *)

(** [updateInput(input)], at time [now]. *)
Definition updateInput (p : Player) (newInput : Input) (now : Z) : Player :=
  mkPlayer (id p) (nickname p) (body p) (team p) (playerScore p) newInput now.

(** [getDistanceToBall(ball)] and [canKickBall(ball)]. *)
Definition getDistanceToBall (p : Player) (b : Body) : R :=
  let dx := x (body p) - x b in
  let dy := y (body p) - y b in
  sqrt (dx * dx + dy * dy).

Definition canKickBall (p : Player) (b : Body) : bool :=
  Rleb (getDistanceToBall p b) 30.

(** ** The rest of the room *)

(** [players.delete(playerId)]. *)
Fixpoint deletePlayer (ps : list Player) (playerId : string) : list Player :=
  match ps with
  | [] => []
  | p :: tl =>
      if String.eqb (id p) playerId then tl
      else p :: deletePlayer tl playerId
  end.

(** [removePlayer(playerId)]: its counter update is the one that opens
    [switchPlayerTeam]. *)
Definition removePlayer (r : GameRoom) (playerId : string) : GameRoom * bool :=
  match getPlayer (players r) playerId with
  | None => (r, false)
  | Some player =>
      let r1 := leaveCount r (team player) in
      (set_players r1 (deletePlayer (players r1) playerId), true)
  end.

(** [updatePlayerInput(playerId, input)], at time [now]. *)
Definition updatePlayerInput (r : GameRoom) (playerId : string) (newInput : Input) (now : Z)
  : GameRoom :=
  match getPlayer (players r) playerId with
  | Some _ =>
      set_players r (modifyPlayer (players r) playerId (fun p => updateInput p newInput now))
  | None => r
  end.

(** [resetGame()]: [player.score = 0] is [playerScore] here. *)
Definition resetGame (r : GameRoom) : GameRoom :=
  let g := gameState r in
  set_players
    (set_gameState r (mkGameState (mkBody 400 200 0 0) (mkScore 0 0) 0 (lastUpdate g)))
    (map (fun p =>
            match team p with
            | Some _ =>
                let p1 := resetPosition p in
                mkPlayer (id p1) (nickname p1) (body p1) (team p1) 0 (input p1) (lastSeen p1)
            | None => p
            end)
         (players r)).

(** [isEmpty()] and [isFull()]. *)
Definition isEmpty (r : GameRoom) : bool := (List.length (players r) =? 0)%nat.
Definition isFull (r : GameRoom) : bool := (maxPlayers <=? List.length (players r))%nat.

(** ** Rosters *)

(** The player is on team [t]. *)
Definition onTeam (t : Team) (p : Player) : bool :=
  match team p, t with
  | Some Red, Red => true
  | Some Blue, Blue => true
  | _, _ => false
  end.

(** One for a player on team [t], zero otherwise. *)
Definition unit_of (t : Team) (p : Player) : Z := if onTeam t p then 1%Z else 0%Z.

(** The number of players of a list on team [t], and without a team. *)
Definition countTeam (t : Team) (ps : list Player) : Z :=
  Z.of_nat (List.length (filter (onTeam t) ps)).

Definition countSpectators (ps : list Player) : Z :=
  Z.of_nat (List.length (filter (fun p => negb (teamed p)) ps)).

(** The room's bookkeeping agrees with its map of players: the keys are
    distinct, each team counter is the number of players on that team and
    is within the team size, and the room is within its capacity. *)
Definition rosterOK (r : GameRoom) : Prop :=
  NoDup (map id (players r)) /\
  redTeamCount r = countTeam Red (players r) /\
  blueTeamCount r = countTeam Blue (players r) /\
  (redTeamCount r <= maxTeamSize)%Z /\
  (blueTeamCount r <= maxTeamSize)%Z /\
  (List.length (players r) <= maxPlayers)%nat.

(** What a client can ask of a room, and the rooms a history of requests
    and ticks leads to.  A join is by a player that is not in the room. *)
Inductive reachable : GameRoom -> Prop :=
| reach_new (roomCode : string) (host : Player) (now : Z) :
    reachable (newGameRoom roomCode host now)
| reach_join (r : GameRoom) (p : Player) :
    reachable r -> getPlayer (players r) (id p) = None ->
    reachable (fst (addPlayer r p))
| reach_leave (r : GameRoom) (playerId : string) :
    reachable r -> reachable (fst (removePlayer r playerId))
| reach_switch (r : GameRoom) (playerId : string) (newTeam : option string) :
    reachable r -> reachable (fst (switchPlayerTeam r playerId newTeam))
| reach_input (r : GameRoom) (playerId : string) (newInput : Input) (now : Z) :
    reachable r -> reachable (updatePlayerInput r playerId newInput now)
| reach_tick (r : GameRoom) (clock : nat -> Z) :
    reachable r -> reachable (updateGame clock r)
| reach_reset (r : GameRoom) :
    reachable r -> reachable (resetGame r).

(** [q] has the key and the team of [p]. *)
Definition sameSeat (p q : Player) : Prop := id q = id p /\ team q = team p.

(** A run of ticks, one clock per tick. *)
Definition runTicks (clocks : list (nat -> Z)) (r : GameRoom) : GameRoom :=
  fold_left (fun acc clock => updateGame clock acc) clocks r.

(** A room of two, for the examples: the host [a] on Red and [b] on Blue. *)
Definition pairRoom : GameRoom :=
  fst (addPlayer (newGameRoom "ROOM01" (newPlayer "a" "a" 0) 0) (newPlayer "b" "b" 0)).

(** ** The game loop's timer *)

(** The timers of the runtime: the handles [setInterval] has returned and
    [clearInterval] has not yet cleared, and the next handle.  Handles are
    never reused. *)
Record Timers : Type := mkTimers { active : list nat; nextHandle : nat }.

Definition setInterval (ts : Timers) : nat * Timers :=
  (nextHandle ts, mkTimers (nextHandle ts :: active ts) (S (nextHandle ts))).

Definition clearInterval (h : nat) (ts : Timers) : Timers :=
  mkTimers (filter (fun k => negb (Nat.eqb k h)) (active ts)) (nextHandle ts).

(** The room with its [gameLoopInterval] field. *)
Record LoopRoom : Type := mkLoopRoom { room : GameRoom; gameLoopInterval : option nat }.

Definition set_isPlaying (r : GameRoom) (playing : bool) : GameRoom :=
  mkGameRoom (code r) (players r) playing (gameState r) (redTeamCount r) (blueTeamCount r).

Definition set_lastUpdate (r : GameRoom) (now : Z) : GameRoom :=
  let g := gameState r in
  set_gameState r (mkGameState (ball g) (score g) (gameTime g) now).

(** [startGameLoop(io)], at time [now]. *)
Definition startGameLoop (lr : LoopRoom) (ts : Timers) (now : Z) : LoopRoom * Timers :=
  let ts1 := match gameLoopInterval lr with
             | Some h => clearInterval h ts
             | None => ts
             end in
  let r1 := set_lastUpdate (set_isPlaying (room lr) true) now in
  let '(h, ts2) := setInterval ts1 in
  (mkLoopRoom r1 (Some h), ts2).

(** [stopGameLoop()]. *)
Definition stopGameLoop (lr : LoopRoom) (ts : Timers) : LoopRoom * Timers :=
  match gameLoopInterval lr with
  | Some h => (mkLoopRoom (set_isPlaying (room lr) false) None, clearInterval h ts)
  | None => (mkLoopRoom (set_isPlaying (room lr) false) None, ts)
  end.

(** A history of calls on one room's loop. *)
Inductive LoopCall : Type := CallStart (now : Z) | CallStop.

Definition loopCall (st : LoopRoom * Timers) (c : LoopCall) : LoopRoom * Timers :=
  match c with
  | CallStart now => startGameLoop (fst st) (snd st) now
  | CallStop => stopGameLoop (fst st) (snd st)
  end.

Definition loopCalls (cs : list LoopCall) (st : LoopRoom * Timers) : LoopRoom * Timers :=
  fold_left loopCall cs st.

(** The runtime's timers are well formed: no handle twice, none from the
    future. *)
Definition timersOK (ts : Timers) : Prop :=
  NoDup (active ts) /\ forall h, In h (active ts) -> (h < nextHandle ts)%nat.

(** ** Room codes *)

(** [Math.floor]. *)
Definition Math_floor (v : R) : Z := Int_part v.

(** [s.charAt(n)]: the empty string outside the string. *)
Definition charAt (s : string) (n : Z) : string :=
  if (n <? 0)%Z then EmptyString
  else match String.get (Z.to_nat n) s with
       | Some c => String c EmptyString
       | None => EmptyString
       end.

Definition roomCodeChars : string := "ABCDEFGHIJKLMNOPQRSTUVWXYZ0123456789".

(** The loop of [generateRoomCode]: [count] more turns, the next one drawing
    [random i], the [i]-th value of [Math.random()]. *)
Fixpoint generateRoomCodeFrom (random : nat -> R) (i count : nat) (result : string) : string :=
  match count with
  | O => result
  | S count' =>
      generateRoomCodeFrom random (S i) count'
        (String.append result
           (charAt roomCodeChars
                   (Math_floor (random i * IZR (Z.of_nat (String.length roomCodeChars))))))
  end.

(** [generateRoomCode()]. *)
Definition generateRoomCode (random : nat -> R) : string :=
  generateRoomCodeFrom random 0 6 EmptyString.

(** One if the room holds a timer, zero otherwise. *)
Definition ownTimers (lr : LoopRoom) : nat :=
  match gameLoopInterval lr with
  | Some _ => 1
  | None => 0
  end.

(** What holds of a room's loop and the runtime's timers after any history
    of calls that began with the timers [ts0] and the room stopped: the
    room's handle, if any, is an active timer that [ts0] did not have; the
    timers of [ts0] are all still active; and besides them there is exactly
    the room's own. *)
Definition loopInv (ts0 : Timers) (st : LoopRoom * Timers) : Prop :=
  timersOK ts0 /\
  timersOK (snd st) /\
  (nextHandle ts0 <= nextHandle (snd st))%nat /\
  (forall h, gameLoopInterval (fst st) = Some h ->
             In h (active (snd st)) /\ (nextHandle ts0 <= h)%nat) /\
  (forall h, In h (active ts0) -> In h (active (snd st))) /\
  List.length (active (snd st)) = (List.length (active ts0) + ownTimers (fst st))%nat /\
  isPlaying (room (fst st)) = match gameLoopInterval (fst st) with
                              | Some _ => true
                              | None => false
                              end.

(** ** The client's offline tick *)

(** The part of the client's [gameState] that its physics touches; the
    players are the plain objects of a snapshot. *)
Record ClientState : Type := mkClientState {
  client_players : list PlayerData;
  client_ball : Body;
  client_score : Score
}.

Definition set_data_body (d : PlayerData) (b : Body) : PlayerData :=
  mkPlayerData (data_id d) (data_nickname d) b (data_team d).

(** [players.get(id)] on the client, and the effect of mutating what it
    returns. *)
Definition getData (ps : list PlayerData) (playerId : string) : option PlayerData :=
  find (fun d => String.eqb (data_id d) playerId) ps.

Fixpoint modifyData (ps : list PlayerData) (playerId : string)
         (f : PlayerData -> PlayerData) : list PlayerData :=
  match ps with
  | [] => []
  | d :: tl =>
      if String.eqb (data_id d) playerId then f d :: tl
      else d :: modifyData tl playerId f
  end.

(** The collision loop of [updateOfflinePhysics]: every player, teamed or
    not, against the ball. *)
Fixpoint clientCollideBall (ps : list PlayerData) (b : Body) : list PlayerData * Body :=
  match ps with
  | [] => ([], b)
  | d :: tl =>
      let '(d1, b1) :=
        if checkCollision (data_body d) b 15 10 then
          let '(o1, o2) := resolveCollision (data_body d) b 15 10 1 0.5 in
          (set_data_body d o1, o2)
        else (d, b) in
      let '(tl1, b2) := clientCollideBall tl b1 in
      (d1 :: tl1, b2)
  end.

(** The client's [handleGoal(team)], without its calls to the user
    interface. *)
Definition clientHandleGoal (c : ClientState) (t : Team) : ClientState :=
  mkClientState (client_players c) (resetBall (client_ball c))
                (incrementScore (client_score c) t).

(** [updateOfflinePhysics(deltaTime)], for the local player's id and
    input. *)
Definition updateOfflinePhysics (localId : string) (localInput : Input) (deltaTime : R)
           (c : ClientState) : ClientState :=
  let dt := deltaTime / 16.67 in
  let ps1 := match getData (client_players c) localId with
             | Some _ =>
                 modifyData (client_players c) localId
                   (fun d => set_data_body d (updatePlayer (data_body d) localInput dt))
             | None => client_players c
             end in
  let b1 := updateBall (client_ball c) dt in
  let '(ps2, b2) := clientCollideBall ps1 b1 in
  let c2 := mkClientState ps2 b2 (client_score c) in
  match checkGoal b2 with
  | Some goalScored => clientHandleGoal c2 goalScored
  | None => c2
  end.

(** The plain object a player is on the client, unrounded. *)
Definition toData (p : Player) : PlayerData :=
  mkPlayerData (id p) (nickname p) (body p) (team p).

(** ** The snapshot in double arithmetic *)

(** The program's numbers are binary64 doubles.  The snapshot's rounding is
    a statement about the numbers themselves, so it is also modelled on
    doubles, with the operations of the Standard Library's specification of
    IEEE 754 arithmetic (precision 53, largest exponent 1024). *)
Definition double : Type := spec_float.

Definition double_mul : double -> double -> double := SFmul 53 1024.
Definition double_div : double -> double -> double := SFdiv 53 1024.

(** The double of an integer literal. *)
Definition double_of_Z (n : Z) : double := binary_normalize 53 1024 n 0 false.

Definition double_finite (d : double) : bool :=
  match d with
  | S754_zero _ | S754_finite _ _ _ => true
  | _ => false
  end.

Definition bpow (e : Z) : R := powerRZ 2 e.

(** The real number a finite double stands for. *)
Definition double_value (d : double) : R :=
  match d with
  | S754_finite s m e => IZR (cond_Zopp s (Zpos m)) * bpow e
  | _ => 0
  end.

(** [Math.round] on a double: the nearest integer, a tie going up; a double
    with a non-negative exponent is an integer already, and a result of zero
    keeps the sign of the argument. *)
Definition Math_round_double (d : double) : double :=
  match d with
  | S754_finite s m e =>
      if (0 <=? e)%Z then d
      else
        let n := ((2 * cond_Zopp s (Zpos m) + 2 ^ (- e)) / 2 ^ (1 - e))%Z in
        match n with
        | Z0 => S754_zero s
        | _ => double_of_Z n
        end
  | _ => d
  end.

(** [Math.round(v * 100) / 100] on doubles. *)
Definition round2_double (v : double) : double :=
  double_div (Math_round_double (double_mul v (double_of_Z 100))) (double_of_Z 100).

(** The kinematic fields of an object, and what [getGameData()] reads of a
    player, as doubles. *)
Record DoubleBody : Type := mkDoubleBody {
  dbl_x : double;
  dbl_y : double;
  dbl_vx : double;
  dbl_vy : double
}.

Definition roundBody_double (b : DoubleBody) : DoubleBody :=
  mkDoubleBody (round2_double (dbl_x b)) (round2_double (dbl_y b))
               (round2_double (dbl_vx b)) (round2_double (dbl_vy b)).

Record DoublePlayer : Type := mkDoublePlayer {
  dbl_id : string;
  dbl_nickname : string;
  dbl_body : DoubleBody;
  dbl_team : option Team
}.

Definition getGameData_double (p : DoublePlayer) : DoublePlayer :=
  mkDoublePlayer (dbl_id p) (dbl_nickname p) (roundBody_double (dbl_body p)) (dbl_team p).

(** The players and the ball of [getGameState()]. *)
Definition getGameState_double (ps : list DoublePlayer) (ball : DoubleBody)
  : list DoublePlayer * DoubleBody :=
  (map getGameData_double ps, roundBody_double ball).

(** A shift record locates a real number: its mantissa is the integer part,
    its round bit tells whether the fractional part is at least a half, its
    sticky bit whether the fractional part is neither zero nor a half. *)
Definition locates (mrs : shr_record) (t : R) : Prop :=
  (0 <= shr_m mrs)%Z /\
  IZR (shr_m mrs) <= t < IZR (shr_m mrs) + 1 /\
  (if shr_r mrs then IZR (shr_m mrs) + / 2 <= t else t < IZR (shr_m mrs) + / 2) /\
  (if shr_s mrs then t <> IZR (shr_m mrs) /\ t <> IZR (shr_m mrs) + / 2
   else t = IZR (shr_m mrs) \/ t = IZR (shr_m mrs) + / 2).

(** The exponent at which [binary_round_aux] rounds a mantissa and exponent. *)
Definition round_exponent (mx ex : Z) : Z :=
  Z.max ex (fexp 53 1024 (Zdigits2 mx + ex)).

(** A finite double whose mantissa fits 53 bits. *)
Definition double_53 (d : double) : Prop :=
  match d with
  | S754_zero _ => True
  | S754_finite _ m _ => (Zpos m < 2 ^ 53)%Z
  | _ => False
  end.

(** A field of the snapshot that the rounding is stated for: a finite
    double of magnitude at most [10^15]. *)
Definition fieldInRange (v : double) : Prop :=
  double_finite v = true /\ Rabs (double_value v) <= 1000000000000000.

Definition fieldInRangeb (v : double) : bool :=
  match v with
  | S754_zero _ => true
  | S754_finite _ m e => (Zpos (digits2_pos m) + e <=? 49)%Z
  | _ => false
  end.

(** What holds of an emitted double: it is finite; it is a whole number of
    hundredths up to the rounding of the division; and it is within
    [0.005] of the field it renders up to the rounding of the product and of
    the division. *)
Definition roundedTo2_double (emitted actual : double) : Prop :=
  double_finite emitted = true /\
  (exists n : Z,
      Rabs (double_value emitted - IZR n / 100) <= Rabs (IZR n / 100) / 2 ^ 53) /\
  Rabs (double_value emitted - double_value actual)
  <= 0.005 + (Rabs (double_value actual) + 1) / 2 ^ 51.

Definition bodyInRange (b : DoubleBody) : Prop :=
  fieldInRange (dbl_x b) /\ fieldInRange (dbl_y b) /\
  fieldInRange (dbl_vx b) /\ fieldInRange (dbl_vy b).

Definition bodyRoundedTo2_double (emitted actual : DoubleBody) : Prop :=
  roundedTo2_double (dbl_x emitted) (dbl_x actual) /\
  roundedTo2_double (dbl_y emitted) (dbl_y actual) /\
  roundedTo2_double (dbl_vx emitted) (dbl_vx actual) /\
  roundedTo2_double (dbl_vy emitted) (dbl_vy actual).

(** The double nearest to 0.015. *)
Definition double_0_015 : double := S754_finite false 8646911284551352 (-59).

(** A ball rolling slowly to the right past the centre spot, and a player. *)
Definition slowBall : DoubleBody :=
  mkDoubleBody (double_of_Z 400) (double_of_Z 200) double_0_015 (double_of_Z 0).

Definition slowPlayer : DoublePlayer :=
  mkDoublePlayer "a" "a"
    (mkDoubleBody (double_of_Z 100) (double_of_Z 200) double_0_015 double_0_015)
    (Some Red).

(** * Properties *)

(** ** Comparisons *)

Lemma Rltb_true_iff (a b : R) : Rltb a b = true <-> a < b.
Proof. unfold Rltb. destruct (Rlt_dec a b); split; intros; auto; discriminate. Qed.

Lemma Rltb_false_iff (a b : R) : Rltb a b = false <-> b <= a.
Proof.
  unfold Rltb. destruct (Rlt_dec a b); split; intros; auto; try discriminate; lra.
Qed.

Lemma Rleb_true_iff (a b : R) : Rleb a b = true <-> a <= b.
Proof. unfold Rleb. destruct (Rle_dec a b); split; intros; auto; discriminate. Qed.

Lemma Rleb_false_iff (a b : R) : Rleb a b = false <-> b < a.
Proof.
  unfold Rleb. destruct (Rle_dec a b); split; intros; auto; try discriminate; lra.
Qed.

Lemma Reqb_true_iff (a b : R) : Reqb a b = true <-> a = b.
Proof. unfold Reqb. destruct (Req_dec_T a b); split; intros; auto; discriminate. Qed.

Lemma Reqb_false_iff (a b : R) : Reqb a b = false <-> a <> b.
Proof.
  unfold Reqb. destruct (Req_dec_T a b); split; intros; auto; try discriminate; contradiction.
Qed.

(** Case analysis on every comparison a goal tests. *)
Ltac case_cmp :=
  repeat match goal with
  | |- context [Rltb ?a ?b] =>
      let H := fresh "Hlt" in
      destruct (Rltb a b) eqn:H;
      [apply Rltb_true_iff in H | apply Rltb_false_iff in H]
  | |- context [Rleb ?a ?b] =>
      let H := fresh "Hle" in
      destruct (Rleb a b) eqn:H;
      [apply Rleb_true_iff in H | apply Rleb_false_iff in H]
  end.

(** ** Goal detection *)

(** C4.  [checkGoal] returns Blue exactly when the ball is past [x < 0] with
    [y] inside the goal span [160, 240], Red exactly when it is past
    [x > 800] with [y] inside that span, and no goal in every other state. *)
Theorem checkGoal_exact (b : Body) :
  (checkGoal b = Some Blue <-> x b < 0 /\ inGoalSpan (y b)) /\
  (checkGoal b = Some Red <-> 800 < x b /\ inGoalSpan (y b)) /\
  (checkGoal b = None <->
     ~ (x b < 0 /\ inGoalSpan (y b)) /\ ~ (800 < x b /\ inGoalSpan (y b))).
Proof.
  unfold checkGoal, inGoalSpan, goalBottom, goalTop, fieldWidth, fieldHeight, goalHeight.
  case_cmp; cbn [andb]; intuition (try discriminate; try lra).
Qed.

(** ** Team bookkeeping *)

Lemma getPlayer_modifyPlayer (ps : list Player) (pid : string) (f : Player -> Player)
      (p : Player) :
  getPlayer ps pid = Some p -> id (f p) = id p ->
  getPlayer (modifyPlayer ps pid f) pid = Some (f p).
Proof.
  unfold getPlayer. induction ps as [|q tl IH]; cbn; intros H Hid.
  - discriminate.
  - destruct (String.eqb (id q) pid) eqn:E.
    + injection H as ->. cbn. rewrite Hid, E. reflexivity.
    + cbn. rewrite E. now apply IH.
Qed.

Lemma getPlayer_mapSet (ps : list Player) (p : Player) :
  getPlayer (mapSet ps p) (id p) = Some p.
Proof.
  unfold getPlayer. induction ps as [|q tl IH]; cbn.
  - now rewrite String.eqb_refl.
  - destruct (String.eqb (id q) (id p)) eqn:E; cbn.
    + now rewrite String.eqb_refl.
    + now rewrite E.
Qed.

Lemma setTeam_spot (p : Player) (t : option Team) :
  team (setTeam p t) = t /\ body (setTeam p t) = teamSpot t /\ id (setTeam p t) = id p.
Proof. destruct t as [[|]|]; repeat split. Qed.

Lemma autoAssignTeam_player (r : GameRoom) (p : Player) :
  exists t, snd (autoAssignTeam r p) = setTeam p t.
Proof.
  unfold autoAssignTeam.
  destruct (_ && _); [now exists (Some Red)|].
  destruct (_ <? _)%Z; [now exists (Some Blue) | now exists None].
Qed.

(** C7.  [autoAssignTeam] puts the joining player on the team the
    specification's rule names (fewer members, Red on a tie, under the cap of
    4; else the other team if under the cap; else Spectator) and counts it
    there; with Red at 4 and Blue at 1 the joiner goes to Blue. *)
Theorem autoAssignTeam_refines_spec (r : GameRoom) (p : Player) :
  team (snd (autoAssignTeam r p)) = autoAssign_spec r /\
  redTeamCount (fst (autoAssignTeam r p)) =
    (redTeamCount r + match autoAssign_spec r with Some Red => 1 | _ => 0 end)%Z /\
  blueTeamCount (fst (autoAssignTeam r p)) =
    (blueTeamCount r + match autoAssign_spec r with Some Blue => 1 | _ => 0 end)%Z /\
  (redTeamCount r = 4%Z -> blueTeamCount r = 1%Z ->
   team (snd (autoAssignTeam r p)) = Some Blue).
Proof.
  unfold autoAssignTeam, autoAssign_spec, fewerTeam, maxTeamSize.
  destruct (Z.leb_spec (redTeamCount r) (blueTeamCount r));
    cbn [teamCount otherTeam];
    destruct (Z.ltb_spec (redTeamCount r) 4); destruct (Z.ltb_spec (blueTeamCount r) 4);
    cbn; repeat split; intros; try lia.
Qed.

Lemma autoAssignTeam_refines_spec_witness :
  team (snd (autoAssignTeam
               (mkGameRoom "ROOM01" [] false
                           (mkGameState (mkBody 400 200 0 0) (mkScore 0 0) 0 0) 4 1)
               (newPlayer "j" "j" 0))) = Some Blue.
Proof.
  apply (autoAssignTeam_refines_spec
           (mkGameRoom "ROOM01" [] false
                       (mkGameState (mkBody 400 200 0 0) (mkScore 0 0) 0 0) 4 1)
           (newPlayer "j" "j" 0)); reflexivity.
Defined.

Lemma restore_leave (r : GameRoom) (t : option Team) :
  restoreCount (leaveCount r t) t = r.
Proof.
  destruct r as [c ps pl g nr nb], t as [[|]|]; cbn; unfold set_redTeamCount, set_blueTeamCount;
    cbn; f_equal; lia.
Qed.

Lemma leaveCount_other (r : GameRoom) (t : Team) (cur : option Team) :
  cur <> Some t -> teamCount (leaveCount r cur) t = teamCount r t.
Proof. destruct cur as [[|]|], t; cbn; congruence. Qed.

(** C5, as the code has it.  A present player who asks for a full team it is
    not on is refused, and the call leaves the whole room (both counters and
    the player's team among the rest) as it was; a present player who asks
    for Spectator, by name or by [null], is granted. *)
Theorem switchPlayerTeam_full_team_refused (r : GameRoom) (playerId : string) (p : Player) :
  getPlayer (players r) playerId = Some p ->
  (forall t : Team,
     team p <> Some t -> (maxTeamSize <= teamCount r t)%Z ->
     switchPlayerTeam r playerId (Some (teamName t)) = (r, false)) /\
  snd (switchPlayerTeam r playerId (Some "spectator"%string)) = true /\
  snd (switchPlayerTeam r playerId None) = true.
Proof.
  intros Hp. unfold switchPlayerTeam. rewrite Hp. split.
  - intros t Ht Hfull.
    pose proof (leaveCount_other r t (team p) Ht) as Hc.
    destruct t; cbn [teamName isString teamCount] in *.
    + replace (String.eqb "red" "red") with true by reflexivity.
      replace (String.eqb "red" "blue") with false by reflexivity.
      replace (String.eqb "red" "spectator") with false by reflexivity.
      rewrite Hc. destruct (Z.ltb_spec (redTeamCount r) maxTeamSize); [lia|].
      cbn. now rewrite restore_leave.
    + replace (String.eqb "blue" "red") with false by reflexivity.
      replace (String.eqb "blue" "blue") with true by reflexivity.
      replace (String.eqb "blue" "spectator") with false by reflexivity.
      rewrite Hc. destruct (Z.ltb_spec (blueTeamCount r) maxTeamSize); [lia|].
      cbn. now rewrite restore_leave.
  - split; reflexivity.
Qed.

Lemma switchPlayerTeam_full_team_refused_witness :
  switchPlayerTeam crowdedRoom "i" (Some "red"%string) = (crowdedRoom, false) /\
  switchPlayerTeam crowdedRoom "b" (Some "red"%string) = (crowdedRoom, false) /\
  snd (switchPlayerTeam crowdedRoom "a" None) = true.
Proof.
  assert (Hi : getPlayer (players crowdedRoom) "i" = Some (setTeam (newPlayer "i" "i" 0) None))
    by reflexivity.
  assert (Hb : getPlayer (players crowdedRoom) "b"
               = Some (setTeam (newPlayer "b" "b" 0) (Some Blue))) by reflexivity.
  assert (Ha : getPlayer (players crowdedRoom) "a"
               = Some (setTeam (newPlayer "a" "a" 0) (Some Red))) by reflexivity.
  split; [|split].
  - apply (proj1 (switchPlayerTeam_full_team_refused crowdedRoom "i" _ Hi) Red);
      [discriminate | vm_compute; discriminate].
  - apply (proj1 (switchPlayerTeam_full_team_refused crowdedRoom "b" _ Hb) Red);
      [discriminate | vm_compute; discriminate].
  - apply (switchPlayerTeam_full_team_refused crowdedRoom "a" _ Ha).
Defined.

(** C5 as worded fails: a member of a full team who asks for that same team
    is granted, not refused.  Red is at 4 with [a] on it; the call first
    takes Red to 3, the test [3 < 4] passes, [a] is assigned to Red again
    and the call returns [true]. *)
Lemma switchPlayerTeam_own_full_team_granted :
  getPlayer (players crowdedRoom) "a" = Some (setTeam (newPlayer "a" "a" 0) (Some Red)) /\
  (maxTeamSize <= redTeamCount crowdedRoom)%Z /\
  snd (switchPlayerTeam crowdedRoom "a" (Some "red"%string)) = true.
Proof.
  split; [reflexivity|]. split; [vm_compute; discriminate | reflexivity].
Qed.

(** C10.  Every assignment through [setTeam] overwrites the position with
    the new team's spot (Red (100,200), Blue (700,200), Spectator (400,50))
    and zeroes the velocity, whatever the player's kinematics were: in
    [setTeam] itself, in [autoAssignTeam], on a join, and on every granted
    [switchPlayerTeam], a switch to Spectator included. *)
Theorem setTeam_overwrites_kinematics :
  (forall p t, team (setTeam p t) = t /\ body (setTeam p t) = teamSpot t) /\
  (forall r p,
     body (snd (autoAssignTeam r p)) = teamSpot (team (snd (autoAssignTeam r p)))) /\
  (forall r p r',
     addPlayer r p = (r', true) ->
     exists p', getPlayer (players r') (id p) = Some p' /\
                body p' = teamSpot (team p')) /\
  (forall r playerId newTeam r',
     switchPlayerTeam r playerId newTeam = (r', true) ->
     exists p', getPlayer (players r') playerId = Some p' /\
                team p' = requestedTeam newTeam /\
                body p' = teamSpot (team p')).
Proof.
  split; [|split; [|split]].
  - intros p t. split; apply setTeam_spot.
  - intros r p. destruct (autoAssignTeam_player r p) as [t ->].
    destruct (setTeam_spot p t) as (-> & -> & _). reflexivity.
  - intros r p r'. unfold addPlayer.
    destruct (maxPlayers <=? List.length (players r))%nat; [discriminate|].
    destruct (autoAssignTeam_player r p) as [t Ht].
    destruct (autoAssignTeam r p) as [r1 p1]. cbn [snd] in Ht. subst p1.
    intros [= <-]. exists (setTeam p t).
    destruct (setTeam_spot p t) as (Ht & Hb & Hi). split.
    + cbn [players set_players]. rewrite <- Hi. apply getPlayer_mapSet.
    + now rewrite Hb, Ht.
  - intros r pid newTeam r'. unfold switchPlayerTeam, requestedTeam.
    destruct (getPlayer (players r) pid) as [p|] eqn:Hp; [|discriminate].
    assert (Hps : players (leaveCount r (team p)) = players r)
      by (destruct (team p) as [[|]|]; reflexivity).
    destruct (isString newTeam "red") eqn:Er; cbn [andb].
    { destruct (_ <? _)%Z.
      - intros [= <-]. exists (setTeam p (Some Red)). cbn [players set_players set_redTeamCount].
        rewrite Hps. split; [|split; reflexivity].
        exact (getPlayer_modifyPlayer _ _ (fun q => setTeam q (Some Red)) p Hp eq_refl).
      - assert (Eb : isString newTeam "blue" = false).
        { destruct newTeam as [s|]; [|reflexivity]. cbn in *.
          apply String.eqb_eq in Er. now subst s. }
        assert (Es : isString newTeam "spectator" = false).
        { destruct newTeam as [s|]; [|reflexivity]. cbn in *.
          apply String.eqb_eq in Er. now subst s. }
        assert (En : isNull newTeam = false).
        { destruct newTeam as [s|]; [reflexivity | discriminate]. }
        rewrite Eb, Es, En. cbn. discriminate. }
    destruct (isString newTeam "blue") eqn:Eb; cbn [andb].
    { destruct (_ <? _)%Z.
      - intros [= <-]. exists (setTeam p (Some Blue)).
        cbn [players set_players set_blueTeamCount].
        rewrite Hps. split; [|split; reflexivity].
        exact (getPlayer_modifyPlayer _ _ (fun q => setTeam q (Some Blue)) p Hp eq_refl).
      - assert (Es : isString newTeam "spectator" = false).
        { destruct newTeam as [s|]; [|reflexivity]. cbn in *.
          apply String.eqb_eq in Eb. now subst s. }
        assert (En : isNull newTeam = false).
        { destruct newTeam as [s|]; [reflexivity | discriminate]. }
        rewrite Es, En. cbn. discriminate. }
    destruct (isString newTeam "spectator" || isNull newTeam); [|discriminate].
    intros [= <-]. exists (setTeam p None). cbn [players set_players].
    rewrite Hps. split; [|split; reflexivity].
    exact (getPlayer_modifyPlayer _ _ (fun q => setTeam q None) p Hp eq_refl).
Qed.

Lemma setTeam_overwrites_kinematics_witness :
  (exists p', getPlayer (players (fst (addPlayer crowdedRoom (newPlayer "j" "j" 0)))) "j"
              = Some p' /\ body p' = teamSpot (team p')) /\
  (exists p', getPlayer (players (fst (switchPlayerTeam crowdedRoom "a" None))) "a" = Some p' /\
              team p' = None /\ body p' = teamSpot (team p')).
Proof.
  split.
  - apply (proj1 (proj2 (proj2 setTeam_overwrites_kinematics))
             crowdedRoom (newPlayer "j" "j" 0)).
    reflexivity.
  - apply (proj2 (proj2 (proj2 setTeam_overwrites_kinematics)) crowdedRoom "a"%string None).
    reflexivity.
Defined.

(** ** The snapshot's rounding *)

Lemma Math_round_bounds (v : R) :
  v - 0.5 < IZR (Math_round v) <= v + 0.5.
Proof.
  unfold Math_round. destruct (base_Int_part (v + 0.5)) as [H1 H2]. lra.
Qed.

Lemma round2_roundedTo2 (v : R) : roundedTo2 (round2 v) v.
Proof.
  unfold roundedTo2, round2. split.
  - now exists (Math_round (v * 100)).
  - pose proof (Math_round_bounds (v * 100)) as H.
    apply Rabs_le. lra.
Qed.

Lemma roundBody_roundedTo2 (b : Body) : bodyRoundedTo2 (roundBody b) b.
Proof. unfold bodyRoundedTo2, roundBody; cbn. repeat split; apply round2_roundedTo2. Qed.

(** In exact arithmetic every position and velocity field of a snapshot,
    for the ball and for each player, is the room's value rounded to two
    decimal digits, so it is within 0.005 of that value.  What the doubles
    make of this is stated with the snapshot in double arithmetic. *)
Lemma getGameState_rounds_in_exact_arithmetic (r : GameRoom) :
  bodyRoundedTo2 (snap_ball (getGameState r)) (ball (gameState r)) /\
  List.length (snap_players (getGameState r)) = List.length (players r) /\
  (forall i p,
     nth_error (players r) i = Some p ->
     exists d, nth_error (snap_players (getGameState r)) i = Some d /\
               data_id d = id p /\ data_team d = team p /\
               bodyRoundedTo2 (data_body d) (body p)).
Proof.
  cbn [getGameState snap_ball snap_players]. split; [apply roundBody_roundedTo2|].
  split; [apply length_map|].
  intros i p Hp. exists (getGameData p). split.
  - now rewrite nth_error_map, Hp.
  - cbn. repeat split; apply round2_roundedTo2.
Qed.

(** ** Collision response *)

Lemma normalize_unit_or_zero (v : Vec) :
  vec_x (normalize v) * vec_x (normalize v) + vec_y (normalize v) * vec_y (normalize v) = 1 \/
  (vec_x (normalize v) = 0 /\ vec_y (normalize v) = 0).
Proof.
  unfold normalize.
  set (s := vec_x v * vec_x v + vec_y v * vec_y v).
  assert (Hs : 0 <= s) by (unfold s; nra).
  destruct (Reqb (sqrt s) 0) eqn:E; cbn.
  - right. split; reflexivity.
  - left. apply Reqb_false_iff in E.
    replace (vec_x v / sqrt s * (vec_x v / sqrt s) + vec_y v / sqrt s * (vec_y v / sqrt s))
      with (s / (sqrt s * sqrt s)) by (unfold s; field; exact E).
    rewrite sqrt_sqrt by exact Hs. field. intros H0. apply E. rewrite H0. apply sqrt_0.
Qed.

(** The velocity step of [resolveCollision], for a normal [(nx, ny)] that is
    a unit vector or zero, and an impulse [j] with [j * s = - (1 + e) * van]. *)
Lemma impulse_energy (m1 m2 nx ny ax ay bx' by' j : R) :
  0 < m1 -> 0 < m2 ->
  nx * nx + ny * ny = 1 \/ (nx = 0 /\ ny = 0) ->
  j = - (1 + bounceRestitution) * ((bx' - ax) * nx + (by' - ay) * ny) / (1 / m1 + 1 / m2) ->
  m1 * ((ax - j * nx / m1) * (ax - j * nx / m1) + (ay - j * ny / m1) * (ay - j * ny / m1)) / 2 +
  m2 * ((bx' + j * nx / m2) * (bx' + j * nx / m2) + (by' + j * ny / m2) * (by' + j * ny / m2)) / 2
  <= m1 * (ax * ax + ay * ay) / 2 + m2 * (bx' * bx' + by' * by') / 2.
Proof.
  intros Hm1 Hm2 Hn Hj.
  set (van := (bx' - ax) * nx + (by' - ay) * ny) in *.
  set (s := 1 / m1 + 1 / m2) in *.
  assert (Hs : 0 < s).
  { unfold s. assert (0 < 1 / m1) by (apply Rdiv_lt_0_compat; lra).
    assert (0 < 1 / m2) by (apply Rdiv_lt_0_compat; lra). lra. }
  assert (Hjs : j * s = - (1 + bounceRestitution) * van) by (rewrite Hj; field; lra).
  assert (Hdiff :
    m1 * ((ax - j * nx / m1) * (ax - j * nx / m1) + (ay - j * ny / m1) * (ay - j * ny / m1)) / 2 +
    m2 * ((bx' + j * nx / m2) * (bx' + j * nx / m2) + (by' + j * ny / m2) * (by' + j * ny / m2)) / 2
    = m1 * (ax * ax + ay * ay) / 2 + m2 * (bx' * bx' + by' * by') / 2
      + (j * van + j * (j * s) * (nx * nx + ny * ny) / 2)).
  { unfold van, s. field. lra. }
  rewrite Hdiff, Hjs.
  assert (Hjv : j * van <= 0).
  { assert (Hsq : 0 <= van * van) by nra.
    assert (H1 : (j * van) * s = - (1 + bounceRestitution) * (van * van)) by
        (replace ((j * van) * s) with ((j * s) * van) by ring; rewrite Hjs; ring).
    unfold bounceRestitution in *. nra. }
  unfold bounceRestitution in *.
  destruct Hn as [Hn | [Hx Hy]].
  - rewrite Hn. nra.
  - rewrite Hx, Hy. nra.
Qed.

Lemma resolveCollision_one_order (a b : Body) (r1 r2 m1 m2 : R) :
  0 < m1 -> 0 < m2 ->
  momentum_x m1 m2 (resolveCollision a b r1 r2 m1 m2) = momentum_x m1 m2 (a, b) /\
  momentum_y m1 m2 (resolveCollision a b r1 r2 m1 m2) = momentum_y m1 m2 (a, b) /\
  kineticEnergy m1 m2 (resolveCollision a b r1 r2 m1 m2) <= kineticEnergy m1 m2 (a, b).
Proof.
  intros Hm1 Hm2. unfold resolveCollision.
  destruct (Rleb (r1 + r2) (distance a b)); [repeat split; apply Rle_refl|].
  set (n := normalize (mkVec (x b - x a) (y b - y a))).
  pose proof (normalize_unit_or_zero (mkVec (x b - x a) (y b - y a))) as Hn.
  fold n in Hn. cbn [vx vy].
  destruct (Rltb 0 _); [repeat split; apply Rle_refl|].
  unfold momentum_x, momentum_y, kineticEnergy, dotProduct. cbn.
  split; [field; lra|]. split; [field; lra|].
  apply impulse_energy; auto.
Qed.

(** C6.  One [resolveCollision] call, for masses that are positive, leaves
    the total momentum [massA * vA + massB * vB] as it was (on both axes) and
    does not raise the total kinetic energy; this holds in either order of
    the arguments. *)
Theorem resolveCollision_conserves (a b : Body) (ra rb massA massB : R) :
  0 < massA -> 0 < massB ->
  (momentum_x massA massB (resolveCollision a b ra rb massA massB)
     = momentum_x massA massB (a, b) /\
   momentum_y massA massB (resolveCollision a b ra rb massA massB)
     = momentum_y massA massB (a, b) /\
   kineticEnergy massA massB (resolveCollision a b ra rb massA massB)
     <= kineticEnergy massA massB (a, b)) /\
  (momentum_x massB massA (resolveCollision b a rb ra massB massA)
     = momentum_x massB massA (b, a) /\
   momentum_y massB massA (resolveCollision b a rb ra massB massA)
     = momentum_y massB massA (b, a) /\
   kineticEnergy massB massA (resolveCollision b a rb ra massB massA)
     <= kineticEnergy massB massA (b, a)).
Proof.
  intros HA HB. split; now apply resolveCollision_one_order.
Qed.

(** ** Bounds and the speed cap *)

(** Case analysis on the comparisons of a goal, innermost first, reducing
    the field accesses each case frees. *)
Ltac no_cmp t :=
  lazymatch t with
  | context [Rltb _ _] => fail
  | context [Rleb _ _] => fail
  | _ => idtac
  end.

Ltac case_cmp_inner :=
  repeat (match goal with
          | |- context [Rltb ?a ?b] =>
              no_cmp a; no_cmp b;
              let H := fresh "Hlt" in
              destruct (Rltb a b) eqn:H;
              [apply Rltb_true_iff in H | apply Rltb_false_iff in H]
          | |- context [Rleb ?a ?b] =>
              no_cmp a; no_cmp b;
              let H := fresh "Hle" in
              destruct (Rleb a b) eqn:H;
              [apply Rleb_true_iff in H | apply Rleb_false_iff in H]
          end;
          cbn [x y vx vy set_x set_y set_vx set_vy andb]).

Lemma constrain_x_phase (obj : Body) (radius : R) :
  0 <= radius <= 160 ->
  y (constrainRight (constrainLeft obj radius) radius) = y obj /\
  radius - 20 <= x (constrainRight (constrainLeft obj radius) radius) <= 820 - radius /\
  (inGoalSpan (y obj) \/
   radius <= x (constrainRight (constrainLeft obj radius) radius) <= 800 - radius).
Proof.
  intros Hr.
  unfold inGoalSpan, constrainRight, constrainLeft, goalBottom, goalTop, fieldWidth,
    fieldHeight, goalHeight, goalDepth.
  case_cmp_inner; lra.
Qed.

Lemma constrain_y_phase (obj : Body) (radius : R) :
  0 <= radius <= 160 ->
  x (constrainBottom (constrainTop obj radius) radius) = x obj /\
  radius <= y (constrainBottom (constrainTop obj radius) radius) <= 400 - radius /\
  (inGoalSpan (y obj) -> y (constrainBottom (constrainTop obj radius) radius) = y obj).
Proof.
  intros Hr.
  unfold inGoalSpan, constrainBottom, constrainTop, fieldHeight.
  case_cmp_inner; lra.
Qed.

Lemma constrainToBounds_insideWalls (obj : Body) (radius : R) :
  0 <= radius <= 160 -> insideWalls radius (constrainToBounds obj radius).
Proof.
  intros Hr. unfold constrainToBounds.
  destruct (constrain_x_phase obj radius Hr) as (Hy & Hx & Hspan).
  destruct (constrain_y_phase (constrainRight (constrainLeft obj radius) radius) radius Hr)
    as (Hx' & Hy' & Hkeep).
  unfold insideWalls. rewrite Hx'. rewrite Hy in Hkeep. split; [exact Hy'|].
  destruct Hspan as [Hspan | Hin]; [right | left; exact Hin].
  rewrite (Hkeep Hspan). split; [exact Hspan | exact Hx].
Qed.

Lemma insideWalls_inExtendedField (radius : R) (b : Body) :
  0 <= radius -> insideWalls radius b -> inExtendedField b.
Proof. unfold insideWalls, inExtendedField, inGoalSpan. intros Hr H. lra. Qed.

Lemma speedSq_nonneg (b : Body) : 0 <= speedSq b.
Proof. unfold speedSq. nra. Qed.

Lemma speed_le_iff (b : Body) (c : R) :
  0 <= c -> (speed b <= c <-> speedSq b <= c * c).
Proof.
  intros Hc. unfold speed. fold (speedSq b). pose proof (speedSq_nonneg b) as Hq. split; intros H.
  - rewrite <- (sqrt_sqrt (speedSq b)) by exact Hq.
    pose proof (sqrt_pos (speedSq b)). nra.
  - rewrite <- (sqrt_square c) by exact Hc. now apply sqrt_le_1_alt.
Qed.

Lemma bounce_square (v : R) :
  Rabs v * bounceRestitution * (Rabs v * bounceRestitution) <= v * v /\
  - Rabs v * bounceRestitution * (- Rabs v * bounceRestitution) <= v * v.
Proof.
  unfold bounceRestitution. assert (H : Rabs v * Rabs v = v * v).
  { unfold Rabs. destruct (Rcase_abs v); ring. }
  nra.
Qed.

Lemma constrainToBounds_slows (obj : Body) (radius : R) :
  vx (constrainToBounds obj radius) * vx (constrainToBounds obj radius) <= vx obj * vx obj /\
  vy (constrainToBounds obj radius) * vy (constrainToBounds obj radius) <= vy obj * vy obj.
Proof.
  pose proof (bounce_square (vx obj)) as [Hx1 Hx2].
  pose proof (bounce_square (vy obj)) as [Hy1 Hy2].
  assert (Hx : forall o, vx o = vx obj ->
             vx (constrainRight (constrainLeft o radius) radius)
             * vx (constrainRight (constrainLeft o radius) radius) <= vx obj * vx obj).
  { intros o Ho. pose proof (bounce_square (Rabs (vx obj) * bounceRestitution)) as [H1 H2].
    unfold constrainRight, constrainLeft. case_cmp_inner; rewrite ?Ho; try lra.
    all: rewrite ?Rabs_mult, ?Rabs_Rabs in *; lra. }
  assert (Hy : forall o, vy o = vy obj ->
             vy (constrainBottom (constrainTop o radius) radius)
             * vy (constrainBottom (constrainTop o radius) radius) <= vy obj * vy obj).
  { intros o Ho. pose proof (bounce_square (Rabs (vy obj) * bounceRestitution)) as [H1 H2].
    unfold constrainBottom, constrainTop. case_cmp_inner; rewrite ?Ho; try lra.
    all: rewrite ?Rabs_mult, ?Rabs_Rabs in *; lra. }
  unfold constrainToBounds. split.
  - replace (vx (constrainBottom (constrainTop (constrainRight (constrainLeft obj radius) radius)
                                               radius) radius))
      with (vx (constrainRight (constrainLeft obj radius) radius)).
    + now apply Hx.
    + unfold constrainBottom, constrainTop. case_cmp_inner; reflexivity.
  - apply Hy. unfold constrainRight, constrainLeft. case_cmp_inner; reflexivity.
Qed.

Lemma limitSpeed_capped (b : Body) : speedSq (limitSpeed b) <= maxSpeed * maxSpeed.
Proof.
  unfold limitSpeed. fold (speedSq b). pose proof (speedSq_nonneg b) as Hq.
  destruct (Rltb maxSpeed (sqrt (speedSq b))) eqn:E.
  - apply Rltb_true_iff in E. unfold maxSpeed in *. unfold speedSq at 1. cbn [vx vy].
    assert (Hs : sqrt (speedSq b) <> 0) by lra.
    replace (vx b / sqrt (speedSq b) * 5 * (vx b / sqrt (speedSq b) * 5) +
             vy b / sqrt (speedSq b) * 5 * (vy b / sqrt (speedSq b) * 5))
      with (25 * (speedSq b / (sqrt (speedSq b) * sqrt (speedSq b))))
      by (unfold speedSq; field; exact Hs).
    rewrite sqrt_sqrt by exact Hq.
    replace (speedSq b / speedSq b) with 1; [lra|].
    field. intros H0. apply Hs. rewrite H0. apply sqrt_0.
  - apply Rltb_false_iff in E. apply speed_le_iff; [unfold maxSpeed; lra | exact E].
Qed.

Lemma updatePlayer_speedSq (b : Body) (i : Input) (dt : R) :
  speedSq (updatePlayer b i dt) <= friction * maxSpeed * (friction * maxSpeed).
Proof.
  unfold updatePlayer.
  set (b1 := limitSpeed (applyInput b i)).
  pose proof (limitSpeed_capped (applyInput b i)) as H1. fold b1 in H1.
  pose proof (constrainToBounds_slows (move (applyFriction b1) dt) playerRadius) as [Hx Hy].
  unfold speedSq in *. cbn [move applyFriction vx vy] in Hx, Hy.
  unfold friction, maxSpeed in *. nra.
Qed.

Lemma updatePlayer_speed (b : Body) (i : Input) (dt : R) :
  speed (updatePlayer b i dt) <= friction * maxSpeed /\
  speed (updatePlayer b i dt) <= maxSpeed.
Proof.
  assert (H : speed (updatePlayer b i dt) <= friction * maxSpeed).
  { apply speed_le_iff; [unfold friction, maxSpeed; lra | apply updatePlayer_speedSq]. }
  split; [exact H | unfold friction, maxSpeed in *; lra].
Qed.

(** *** The motion phase of a tick *)

(** What the player loop of [updateGame] does to the player at index [i]:
    nothing, or [updatePlayer] when the player is teamed. *)
Lemma updatePlayers_nth (clock : nat -> Z) (dt : R) (ps : list Player) :
  forall (k i : nat) (p : Player),
    nth_error ps i = Some p ->
    nth_error (updatePlayers clock k dt ps) i = Some p \/
    (team p <> None /\
     nth_error (updatePlayers clock k dt ps) i
     = Some (set_body p (updatePlayer (body p) (input p) dt))).
Proof.
  induction ps as [|q tl IH]; intros k i p Hi.
  - destruct i; discriminate.
  - destruct i as [|i]; cbn in Hi.
    + injection Hi as ->. cbn. destruct (team p) eqn:Ht; cbn.
      * destruct (isActive (clock k) p); [right | left]; [split; [discriminate|] |]; reflexivity.
      * now left.
    + cbn. destruct (team q); cbn; now apply IH.
Qed.


Lemma updatePlayers_length (clock : nat -> Z) (dt : R) (ps : list Player) :
  forall k, List.length (updatePlayers clock k dt ps) = List.length ps.
Proof.
  induction ps as [|q tl IH]; intros k; cbn; [reflexivity|].
  destruct (team q); cbn; now rewrite IH.
Qed.

(** A property that every [updatePlayer] establishes holds, after the
    motion phase, of each player the phase has moved, and is preserved by
    the phase if it held of every player before. *)
Section MotionPhaseInvariant.

Variable P : Body -> Prop.
Hypothesis P_updatePlayer : forall b i dt, P (updatePlayer b i dt).

Lemma motionPhase_nth_cases (clock : nat -> Z) (r : GameRoom) (i : nat) (p : Player) :
  nth_error (players r) i = Some p ->
  nth_error (players (motionPhase clock r)) i = Some p \/
  exists q, nth_error (players (motionPhase clock r)) i = Some q /\ P (body q).
Proof.
  intros Hi. cbn [motionPhase players set_players].
  destruct (updatePlayers_nth clock (tickDt clock r) (players r) 1 i p Hi) as [H | [_ H]].
  - now left.
  - right. eexists. split; [exact H|]. apply P_updatePlayer.
Qed.

Lemma motionPhase_preserves (clock : nat -> Z) (r : GameRoom) :
  Forall (fun p => P (body p)) (players r) ->
  Forall (fun p => P (body p)) (players (motionPhase clock r)).
Proof.
  intros Hall. apply Forall_forall. intros q Hq.
  apply In_nth_error in Hq. destruct Hq as [i Hi].
  assert (Hlen : (i < List.length (players r))%nat).
  { rewrite <- (updatePlayers_length clock (tickDt clock r) (players r) 1%nat).
    apply nth_error_Some. cbn [motionPhase players set_players] in Hi.
    rewrite Hi. discriminate. }
  destruct (nth_error (players r) i) as [p|] eqn:Hp;
    [|apply nth_error_None in Hp; lia].
  destruct (motionPhase_nth_cases clock r i p Hp) as [H | (q' & H & Hs)];
    rewrite Hi in H; injection H as ->.
  - rewrite Forall_forall in Hall. apply Hall. eapply nth_error_In; eauto.
  - exact Hs.
Qed.

End MotionPhaseInvariant.

(** C1, as the code has it.  The cap is enforced by the motion update only:
    a player that [updatePlayer] has just moved has a speed of at most
    [friction * maxSpeed = 4.9], hence at most [maxSpeed = 5]; so after the
    motion phase of a tick, before the collision pass, every player either is
    as it was before the tick or is within the cap, and the cap is an
    invariant of the motion phase. *)
Theorem motionPhase_speed_capped (clock : nat -> Z) (r : GameRoom) :
  (forall b i dt, speed (updatePlayer b i dt) <= friction * maxSpeed) /\
  (forall i p,
     nth_error (players r) i = Some p ->
     nth_error (players (motionPhase clock r)) i = Some p \/
     exists q, nth_error (players (motionPhase clock r)) i = Some q /\
               speed (body q) <= maxSpeed) /\
  (Forall (fun p => speed (body p) <= maxSpeed) (players r) ->
   Forall (fun p => speed (body p) <= maxSpeed) (players (motionPhase clock r))).
Proof.
  assert (Hu : forall b i dt, speed (updatePlayer b i dt) <= maxSpeed)
    by (intros; apply updatePlayer_speed).
  split; [intros; apply updatePlayer_speed|]. split.
  - intros i p Hi.
    exact (motionPhase_nth_cases (fun b => speed b <= maxSpeed) Hu clock r i p Hi).
  - exact (motionPhase_preserves (fun b => speed b <= maxSpeed) Hu clock r).
Qed.

(** ** Evaluating the engine on known numbers *)

Lemma sqrt_known (a c : R) : 0 <= c -> c * c = a -> sqrt a = c.
Proof. intros Hc <-. now apply sqrt_square. Qed.

Lemma limitSpeed_under (b : Body) :
  speedSq b <= maxSpeed * maxSpeed -> limitSpeed b = b.
Proof.
  intros H. unfold limitSpeed.
  apply (speed_le_iff b maxSpeed) in H; [|unfold maxSpeed; lra].
  unfold speed in H. now rewrite (proj2 (Rltb_false_iff _ _) H).
Qed.

Lemma limitSpeed_over (b : Body) (s : R) :
  0 <= s -> s * s = speedSq b -> maxSpeed < s ->
  limitSpeed b = mkBody (x b) (y b) (vx b / s * maxSpeed) (vy b / s * maxSpeed).
Proof.
  intros Hs Hq Hlt. unfold limitSpeed. fold (speedSq b).
  rewrite (sqrt_known (speedSq b) s Hs Hq).
  now rewrite (proj2 (Rltb_true_iff _ _) Hlt).
Qed.

Ltac constrain_cases :=
  unfold constrainToBounds, constrainLeft, constrainRight, constrainTop, constrainBottom,
    goalBottom, goalTop, fieldWidth, fieldHeight, goalHeight, goalDepth;
  cbn [x y vx vy set_x set_y set_vx set_vy];
  case_cmp_inner; first [reflexivity | exfalso; lra].

Lemma constrainToBounds_clear (obj : Body) (radius : R) :
  radius <= x obj <= 800 - radius -> radius <= y obj <= 400 - radius ->
  constrainToBounds obj radius = obj.
Proof.
  intros Hx Hy. destruct obj as [ox oy ovx ovy]. cbn [x y] in *. constrain_cases.
Qed.

Lemma constrainToBounds_mouth (obj : Body) (radius : R) :
  0 <= radius <= 160 -> inGoalSpan (y obj) ->
  radius - 20 <= x obj <= 820 - radius ->
  constrainToBounds obj radius = obj.
Proof.
  intros Hr Hy Hx. destruct obj as [ox oy ovx ovy]. cbn [x y] in *.
  unfold inGoalSpan in Hy. constrain_cases.
Qed.

Lemma constrainToBounds_floor (obj : Body) (radius : R) :
  0 <= radius <= 160 ->
  radius <= x obj <= 800 - radius -> 400 - radius < y obj ->
  constrainToBounds obj radius =
  mkBody (x obj) (400 - radius) (vx obj) (- Rabs (vy obj) * bounceRestitution).
Proof.
  intros Hr Hx Hy. destruct obj as [ox oy ovx ovy]. cbn [x y vx vy] in *. constrain_cases.
Qed.

Lemma distance_known (a b : Body) (d : R) :
  0 <= d ->
  d * d = (x a - x b) * (x a - x b) + (y a - y b) * (y a - y b) ->
  distance a b = d.
Proof. intros Hd Hq. unfold distance. now apply sqrt_known. Qed.

Lemma checkCollision_apart (a b : Body) (r1 r2 : R) :
  0 <= r1 + r2 ->
  (r1 + r2) * (r1 + r2) <= (x a - x b) * (x a - x b) + (y a - y b) * (y a - y b) ->
  checkCollision a b r1 r2 = false.
Proof.
  intros Hr H. unfold checkCollision, distance. apply Rltb_false_iff.
  rewrite <- (sqrt_square (r1 + r2)) by exact Hr. now apply sqrt_le_1_alt.
Qed.

Lemma checkCollision_touching (a b : Body) (r1 r2 d : R) :
  0 <= d ->
  d * d = (x a - x b) * (x a - x b) + (y a - y b) * (y a - y b) ->
  d < r1 + r2 ->
  checkCollision a b r1 r2 = true.
Proof.
  intros Hd Hq Hlt. unfold checkCollision.
  rewrite (distance_known a b d Hd Hq). now apply Rltb_true_iff.
Qed.

(** [resolveCollision] on two overlapping objects whose centres are [d > 0]
    apart and which are not moving apart along the normal. *)
Lemma resolveCollision_approaching (a b : Body) (r1 r2 m1 m2 d : R) :
  0 < d ->
  d * d = (x a - x b) * (x a - x b) + (y a - y b) * (y a - y b) ->
  d < r1 + r2 ->
  (vx b - vx a) * ((x b - x a) / d) + (vy b - vy a) * ((y b - y a) / d) <= 0 ->
  resolveCollision a b r1 r2 m1 m2 =
  let nx := (x b - x a) / d in
  let ny := (y b - y a) / d in
  let separation := (r1 + r2 - d) / 2 in
  let j := - (1 + bounceRestitution)
           * ((vx b - vx a) * nx + (vy b - vy a) * ny) / (1 / m1 + 1 / m2) in
  (mkBody (x a - nx * separation) (y a - ny * separation)
          (vx a - j * nx / m1) (vy a - j * ny / m1),
   mkBody (x b + nx * separation) (y b + ny * separation)
          (vx b + j * nx / m2) (vy b + j * ny / m2)).
Proof.
  intros Hd Hq Hlt Hvan. unfold resolveCollision.
  rewrite (distance_known a b d (Rlt_le _ _ Hd) Hq).
  rewrite (proj2 (Rleb_false_iff _ _) Hlt).
  assert (Hn : normalize (mkVec (x b - x a) (y b - y a))
               = mkVec ((x b - x a) / d) ((y b - y a) / d)).
  { unfold normalize. cbn [vec_x vec_y].
    rewrite (sqrt_known _ d (Rlt_le _ _ Hd)) by (rewrite Hq; ring).
    rewrite (proj2 (Reqb_false_iff d 0)) by lra. reflexivity. }
  rewrite Hn. unfold dotProduct. cbn [vec_x vec_y vx vy x y].
  rewrite (proj2 (Rltb_false_iff _ _) Hvan). reflexivity.
Qed.

(** Reducing field accesses and constants, then linear arithmetic. *)
Ltac simpl_body :=
  cbn [x y vx vy set_x set_y set_vx set_vy up down left right fst snd vec_x vec_y].

Ltac num :=
  unfold speedSq, inGoalSpan, acceleration, maxSpeed, friction, playerRadius, ballRadius,
    bounceRestitution;
  simpl_body; try lra.

(** Unfolding the room operations down to the calls of the engine. *)
Ltac unfold_room :=
  cbv [players gameState ball score gameTime lastUpdate team body input
       set_players set_gameState set_body code isPlaying redTeamCount blueTeamCount
       id nickname playerScore lastSeen
       updatePlayers collisionPhase checkCollisions collideBall collideWithBall
       collidePlayers collidePlayersFuel collideWithRest collidePair List.length
       goalPhase handleGoal addGameTime].

(** Equality of two rooms that differ in the way their numbers are written. *)
Ltac room_eq :=
  repeat match goal with
         | |- @eq R _ _ => solve [field; lra | lra]
         | |- _ => progress f_equal
         end.

Lemma speed_above (b : Body) (c : R) : 0 <= c -> c * c < speedSq b -> c < speed b.
Proof.
  intros Hc H. apply Rnot_le_lt. intros Hle.
  apply (speed_le_iff b c Hc) in Hle. lra.
Qed.

(** The ball at rest on the centre spot stays there. *)
Lemma updateBall_centre_rest :
  updateBall (mkBody 400 200 0 0) (IZR 17 / 16.67) = mkBody 400 200 0 0.
Proof.
  unfold updateBall, applyFriction, move. num.
  rewrite constrainToBounds_clear by num. num.
  f_equal; lra.
Qed.

(** ** A push along the bottom wall *)

Lemma wallRoom_motion :
  updatePlayer (mkBody 200 383 0 4.9) (mkInput false true false false) (IZR 17 / 16.67)
    = mkBody 200 385 0 (-3.92) /\
  updatePlayer (mkBody 232 385 (-4.9) 0) (mkInput false false true false) (IZR 17 / 16.67)
    = mkBody (232 - 4.9 * (17 / 16.67)) 385 (-4.9) 0.
Proof.
  split.
  - unfold updatePlayer, applyInput. num.
    rewrite (limitSpeed_over _ 5.4) by num.
    unfold applyFriction, move. num.
    rewrite constrainToBounds_floor by num. num.
    rewrite Rabs_pos_eq by lra. f_equal; lra.
  - unfold updatePlayer, applyInput. num.
    rewrite (limitSpeed_over _ 5.4) by num.
    unfold applyFriction, move. num.
    rewrite constrainToBounds_clear by num. num.
    f_equal; lra.
Qed.

Lemma wallRoom_after_motion : motionPhase wallClock wallRoom = wallRoom_moved.
Proof.
  destruct wallRoom_motion as (Ha & Hb).
  unfold motionPhase.
  change (tickDt wallClock wallRoom) with (IZR 17 / 16.67).
  unfold wallRoom, wallClock. unfold_room.
  rewrite Ha, Hb, updateBall_centre_rest. reflexivity.
Qed.

Lemma wallRoom_after_collisions : collisionPhase wallRoom_moved = wallRoom_collided.
Proof.
  unfold wallRoom_moved. unfold_room.
  rewrite (checkCollision_apart (mkBody 200 385 0 (-3.92))) by num.
  rewrite (checkCollision_apart (mkBody (232 - 4.9 * (17 / 16.67)) 385 (-4.9) 0)) by num.
  rewrite (checkCollision_touching _ _ 15 15 (32 - 4.9 * (17 / 16.67))) by num.
  rewrite (resolveCollision_approaching _ _ 15 15 1 1 (32 - 4.9 * (17 / 16.67))) by num.
  num. unfold wallRoom_collided. room_eq.
Qed.

Lemma wallRoom_within_cap : Forall (fun p => speed (body p) <= maxSpeed) (players wallRoom).
Proof.
  unfold wallRoom. cbn [players].
  repeat (apply Forall_cons; [cbn [body]; apply speed_le_iff; [unfold maxSpeed; lra | num]|]).
  apply Forall_nil.
Defined.

Lemma motionPhase_speed_capped_witness :
  Forall (fun p => speed (body p) <= maxSpeed) (players (motionPhase wallClock wallRoom)).
Proof.
  apply (proj2 (proj2 (motionPhase_speed_capped wallClock wallRoom))).
  exact wallRoom_within_cap.
Defined.

(** C1 as worded fails: both players are within the cap before the tick, and
    the collision pass leaves player [a] at about 5.9.  The motion update
    takes [a] to [vy = 4.9 + 0.5 = 5.4], capped to 5, slowed to 4.9, and
    bounces it off the bottom wall: [y = 385], [vy = -3.92]; it takes [b] to
    [vx = -4.9] at [x = 232 - 4.9 * 17 / 16.67], about 227.  The two are then
    about 27 apart on one horizontal, so the normal is [(1, 0)], the relative
    velocity along it is [-4.9] and the impulse is [1.8 * 4.9 / 2 = 4.41]:
    [a] ends the tick with velocity [(-4.41, -3.92)]. *)
Lemma collision_pass_exceeds_speed_cap :
  Forall (fun p => speed (body p) <= maxSpeed) (players wallRoom) /\
  exists p, nth_error (players (updateGame wallClock wallRoom)) 0 = Some p /\
            team p = Some Red /\ isActive 1017 p = true /\
            maxSpeed < speed (body p).
Proof.
  split.
  - exact wallRoom_within_cap.
  - unfold updateGame. rewrite wallRoom_after_motion, wallRoom_after_collisions.
    assert (Hg : goalPhase wallRoom_collided = wallRoom_collided).
    { unfold goalPhase, wallRoom_collided, checkGoal. cbn [gameState ball x y].
      unfold fieldWidth.
      now rewrite (proj2 (Rltb_false_iff 400 0)), (proj2 (Rltb_false_iff 800 400)) by lra. }
    rewrite Hg. unfold wallRoom_collided, addGameTime. cbn [players set_gameState nth_error].
    eexists. split; [reflexivity|]. cbn [team body].
    split; [reflexivity|]. split; [reflexivity|].
    apply speed_above; num.
Qed.

(** ** A push inside the goal mouth *)

Lemma mouthRoom_motion :
  updatePlayer (mkBody (-5) 161 0 0) (mkInput false false false false) (IZR 17 / 16.67)
    = mkBody (-5) 161 0 0 /\
  updatePlayer (mkBody (-5) 191 0 (-4.9)) (mkInput true false false false) (IZR 17 / 16.67)
    = mkBody (-5) (191 - 4.9 * (17 / 16.67)) 0 (-4.9).
Proof.
  split.
  - unfold updatePlayer, applyInput. num.
    rewrite limitSpeed_under by num.
    unfold applyFriction, move. num.
    rewrite constrainToBounds_mouth by num. f_equal; lra.
  - unfold updatePlayer, applyInput. num.
    rewrite (limitSpeed_over _ 5.4) by num.
    unfold applyFriction, move. num.
    rewrite constrainToBounds_mouth by num. f_equal; lra.
Qed.

Lemma mouthRoom_after_motion : motionPhase wallClock mouthRoom = mouthRoom_moved.
Proof.
  destruct mouthRoom_motion as (Ha & Hb).
  unfold motionPhase.
  change (tickDt wallClock mouthRoom) with (IZR 17 / 16.67).
  unfold mouthRoom, wallClock. unfold_room.
  rewrite Ha, Hb, updateBall_centre_rest. reflexivity.
Qed.

Lemma mouthRoom_after_collisions : collisionPhase mouthRoom_moved = mouthRoom_collided.
Proof.
  unfold mouthRoom_moved. unfold_room.
  rewrite (checkCollision_apart (mkBody (-5) 161 0 0)) by num.
  rewrite (checkCollision_apart (mkBody (-5) (191 - 4.9 * (17 / 16.67)) 0 (-4.9))) by num.
  rewrite (checkCollision_touching _ _ 15 15 (30 - 4.9 * (17 / 16.67))) by num.
  rewrite (resolveCollision_approaching _ _ 15 15 1 1 (30 - 4.9 * (17 / 16.67))) by num.
  num. unfold mouthRoom_collided. room_eq.
Qed.

Lemma mouthRoom_inside : Forall (fun p => inExtendedField (body p)) (players mouthRoom).
Proof.
  unfold mouthRoom. cbn [players].
  repeat (apply Forall_cons; [cbn [body]; unfold inExtendedField; num|]).
  apply Forall_nil.
Defined.

(** C3 as worded fails: every entity is inside the extended field before the
    tick, and the collision pass leaves player [a] at [x = -5] with
    [y < 160], behind the wall above the goal mouth.  The motion update
    leaves [a] at [(-5, 161)] and takes [b] to [y = 191 - 4.9 * 17 / 16.67],
    about 186; the two are then about 25 apart on one vertical, so each is
    moved by half the overlap, about 2.5, and [a] ends the tick at
    [y = 161 - 4.9 * 17 / 16.67 / 2], about 158.5. *)
Lemma collision_pass_leaves_extended_field :
  Forall (fun p => inExtendedField (body p)) (players mouthRoom) /\
  inExtendedField (ball (gameState mouthRoom)) /\
  exists p, nth_error (players (updateGame wallClock mouthRoom)) 0 = Some p /\
            x (body p) = -5 /\ y (body p) < 160 /\
            ~ inExtendedField (body p).
Proof.
  split; [|split].
  - exact mouthRoom_inside.
  - unfold mouthRoom, inExtendedField. cbn [gameState ball]. num.
  - unfold updateGame. rewrite mouthRoom_after_motion, mouthRoom_after_collisions.
    assert (Hg : goalPhase mouthRoom_collided = mouthRoom_collided).
    { unfold goalPhase, mouthRoom_collided, checkGoal. cbn [gameState ball x y].
      unfold fieldWidth.
      now rewrite (proj2 (Rltb_false_iff 400 0)), (proj2 (Rltb_false_iff 800 400)) by lra. }
    rewrite Hg. unfold mouthRoom_collided, addGameTime. cbn [players set_gameState nth_error].
    eexists. split; [reflexivity|]. cbn [body]. unfold inExtendedField. num.
Qed.

(** C3, as the code has it.  The bounds are enforced by the motion update
    only: [constrainToBounds] leaves the centre inside the field rectangle
    extended by [goalDepth] within the goal span (indeed a radius away from
    the walls), so after the motion phase of a tick, before the collision
    pass, the ball is inside the extended field, every player either is as
    it was before the tick or is inside it, and being inside is an invariant
    of the motion phase. *)
Theorem motionPhase_inside_extended_field (clock : nat -> Z) (r : GameRoom) :
  (forall obj radius, 0 <= radius <= 160 -> inExtendedField (constrainToBounds obj radius)) /\
  inExtendedField (ball (gameState (motionPhase clock r))) /\
  (forall i p,
     nth_error (players r) i = Some p ->
     nth_error (players (motionPhase clock r)) i = Some p \/
     exists q, nth_error (players (motionPhase clock r)) i = Some q /\
               inExtendedField (body q)) /\
  (Forall (fun p => inExtendedField (body p)) (players r) ->
   Forall (fun p => inExtendedField (body p)) (players (motionPhase clock r))).
Proof.
  assert (Hc : forall obj radius,
             0 <= radius <= 160 -> inExtendedField (constrainToBounds obj radius)).
  { intros obj radius Hr. apply (insideWalls_inExtendedField radius); [lra|].
    now apply constrainToBounds_insideWalls. }
  assert (Hu : forall b i dt, inExtendedField (updatePlayer b i dt)).
  { intros. apply Hc. unfold playerRadius. lra. }
  split; [exact Hc|]. split.
  - cbn [motionPhase gameState set_players set_gameState ball].
    apply Hc. unfold ballRadius. lra.
  - split.
    + intros i p Hi. exact (motionPhase_nth_cases inExtendedField Hu clock r i p Hi).
    + exact (motionPhase_preserves inExtendedField Hu clock r).
Qed.

Lemma motionPhase_inside_extended_field_witness :
  Forall (fun p => inExtendedField (body p)) (players (motionPhase wallClock mouthRoom)).
Proof.
  apply (proj2 (proj2 (proj2 (motionPhase_inside_extended_field wallClock mouthRoom)))).
  exact mouthRoom_inside.
Defined.

(** ** What the tick leaves alone *)

Lemma keptBy_refl (p : Player) : keptBy p p.
Proof. split; [now destruct p | reflexivity]. Qed.

Lemma keptBy_set_body (p : Player) (b : Body) : team p <> None -> keptBy p (set_body p b).
Proof. intros Ht. split; [reflexivity | contradiction]. Qed.

Lemma keptBy_trans (p q s : Player) : keptBy p q -> keptBy q s -> keptBy p s.
Proof.
  intros [Hq Hpn] [Hs Hqn]. split.
  - rewrite Hs. rewrite Hq at 1. reflexivity.
  - intros Hn. specialize (Hpn Hn). subst q. now apply Hqn.
Qed.

Lemma Forall2_keptBy_refl (ps : list Player) : Forall2 keptBy ps ps.
Proof. induction ps; constructor; auto using keptBy_refl. Qed.

Lemma Forall2_keptBy_trans (ps qs ss : list Player) :
  Forall2 keptBy ps qs -> Forall2 keptBy qs ss -> Forall2 keptBy ps ss.
Proof.
  intros H. revert ss. induction H as [|p q ps qs Hpq _ IH]; intros ss Hs.
  - inversion Hs. constructor.
  - inversion Hs as [|q' s qs' ss' Hqs Hrest]; subst. constructor.
    + eapply keptBy_trans; eauto.
    + now apply IH.
Qed.

Lemma updatePlayers_kept (clock : nat -> Z) (dt : R) (ps : list Player) :
  forall k, Forall2 keptBy ps (updatePlayers clock k dt ps).
Proof.
  induction ps as [|p tl IH]; intros k; cbn; [constructor|].
  destruct (team p) eqn:Ht.
  - constructor; [|apply IH].
    destruct (isActive (clock k) p); [|apply keptBy_refl].
    apply keptBy_set_body. congruence.
  - constructor; [apply keptBy_refl | apply IH].
Qed.

Lemma collideWithBall_kept (p : Player) (b : Body) : keptBy p (fst (collideWithBall p b)).
Proof.
  unfold collideWithBall. destruct (team p) eqn:Ht; [|apply keptBy_refl].
  destruct (checkCollision _ _ _ _); [|apply keptBy_refl].
  destruct (resolveCollision _ _ _ _ _ _). apply keptBy_set_body. congruence.
Qed.

Lemma collideBall_kept (ps : list Player) :
  forall b, Forall2 keptBy ps (fst (collideBall ps b)).
Proof.
  induction ps as [|p tl IH]; intros b; cbn; [constructor|].
  pose proof (collideWithBall_kept p b) as Hp.
  destruct (collideWithBall p b) as [p1 b1]. specialize (IH b1).
  destruct (collideBall tl b1) as [tl1 b2]. now constructor.
Qed.

Lemma collidePair_kept (p1 p2 : Player) :
  team p1 <> None -> team p2 <> None ->
  keptBy p1 (fst (collidePair p1 p2)) /\ keptBy p2 (snd (collidePair p1 p2)).
Proof.
  intros H1 H2. unfold collidePair.
  destruct (checkCollision _ _ _ _); [|split; apply keptBy_refl].
  destruct (resolveCollision _ _ _ _ _ _). split; now apply keptBy_set_body.
Qed.

Lemma keptBy_team (p q : Player) : keptBy p q -> team q = team p.
Proof. intros [H _]. now rewrite H. Qed.

Lemma collideWithRest_kept (rest : list Player) :
  forall p1, team p1 <> None ->
             keptBy p1 (fst (collideWithRest p1 rest)) /\
             Forall2 keptBy rest (snd (collideWithRest p1 rest)).
Proof.
  induction rest as [|p2 tl IH]; intros p1 H1; cbn.
  - split; [apply keptBy_refl | constructor].
  - destruct (team p2) eqn:Ht2.
    + destruct (collidePair_kept p1 p2 H1) as [Ha Hb]; [congruence|].
      destruct (collidePair p1 p2) as [p1a p2a]. cbn [fst snd] in Ha, Hb.
      assert (H1a : team p1a <> None) by (rewrite (keptBy_team _ _ Ha); exact H1).
      destruct (IH p1a H1a) as [Hc Hd].
      destruct (collideWithRest p1a tl) as [p1b tl1]. cbn [fst snd] in *. split.
      * eapply keptBy_trans; eauto.
      * now constructor.
    + destruct (IH p1 H1) as [Hc Hd].
      destruct (collideWithRest p1 tl) as [p1b tl1]. cbn [fst snd] in *. split; [exact Hc|].
      constructor; [apply keptBy_refl | exact Hd].
Qed.

Lemma collidePlayersFuel_kept (fuel : nat) :
  forall ps, Forall2 keptBy ps (collidePlayersFuel fuel ps).
Proof.
  induction fuel as [|fuel IH]; intros ps; cbn.
  - destruct ps; apply Forall2_keptBy_refl.
  - destruct ps as [|p1 rest]; [constructor|].
    destruct (team p1) eqn:Ht.
    + destruct (collideWithRest_kept rest p1) as [Ha Hb]; [congruence|].
      destruct (collideWithRest p1 rest) as [p1a rest1]. cbn [fst snd] in *.
      constructor; [exact Ha|].
      eapply Forall2_keptBy_trans; [exact Hb | apply IH].
    + constructor; [apply keptBy_refl | apply IH].
Qed.

Lemma checkCollisions_kept (ps : list Player) (b : Body) :
  Forall2 keptBy ps (fst (checkCollisions ps b)).
Proof.
  unfold checkCollisions. pose proof (collideBall_kept ps b) as H.
  destruct (collideBall ps b) as [ps1 b1]. cbn [fst] in *.
  eapply Forall2_keptBy_trans; [exact H | apply collidePlayersFuel_kept].
Qed.

Lemma Forall2_nth_error (A B : Type) (R : A -> B -> Prop) (l : list A) (l' : list B) :
  Forall2 R l l' ->
  forall i a, nth_error l i = Some a -> exists b, nth_error l' i = Some b /\ R a b.
Proof.
  induction 1 as [|a0 b0 l l' Hab _ IH]; intros i a Hi.
  - destruct i; discriminate.
  - destruct i as [|i]; cbn in *.
    + injection Hi as <-. now exists b0.
    + now apply IH.
Qed.

(** ** Goals *)

Lemma motionPhase_frame (clock : nat -> Z) (r : GameRoom) :
  score (gameState (motionPhase clock r)) = score (gameState r) /\
  Forall2 keptBy (players r) (players (motionPhase clock r)).
Proof. split; [reflexivity | apply updatePlayers_kept]. Qed.

Lemma collisionPhase_frame (r : GameRoom) :
  score (gameState (collisionPhase r)) = score (gameState r) /\
  Forall2 keptBy (players r) (players (collisionPhase r)).
Proof.
  unfold collisionPhase.
  pose proof (checkCollisions_kept (players r) (ball (gameState r))) as H.
  destruct (checkCollisions (players r) (ball (gameState r))) as [ps1 b1].
  split; [reflexivity | exact H].
Qed.

Lemma handleGoal_effect (r : GameRoom) (t : Team) :
  score (gameState (handleGoal r t)) = incrementScore (score (gameState r)) t /\
  ball (gameState (handleGoal r t)) = mkBody 400 200 0 0 /\
  forall i p, nth_error (players r) i = Some p ->
    exists q, nth_error (players (handleGoal r t)) i = Some q /\
              q = set_body p (body q) /\
              body q = match team p with
                       | Some t' => kickoffSpot t'
                       | None => body p
                       end.
Proof.
  split; [reflexivity|]. split; [reflexivity|].
  intros i p Hi. cbn [handleGoal players set_players].
  rewrite nth_error_map, Hi. cbn [option_map]. eexists. split; [reflexivity|].
  destruct p as [pid nick b [[|]|] sc inp seen]; split; reflexivity.
Qed.

(** C8.  When the goal check of a tick detects a goal for team [t]: that
    team's score goes up by one and the other team's score stays; the ball
    is at (400, 200) at rest; every teamed player is on its team's kickoff
    position at rest; a spectator's position and velocity are those it had
    before the tick; and no player changes in anything but its kinematics,
    its own score included. *)
Theorem goal_resets_room (clock : nat -> Z) (r : GameRoom) (t : Team) :
  checkGoal (ball (gameState (collisionPhase (motionPhase clock r)))) = Some t ->
  score (gameState (updateGame clock r)) = incrementScore (score (gameState r)) t /\
  red (score (gameState (updateGame clock r)))
    = (red (score (gameState r)) + match t with Red => 1 | Blue => 0 end)%Z /\
  blue (score (gameState (updateGame clock r)))
    = (blue (score (gameState r)) + match t with Red => 0 | Blue => 1 end)%Z /\
  ball (gameState (updateGame clock r)) = mkBody 400 200 0 0 /\
  forall i p, nth_error (players r) i = Some p ->
    exists q, nth_error (players (updateGame clock r)) i = Some q /\
              id q = id p /\ team q = team p /\ playerScore q = playerScore p /\
              body q = match team p with
                       | Some t' => kickoffSpot t'
                       | None => body p
                       end.
Proof.
  intros Hgoal. unfold updateGame, goalPhase. rewrite Hgoal.
  set (r2 := collisionPhase (motionPhase clock r)).
  destruct (handleGoal_effect r2 t) as (Hs & Hb & Hp).
  assert (Hscore : score (gameState r2) = score (gameState r)).
  { unfold r2. rewrite (proj1 (collisionPhase_frame _)). apply motionPhase_frame. }
  assert (Hkept : Forall2 keptBy (players r) (players r2)).
  { eapply Forall2_keptBy_trans; [apply motionPhase_frame | apply collisionPhase_frame]. }
  cbn [addGameTime gameState set_gameState score ball players].
  rewrite Hs, Hb, Hscore.
  split; [reflexivity|].
  split; [destruct t; cbn; lia|]. split; [destruct t; cbn; lia|]. split; [reflexivity|].
  intros i p Hi.
  destruct (Forall2_nth_error _ _ _ _ _ Hkept i p Hi) as (q2 & Hq2 & Hk & Hnone).
  destruct (Hp i q2 Hq2) as (q & Hq & Hsame & Hbody).
  exists q. split; [exact Hq|].
  assert (Hteam : team q2 = team p) by (rewrite Hk; reflexivity).
  rewrite Hsame, Hk. cbn [id team playerScore body set_body]. repeat split.
  rewrite Hbody, Hteam. destruct (team p) eqn:Ht; [reflexivity|].
  now rewrite (Hnone eq_refl).
Qed.

Lemma shotRoom_motion :
  updatePlayer (mkBody 100 200 0 0) (mkInput false false false false) (IZR 17 / 16.67)
    = mkBody 100 200 0 0 /\
  updatePlayer (mkBody 650 120 0 0) (mkInput false false false false) (IZR 17 / 16.67)
    = mkBody 650 120 0 0 /\
  updateBall (mkBody 3 200 (-6) 0) (IZR 17 / 16.67)
    = mkBody (3 - 5.88 * (17 / 16.67)) 200 (-5.88) 0.
Proof.
  split; [|split].
  - unfold updatePlayer, applyInput. num.
    rewrite limitSpeed_under by num.
    unfold applyFriction, move. num.
    rewrite constrainToBounds_clear by num. f_equal; lra.
  - unfold updatePlayer, applyInput. num.
    rewrite limitSpeed_under by num.
    unfold applyFriction, move. num.
    rewrite constrainToBounds_clear by num. f_equal; lra.
  - unfold updateBall, applyFriction, move. num.
    rewrite constrainToBounds_mouth by num. f_equal; lra.
Qed.

Lemma shotRoom_after_motion : motionPhase wallClock shotRoom = shotRoom_moved.
Proof.
  destruct shotRoom_motion as (Ha & Hb & Hball).
  unfold motionPhase.
  change (tickDt wallClock shotRoom) with (IZR 17 / 16.67).
  unfold shotRoom, wallClock. unfold_room.
  rewrite Ha, Hb, Hball. reflexivity.
Qed.

Lemma shotRoom_after_collisions : collisionPhase shotRoom_moved = shotRoom_moved.
Proof.
  unfold shotRoom_moved. unfold_room.
  rewrite (checkCollision_apart (mkBody 100 200 0 0)
             (mkBody (3 - 5.88 * (17 / 16.67)) 200 (-5.88) 0)) by num.
  rewrite (checkCollision_apart (mkBody 650 120 0 0)
             (mkBody (3 - 5.88 * (17 / 16.67)) 200 (-5.88) 0)) by num.
  rewrite (checkCollision_apart (mkBody 100 200 0 0) (mkBody 650 120 0 0)) by num.
  reflexivity.
Qed.

Lemma shotRoom_goal :
  checkGoal (ball (gameState (collisionPhase (motionPhase wallClock shotRoom)))) = Some Blue.
Proof.
  rewrite shotRoom_after_motion, shotRoom_after_collisions.
  unfold shotRoom_moved, checkGoal, goalBottom, goalTop, fieldHeight, goalHeight.
  cbn [gameState ball x y].
  rewrite (proj2 (Rltb_true_iff _ 0)) by lra.
  rewrite (proj2 (Rleb_true_iff _ 200)) by lra.
  now rewrite (proj2 (Rleb_true_iff 200 _)) by lra.
Defined.

Lemma goal_resets_room_witness :
  score (gameState (updateGame wallClock shotRoom)) = mkScore 2 2 /\
  ball (gameState (updateGame wallClock shotRoom)) = mkBody 400 200 0 0 /\
  exists q, nth_error (players (updateGame wallClock shotRoom)) 1 = Some q /\
            team q = None /\ body q = mkBody 400 50 0 0.
Proof.
  destruct (goal_resets_room wallClock shotRoom Blue shotRoom_goal)
    as (Hs & _ & _ & Hb & Hp).
  split; [exact Hs|]. split; [exact Hb|].
  destruct (Hp 1%nat _ eq_refl) as (q & Hq & _ & Ht & _ & Hbody).
  exists q. repeat split; assumption.
Defined.

(** ** Who takes part in the collision pass *)




(** *** Players without a team *)








(** *** Teamed players that are inactive *)











Lemma resolveCollision_conserves_witness :
  momentum_x 1 0.5 (resolveCollision (mkBody 400 50 3 0) (mkBody 410 50 (-2) 1) 15 10 1 0.5)
  = momentum_x 1 0.5 (mkBody 400 50 3 0, mkBody 410 50 (-2) 1) /\
  kineticEnergy 1 0.5 (resolveCollision (mkBody 400 50 3 0) (mkBody 410 50 (-2) 1) 15 10 1 0.5)
  <= kineticEnergy 1 0.5 (mkBody 400 50 3 0, mkBody 410 50 (-2) 1).
Proof.
  assert (H1 : 0 < 1) by lra.
  assert (H2 : 0 < 0.5) by lra.
  destruct (resolveCollision_conserves (mkBody 400 50 3 0) (mkBody 410 50 (-2) 1)
              15 10 1 0.5 H1 H2) as [(Hx & _ & Hk) _].
  split; [exact Hx | exact Hk].
Defined.

(** * Further properties of the engine *)

(** ** The bounds constraint *)

(** X1.  [constrainToBounds] is idempotent: a second call, with the same
    radius (between 0 and 160), changes nothing. *)
Theorem constrainToBounds_idempotent (obj : Body) (radius : R) :
  0 <= radius <= 160 ->
  constrainToBounds (constrainToBounds obj radius) radius = constrainToBounds obj radius.
Proof.
  intros Hr.
  destruct (constrainToBounds_insideWalls obj radius Hr) as [Hy [Hx | [Hspan Hx]]].
  - now apply constrainToBounds_clear.
  - now apply constrainToBounds_mouth.
Qed.

Lemma constrainToBounds_idempotent_witness :
  constrainToBounds (constrainToBounds (mkBody 900 (-30) 7 (-2)) 15) 15
  = constrainToBounds (mkBody 900 (-30) 7 (-2)) 15.
Proof. apply constrainToBounds_idempotent. lra. Defined.

(** ** Collision detection and response *)

Lemma distance_sym (a b : Body) : distance a b = distance b a.
Proof. unfold distance. f_equal. ring. Qed.

Lemma distance_nonneg (a b : Body) : 0 <= distance a b.
Proof. unfold distance. apply sqrt_pos. Qed.

Lemma distance_sq (a b : Body) :
  distance a b * distance a b
  = (x a - x b) * (x a - x b) + (y a - y b) * (y a - y b).
Proof.
  unfold distance. cbv zeta. apply sqrt_sqrt.
  apply Rplus_le_le_0_compat; apply Rle_0_sqr.
Qed.

(** X2.  [checkCollision] does not depend on the order of the two objects,
    and where it answers no, [resolveCollision] changes neither object. *)
Theorem checkCollision_symmetric_and_guards_resolve (a b : Body) (r1 r2 m1 m2 : R) :
  checkCollision a b r1 r2 = checkCollision b a r2 r1 /\
  (checkCollision a b r1 r2 = false -> resolveCollision a b r1 r2 m1 m2 = (a, b)).
Proof.
  split.
  - unfold checkCollision. now rewrite distance_sym, (Rplus_comm r1 r2).
  - unfold checkCollision, resolveCollision. intros H.
    apply Rltb_false_iff in H. now rewrite (proj2 (Rleb_true_iff _ _) H).
Qed.

Lemma checkCollision_symmetric_and_guards_resolve_witness :
  resolveCollision (mkBody 100 200 1 0) (mkBody 700 200 0 0) 15 15 1 1
  = (mkBody 100 200 1 0, mkBody 700 200 0 0).
Proof.
  apply checkCollision_symmetric_and_guards_resolve.
  apply checkCollision_apart; cbn [x y]; lra.
Defined.




(** X4.  Two objects with the same centre collide, yet [resolveCollision]
    changes neither: the normal is the zero vector, so nothing separates
    them and no impulse is applied. *)
Theorem resolveCollision_same_centre (a b : Body) (r1 r2 m1 m2 : R) :
  x a = x b -> y a = y b -> 0 < r1 + r2 ->
  checkCollision a b r1 r2 = true /\
  resolveCollision a b r1 r2 m1 m2 = (a, b).
Proof.
  intros Hx Hy Hr.
  assert (Hd : distance a b = 0).
  { apply distance_known; [lra|]. rewrite Hx, Hy. ring. }
  split.
  - unfold checkCollision. rewrite Hd. now apply Rltb_true_iff.
  - unfold resolveCollision. rewrite Hd.
    rewrite (proj2 (Rleb_false_iff _ _) Hr).
    assert (Hn : normalize (mkVec (x b - x a) (y b - y a)) = mkVec 0 0).
    { unfold normalize. cbn [vec_x vec_y].
      rewrite (sqrt_known _ 0) by (rewrite ?Hx, ?Hy; lra).
      now rewrite (proj2 (Reqb_true_iff 0 0) eq_refl). }
    rewrite Hn. unfold dotProduct. cbn [vec_x vec_y vx vy x y].
    rewrite (proj2 (Rltb_false_iff 0 _)) by lra.
    destruct a as [ax ay avx avy], b as [bx' by' bvx bvy]. cbn [x y vx vy].
    unfold Rdiv. f_equal; f_equal; ring.
Qed.

Lemma resolveCollision_same_centre_witness :
  resolveCollision (mkBody 100 200 0 0) (mkBody 100 200 0 0) 15 15 1 1
  = (mkBody 100 200 0 0, mkBody 100 200 0 0).
Proof. apply resolveCollision_same_centre; cbn [x y]; lra. Defined.

(** X5.  The velocity step of [resolveCollision] on overlapping objects of
    positive mass: if they approach along the normal, their relative
    velocity along the normal is reversed and scaled by [bounceRestitution];
    if they move apart along it, no velocity changes; in both cases the
    velocity of each across the normal is kept. *)
Theorem resolveCollision_restitution (a b : Body) (r1 r2 m1 m2 : R) :
  checkCollision a b r1 r2 = true -> 0 < m1 -> 0 < m2 ->
  let n := normalize (mkVec (x b - x a) (y b - y a)) in
  let a' := fst (resolveCollision a b r1 r2 m1 m2) in
  let b' := snd (resolveCollision a b r1 r2 m1 m2) in
  let van := dotProduct (mkVec (vx b - vx a) (vy b - vy a)) n in
  (van <= 0 ->
   dotProduct (mkVec (vx b' - vx a') (vy b' - vy a')) n = - bounceRestitution * van) /\
  (0 < van -> vx a' = vx a /\ vy a' = vy a /\ vx b' = vx b /\ vy b' = vy b) /\
  vy a' * vec_x n - vx a' * vec_y n = vy a * vec_x n - vx a * vec_y n /\
  vy b' * vec_x n - vx b' * vec_y n = vy b * vec_x n - vx b * vec_y n.
Proof.
  intros Hc Hm1 Hm2. cbv zeta.
  unfold checkCollision in Hc. apply Rltb_true_iff in Hc.
  unfold resolveCollision. rewrite (proj2 (Rleb_false_iff _ _) Hc).
  pose proof (normalize_unit_or_zero (mkVec (x b - x a) (y b - y a))) as Hn.
  set (n := normalize (mkVec (x b - x a) (y b - y a))) in *.
  unfold dotProduct. cbn [vec_x vec_y vx vy].
  set (van := (vx b - vx a) * vec_x n + (vy b - vy a) * vec_y n).
  assert (Hs : 1 / m1 + 1 / m2 <> 0).
  { assert (0 < 1 / m1) by (apply Rdiv_lt_0_compat; lra).
    assert (0 < 1 / m2) by (apply Rdiv_lt_0_compat; lra). lra. }
  destruct (Rltb 0 van) eqn:E; cbn [fst snd vx vy vec_x vec_y].
  - apply Rltb_true_iff in E. repeat split; try reflexivity. intros; lra.
  - apply Rltb_false_iff in E. split; [|split; [intros; lra|]].
    + intros _.
      replace ((vx b + - (1 + bounceRestitution) * van / (1 / m1 + 1 / m2) * vec_x n / m2
                - (vx a - - (1 + bounceRestitution) * van / (1 / m1 + 1 / m2) * vec_x n / m1))
               * vec_x n
               + (vy b + - (1 + bounceRestitution) * van / (1 / m1 + 1 / m2) * vec_y n / m2
                  - (vy a - - (1 + bounceRestitution) * van / (1 / m1 + 1 / m2) * vec_y n / m1))
                 * vec_y n)
        with (van - (1 + bounceRestitution) * van
                    * (vec_x n * vec_x n + vec_y n * vec_y n))
        by (unfold van; field; lra).
      destruct Hn as [Hn | [Hx Hy]].
      * rewrite Hn. ring.
      * unfold van. rewrite Hx, Hy. ring.
    + split; field; lra.
Qed.

Lemma resolveCollision_restitution_witness :
  dotProduct
    (mkVec (vx (snd (resolveCollision (mkBody 400 50 0 3) (mkBody 400 60 0 (-2)) 15 10 1 0.5))
            - vx (fst (resolveCollision (mkBody 400 50 0 3) (mkBody 400 60 0 (-2)) 15 10 1 0.5)))
           (vy (snd (resolveCollision (mkBody 400 50 0 3) (mkBody 400 60 0 (-2)) 15 10 1 0.5))
            - vy (fst (resolveCollision (mkBody 400 50 0 3) (mkBody 400 60 0 (-2)) 15 10 1 0.5))))
    (normalize (mkVec (400 - 400) (60 - 50)))
  = - bounceRestitution
    * dotProduct (mkVec (0 - 0) (-2 - 3)) (normalize (mkVec (400 - 400) (60 - 50))).
Proof.
  assert (Hc : checkCollision (mkBody 400 50 0 3) (mkBody 400 60 0 (-2)) 15 10 = true)
    by (apply (checkCollision_touching _ _ 15 10 10); cbn [x y]; lra).
  assert (H1 : 0 < 1) by lra.
  assert (H2 : 0 < 0.5) by lra.
  apply (proj1 (resolveCollision_restitution _ _ 15 10 1 0.5 Hc H1 H2)).
  assert (Hn : normalize (mkVec (400 - 400) (60 - 50)) = mkVec 0 1).
  { unfold normalize. cbn [vec_x vec_y].
    rewrite (sqrt_known _ 10) by lra.
    rewrite (proj2 (Reqb_false_iff 10 0)) by lra. f_equal; lra. }
  cbn [x y vx vy]. rewrite Hn. unfold dotProduct. cbn [vec_x vec_y]. lra.
Defined.

(** ** The kick *)

Lemma canKickBall_guard (p : Player) (ball : Body) :
  canKickBall p ball = Rleb (distance (body p) ball) (playerRadius + ballRadius + 5).
Proof.
  unfold canKickBall, getDistanceToBall, distance, playerRadius, ballRadius.
  now replace (15 + 10 + 5) with 30 by lra.
Qed.

(** X6.  [applyKick] acts exactly where [canKickBall] answers yes.  It never
    moves the ball, only changes its velocity: by nothing when the player
    cannot kick; otherwise by 0.3 times the player's velocity plus a kick
    which has magnitude [kickForce] when the centres differ and is zero when
    they coincide. *)
Theorem applyKick_effect (p : Player) (ball : Body) (kickForce : R) :
  x (applyKick (body p) ball kickForce) = x ball /\
  y (applyKick (body p) ball kickForce) = y ball /\
  (canKickBall p ball = false -> applyKick (body p) ball kickForce = ball) /\
  (canKickBall p ball = true ->
   let kx := vx (applyKick (body p) ball kickForce) - vx ball - vx (body p) * 0.3 in
   let ky := vy (applyKick (body p) ball kickForce) - vy ball - vy (body p) * 0.3 in
   (0 < distance (body p) ball -> kx * kx + ky * ky = kickForce * kickForce) /\
   (distance (body p) ball = 0 -> kx = 0 /\ ky = 0)).
Proof.
  rewrite canKickBall_guard. unfold applyKick.
  pose proof (normalize_unit_or_zero (mkVec (x ball - x (body p)) (y ball - y (body p)))) as Hn.
  set (n := normalize (mkVec (x ball - x (body p)) (y ball - y (body p)))) in *.
  assert (Hmag : sqrt ((x ball - x (body p)) * (x ball - x (body p))
                       + (y ball - y (body p)) * (y ball - y (body p)))
                 = distance (body p) ball).
  { unfold distance. f_equal. ring. }
  destruct (Rleb (distance (body p) ball) (playerRadius + ballRadius + 5)) eqn:E;
    cbn [x y vx vy set_vx set_vy].
  - split; [reflexivity|]. split; [reflexivity|]. split; [discriminate|].
    intros _. cbv zeta. split.
    + intros Hd.
      assert (Hunit : vec_x n * vec_x n + vec_y n * vec_y n = 1).
      { destruct Hn as [Hn | [Hx Hy]]; [exact Hn|]. exfalso.
        unfold n, normalize in Hx. cbn [vec_x vec_y] in Hx. rewrite Hmag in Hx.
        rewrite (proj2 (Reqb_false_iff (distance (body p) ball) 0)) in Hx by lra.
        unfold n, normalize in Hy. cbn [vec_x vec_y] in Hy. rewrite Hmag in Hy.
        rewrite (proj2 (Reqb_false_iff (distance (body p) ball) 0)) in Hy by lra.
        cbn [vec_x vec_y] in Hx, Hy.
        pose proof (distance_sq (body p) ball) as Hq.
        assert (Hx0 : x ball - x (body p) = 0).
        { apply (Rmult_eq_reg_r (/ distance (body p) ball)); [|apply Rinv_neq_0_compat; lra].
          unfold Rdiv in Hx. rewrite Hx. ring. }
        assert (Hy0 : y ball - y (body p) = 0).
        { apply (Rmult_eq_reg_r (/ distance (body p) ball)); [|apply Rinv_neq_0_compat; lra].
          unfold Rdiv in Hy. rewrite Hy. ring. }
        nra. }
      replace ((vx ball + vec_x n * kickForce + vx (body p) * 0.3 - vx ball - vx (body p) * 0.3)
               * (vx ball + vec_x n * kickForce + vx (body p) * 0.3 - vx ball - vx (body p) * 0.3)
               + (vy ball + vec_y n * kickForce + vy (body p) * 0.3 - vy ball - vy (body p) * 0.3)
                 * (vy ball + vec_y n * kickForce + vy (body p) * 0.3 - vy ball
                    - vy (body p) * 0.3))
        with ((vec_x n * vec_x n + vec_y n * vec_y n) * (kickForce * kickForce)) by ring.
      rewrite Hunit. ring.
    + intros Hd.
      assert (Hz : n = mkVec 0 0).
      { unfold n, normalize. cbn [vec_x vec_y]. rewrite Hmag, Hd.
        now rewrite (proj2 (Reqb_true_iff 0 0) eq_refl). }
      rewrite Hz. cbn [vec_x vec_y]. split; ring.
  - split; [reflexivity|]. split; [reflexivity|]. split; [reflexivity | discriminate].
Qed.

Lemma applyKick_effect_witness :
  applyKick (body sOnRed) (mkBody 400 90 1 1) 8 = mkBody 400 90 1 1.
Proof.
  apply (applyKick_effect sOnRed (mkBody 400 90 1 1) 8).
  unfold canKickBall, getDistanceToBall, sOnRed. cbn [body x y].
  rewrite (sqrt_known _ 40) by lra. apply Rleb_false_iff. lra.
Defined.

(** ** Motion *)

Lemma insideWalls_constrain (obj : Body) (radius : R) :
  0 <= radius <= 160 -> insideWalls radius obj -> constrainToBounds obj radius = obj.
Proof.
  intros Hr [Hy [Hx | [Hspan Hx]]].
  - now apply constrainToBounds_clear.
  - now apply constrainToBounds_mouth.
Qed.

Lemma limitSpeed_slows (b : Body) : speedSq (limitSpeed b) <= speedSq b.
Proof.
  pose proof (limitSpeed_capped b) as Hc. unfold limitSpeed in *. fold (speedSq b) in *.
  destruct (Rltb maxSpeed (sqrt (speedSq b))) eqn:E; [|apply Rle_refl].
  apply Rltb_true_iff in E. pose proof (speedSq_nonneg b) as Hq.
  pose proof (sqrt_sqrt (speedSq b) Hq) as Hss.
  unfold maxSpeed in *.
  assert (Hbig : 5 * 5 < sqrt (speedSq b) * sqrt (speedSq b)) by nra.
  lra.
Qed.

Lemma speed_scaled (b b' : Body) (c : R) :
  0 <= c -> speedSq b' <= c * c * speedSq b -> speed b' <= c * speed b.
Proof.
  intros Hc H. pose proof (speedSq_nonneg b) as Hq.
  assert (Hs : 0 <= speed b) by (unfold speed; apply sqrt_pos).
  apply speed_le_iff; [nra|].
  replace (c * speed b * (c * speed b)) with (c * c * (speed b * speed b)) by ring.
  unfold speed at 1 2. fold (speedSq b). now rewrite sqrt_sqrt.
Qed.

(** X7.  A body at rest inside the walls is a fixed point of the motion
    update, for every time step: the ball under [updateBall], and a player
    under [updatePlayer] when no key is pressed. *)
Theorem motion_update_at_rest (b : Body) (dt : R) :
  vx b = 0 -> vy b = 0 ->
  (insideWalls ballRadius b -> updateBall b dt = b) /\
  (insideWalls playerRadius b ->
   updatePlayer b (mkInput false false false false) dt = b).
Proof.
  intros Hvx Hvy.
  assert (Hmove : move (applyFriction b) dt = b).
  { destruct b as [bx' by' bvx bvy]. cbn [vx vy] in *. subst bvx bvy.
    unfold move, applyFriction. cbn [x y vx vy]. f_equal; ring. }
  split; intros Hin.
  - unfold updateBall. rewrite Hmove.
    apply insideWalls_constrain; [unfold ballRadius; lra | exact Hin].
  - unfold updatePlayer, applyInput. cbn [up down left right].
    rewrite limitSpeed_under by (unfold speedSq, maxSpeed; rewrite Hvx, Hvy; lra).
    rewrite Hmove.
    apply insideWalls_constrain; [unfold playerRadius; lra | exact Hin].
Qed.

Lemma motion_update_at_rest_witness :
  updateBall (mkBody 400 200 0 0) (IZR 17 / 16.67) = mkBody 400 200 0 0 /\
  updatePlayer (mkBody (-5) 161 0 0) (mkInput false false false false) 3 = mkBody (-5) 161 0 0.
Proof.
  split.
  - apply (motion_update_at_rest (mkBody 400 200 0 0)); [reflexivity | reflexivity |].
    unfold insideWalls, inGoalSpan, ballRadius. cbn [x y]. lra.
  - apply (motion_update_at_rest (mkBody (-5) 161 0 0)); [reflexivity | reflexivity |].
    unfold insideWalls, inGoalSpan, playerRadius. cbn [x y]. lra.
Defined.

(** X8.  Without input the motion update never speeds a body up: the speed
    of the ball after [updateBall], and of a player after [updatePlayer]
    with no key pressed, is at most [friction] times the speed before. *)
Theorem motion_update_decays (b : Body) (dt : R) :
  speed (updateBall b dt) <= friction * speed b /\
  speed (updatePlayer b (mkInput false false false false) dt) <= friction * speed b.
Proof.
  split; (apply speed_scaled; [unfold friction; lra|]).
  - unfold updateBall.
    destruct (constrainToBounds_slows (move (applyFriction b) dt) ballRadius) as [Hx Hy].
    unfold speedSq. cbn [move applyFriction vx vy] in Hx, Hy.
    unfold friction in *. nra.
  - unfold updatePlayer, applyInput. cbn [up down left right].
    pose proof (limitSpeed_slows b) as Hl.
    destruct (constrainToBounds_slows (move (applyFriction (limitSpeed b)) dt) playerRadius)
      as [Hx Hy].
    unfold speedSq in *. cbn [move applyFriction vx vy] in Hx, Hy.
    unfold friction in *. nra.
Qed.

Lemma Body_fields (a b c d a' b' c' d' : R) :
  a = a' -> b = b' -> c = c' -> d = d' -> mkBody a b c d = mkBody a' b' c' d'.
Proof. now intros -> -> -> ->. Qed.

(** X9.  Opposite keys cancel: [updatePlayer] with up and down both pressed
    acts as with neither, and likewise for left and right. *)
Theorem updatePlayer_opposite_keys (b : Body) (u d l r : bool) (dt : R) :
  updatePlayer b (mkInput true true l r) dt = updatePlayer b (mkInput false false l r) dt /\
  updatePlayer b (mkInput u d true true) dt = updatePlayer b (mkInput u d false false) dt.
Proof.
  assert (Hv : applyInput b (mkInput true true l r) = applyInput b (mkInput false false l r)).
  { unfold applyInput. cbn [up down left right]. destruct b as [bx' by' bvx bvy].
    destruct l, r; cbv [x y vx vy set_vx set_vy]; apply Body_fields; ring. }
  assert (Hh : applyInput b (mkInput u d true true) = applyInput b (mkInput u d false false)).
  { unfold applyInput. cbn [up down left right]. destruct b as [bx' by' bvx bvy].
    destruct u, d; cbv [x y vx vy set_vx set_vy]; apply Body_fields; ring. }
  unfold updatePlayer. now rewrite Hv, Hh.
Qed.

(** * Further properties of the room *)

(** ** The map of players *)

Lemma getPlayer_None_iff (ps : list Player) (pid : string) :
  getPlayer ps pid = None <-> ~ In pid (map id ps).
Proof.
  unfold getPlayer. induction ps as [|q tl IH]; cbn.
  - tauto.
  - destruct (String.eqb (id q) pid) eqn:E.
    + apply String.eqb_eq in E. split; [discriminate | intros H; exfalso; auto].
    + apply String.eqb_neq in E. rewrite IH. tauto.
Qed.

Lemma getPlayer_In (ps : list Player) (pid : string) (p : Player) :
  getPlayer ps pid = Some p -> In p ps /\ id p = pid.
Proof.
  unfold getPlayer. intros H. apply find_some in H.
  destruct H as [Hin H]. split; [exact Hin | now apply String.eqb_eq].
Qed.

Lemma mapSet_fresh (ps : list Player) (p : Player) :
  getPlayer ps (id p) = None -> mapSet ps p = ps ++ [p].
Proof.
  unfold getPlayer. induction ps as [|q tl IH]; cbn; [reflexivity|].
  destruct (String.eqb (id q) (id p)); [discriminate|].
  intros H. now rewrite IH.
Qed.

Lemma modifyPlayer_ids (ps : list Player) (pid : string) (f : Player -> Player) :
  (forall q, id (f q) = id q) -> map id (modifyPlayer ps pid f) = map id ps.
Proof.
  intros Hf. induction ps as [|q tl IH]; cbn; [reflexivity|].
  destruct (String.eqb (id q) pid); cbn; [now rewrite Hf | now rewrite IH].
Qed.

Lemma modifyPlayer_length (ps : list Player) (pid : string) (f : Player -> Player) :
  List.length (modifyPlayer ps pid f) = List.length ps.
Proof.
  induction ps as [|q tl IH]; cbn; [reflexivity|].
  destruct (String.eqb (id q) pid); cbn; [reflexivity | now rewrite IH].
Qed.

Lemma countTeam_cons (t : Team) (p : Player) (ps : list Player) :
  countTeam t (p :: ps) = (unit_of t p + countTeam t ps)%Z.
Proof.
  unfold countTeam, unit_of. cbn [filter]. destruct (onTeam t p); cbn [List.length]; lia.
Qed.

Lemma countTeam_nil (t : Team) : countTeam t [] = 0%Z.
Proof. reflexivity. Qed.

Lemma countTeam_app (t : Team) (ps qs : list Player) :
  countTeam t (ps ++ qs) = (countTeam t ps + countTeam t qs)%Z.
Proof.
  induction ps as [|p tl IH]; cbn [app].
  - rewrite countTeam_nil. lia.
  - rewrite !countTeam_cons, IH. lia.
Qed.

Lemma countTeam_modifyPlayer (t : Team) (ps : list Player) (pid : string)
      (f : Player -> Player) (p : Player) :
  getPlayer ps pid = Some p ->
  countTeam t (modifyPlayer ps pid f)
  = (countTeam t ps - unit_of t p + unit_of t (f p))%Z.
Proof.
  unfold getPlayer. induction ps as [|q tl IH]; cbn; [discriminate|].
  destruct (String.eqb (id q) pid).
  - intros [= ->]. rewrite !countTeam_cons. lia.
  - intros H. rewrite !countTeam_cons, (IH H). lia.
Qed.

Lemma countTeam_deletePlayer (t : Team) (ps : list Player) (pid : string) (p : Player) :
  getPlayer ps pid = Some p ->
  countTeam t (deletePlayer ps pid) = (countTeam t ps - unit_of t p)%Z.
Proof.
  unfold getPlayer. induction ps as [|q tl IH]; cbn; [discriminate|].
  destruct (String.eqb (id q) pid).
  - intros [= ->]. rewrite countTeam_cons. lia.
  - intros H. rewrite !countTeam_cons, (IH H). lia.
Qed.

Lemma deletePlayer_ids_incl (ps : list Player) (pid : string) :
  forall s, In s (map id (deletePlayer ps pid)) -> In s (map id ps).
Proof.
  induction ps as [|q tl IH]; cbn; [tauto|].
  destruct (String.eqb (id q) pid); cbn; intros s H; [now right|].
  destruct H as [H | H]; [now left | right; now apply IH].
Qed.

Lemma deletePlayer_NoDup (ps : list Player) (pid : string) :
  NoDup (map id ps) -> NoDup (map id (deletePlayer ps pid)).
Proof.
  induction ps as [|q tl IH]; cbn; [tauto|].
  intros H. inversion H as [|s l Hnot Hnd]; subst.
  destruct (String.eqb (id q) pid); [exact Hnd|].
  cbn. constructor; [|now apply IH].
  intros Hin. apply Hnot. now apply (deletePlayer_ids_incl tl pid).
Qed.

Lemma deletePlayer_length (ps : list Player) (pid : string) :
  (List.length (deletePlayer ps pid) <= List.length ps)%nat.
Proof.
  induction ps as [|q tl IH]; cbn; [lia|].
  destruct (String.eqb (id q) pid); cbn; lia.
Qed.

Lemma unit_of_setTeam (t : Team) (p : Player) (new : option Team) :
  unit_of t (setTeam p new)
  = match new, t with
    | Some Red, Red | Some Blue, Blue => 1%Z
    | _, _ => 0%Z
    end.
Proof. unfold unit_of, onTeam. destruct new as [[|]|], t; reflexivity. Qed.

Lemma leaveCount_counts (r : GameRoom) (p : Player) :
  players (leaveCount r (team p)) = players r /\
  redTeamCount (leaveCount r (team p)) = (redTeamCount r - unit_of Red p)%Z /\
  blueTeamCount (leaveCount r (team p)) = (blueTeamCount r - unit_of Blue p)%Z.
Proof.
  unfold unit_of, onTeam. destruct (team p) as [[|]|]; cbn; repeat split; lia.
Qed.

Lemma unit_of_bounds (t : Team) (p : Player) : (0 <= unit_of t p <= 1)%Z.
Proof. unfold unit_of. destruct (onTeam t p); lia. Qed.

(** ** The roster invariant *)

Lemma rosterOK_empty (roomCode : string) (g : GameState) (playing : bool) :
  rosterOK (mkGameRoom roomCode [] playing g 0 0).
Proof.
  unfold rosterOK, maxTeamSize, maxPlayers. cbn.
  repeat split; try lia. constructor.
Qed.

Lemma rosterOK_addPlayer (r : GameRoom) (p : Player) :
  rosterOK r -> getPlayer (players r) (id p) = None -> rosterOK (fst (addPlayer r p)).
Proof.
  intros (Hnd & Hr & Hb & Hrc & Hbc & Hlen) Hfresh. unfold addPlayer.
  destruct (Nat.leb_spec maxPlayers (List.length (players r))) as [Hfull | Hroom].
  { cbn [fst]. unfold rosterOK. auto 10. }
  assert (Hcases :
    exists t r1, autoAssignTeam r p = (r1, setTeam p t) /\ players r1 = players r /\
                 redTeamCount r1 = (redTeamCount r + unit_of Red (setTeam p t))%Z /\
                 blueTeamCount r1 = (blueTeamCount r + unit_of Blue (setTeam p t))%Z /\
                 (redTeamCount r1 <= maxTeamSize)%Z /\ (blueTeamCount r1 <= maxTeamSize)%Z).
  { unfold autoAssignTeam.
    destruct (Z.ltb_spec (redTeamCount r) maxTeamSize);
      destruct (Z.leb_spec (redTeamCount r) (blueTeamCount r)); cbn [andb].
    1: exists (Some Red); eexists; split; [reflexivity|]; cbn; repeat split; lia.
    all: destruct (Z.ltb_spec (blueTeamCount r) maxTeamSize);
      [ exists (Some Blue); eexists; split; [reflexivity|]; cbn; repeat split; lia
      | exists None; eexists; split; [reflexivity|]; cbn; repeat split; lia ]. }
  destruct Hcases as (t & r1 & Ha & Hps & Hr1 & Hb1 & Hrc1 & Hbc1).
  rewrite Ha. cbn [fst players set_players redTeamCount blueTeamCount]. rewrite Hps.
  assert (Hid : id (setTeam p t) = id p) by reflexivity.
  rewrite mapSet_fresh by (rewrite Hid; exact Hfresh).
  unfold rosterOK. cbn [players set_players redTeamCount blueTeamCount].
  rewrite map_app, !countTeam_app, !countTeam_cons, !countTeam_nil, length_app.
  cbn [map List.length]. repeat split; try lia.
  apply NoDup_app; [exact Hnd | repeat constructor; cbn; tauto |].
  intros s Hs [<- | []]. rewrite Hid in Hs.
  now apply (getPlayer_None_iff (players r) (id p)).
Qed.

Lemma rosterOK_removePlayer (r : GameRoom) (pid : string) :
  rosterOK r -> rosterOK (fst (removePlayer r pid)).
Proof.
  intros (Hnd & Hr & Hb & Hrc & Hbc & Hlen). unfold removePlayer.
  destruct (getPlayer (players r) pid) as [p|] eqn:Hp; [|unfold rosterOK; auto 10].
  destruct (leaveCount_counts r p) as (Hps & Hr1 & Hb1).
  cbn [fst]. unfold rosterOK. cbn [players set_players redTeamCount blueTeamCount].
  rewrite Hps, !(countTeam_deletePlayer _ _ _ _ Hp).
  change (redTeamCount (set_players (leaveCount r (team p)) (deletePlayer (players r) pid)))
    with (redTeamCount (leaveCount r (team p))).
  change (blueTeamCount (set_players (leaveCount r (team p)) (deletePlayer (players r) pid)))
    with (blueTeamCount (leaveCount r (team p))).
  rewrite Hr1, Hb1.
  pose proof (unit_of_bounds Red p). pose proof (unit_of_bounds Blue p).
  pose proof (deletePlayer_length (players r) pid).
  repeat split; try lia. now apply deletePlayer_NoDup.
Qed.

Lemma rosterOK_switchPlayerTeam (r : GameRoom) (pid : string) (newTeam : option string) :
  rosterOK r -> rosterOK (fst (switchPlayerTeam r pid newTeam)).
Proof.
  intros (Hnd & Hr & Hb & Hrc & Hbc & Hlen). unfold switchPlayerTeam.
  destruct (getPlayer (players r) pid) as [p|] eqn:Hp; [|unfold rosterOK; auto 10].
  destruct (leaveCount_counts r p) as (Hps & Hr1 & Hb1).
  pose proof (unit_of_bounds Red p) as HuR. pose proof (unit_of_bounds Blue p) as HuB.
  set (r1 := leaveCount r (team p)) in *.
  assert (Hgrant : forall new,
    (match new with Some Red => redTeamCount r1 < maxTeamSize | _ => True end)%Z ->
    (match new with Some Blue => blueTeamCount r1 < maxTeamSize | _ => True end)%Z ->
    forall r2,
      players r2 = modifyPlayer (players r1) pid (fun q => setTeam q new) ->
      redTeamCount r2 = (redTeamCount r1 + unit_of Red (setTeam p new))%Z ->
      blueTeamCount r2 = (blueTeamCount r1 + unit_of Blue (setTeam p new))%Z ->
      rosterOK r2).
  { intros new HcapR HcapB r2 Hps2 Hr2 Hb2. unfold rosterOK.
    rewrite Hps2, Hps, Hr2, Hb2, Hr1, Hb1.
    rewrite modifyPlayer_ids by reflexivity.
    rewrite !(countTeam_modifyPlayer _ _ _ _ _ Hp), modifyPlayer_length.
    rewrite Hr1 in HcapR. rewrite Hb1 in HcapB.
    rewrite !unit_of_setTeam in *.
    repeat split; try assumption; try lia; destruct new as [[|]|]; lia. }
  destruct (isString newTeam "red" && (redTeamCount r1 <? maxTeamSize)%Z) eqn:E1.
  { apply andb_prop in E1. destruct E1 as [_ E1]. apply Z.ltb_lt in E1.
    cbn [fst]. apply (Hgrant (Some Red)); auto; cbn; rewrite ?unit_of_setTeam; lia. }
  destruct (isString newTeam "blue" && (blueTeamCount r1 <? maxTeamSize)%Z) eqn:E2.
  { apply andb_prop in E2. destruct E2 as [_ E2]. apply Z.ltb_lt in E2.
    cbn [fst]. apply (Hgrant (Some Blue)); auto; cbn; rewrite ?unit_of_setTeam; lia. }
  destruct (isString newTeam "spectator" || isNull newTeam).
  { cbn [fst]. apply (Hgrant None); auto; cbn; rewrite ?unit_of_setTeam; lia. }
  cbn [fst]. unfold r1. rewrite restore_leave. unfold rosterOK. auto 10.
Qed.

Lemma keptBy_sameSeat (p q : Player) : keptBy p q -> sameSeat p q.
Proof. intros [H _]. rewrite H. split; reflexivity. Qed.

Lemma Forall2_sameSeat_roster (ps qs : list Player) :
  Forall2 sameSeat ps qs ->
  map id qs = map id ps /\ List.length qs = List.length ps /\
  forall t, countTeam t qs = countTeam t ps.
Proof.
  induction 1 as [|p q ps qs [Hid Hteam] _ (IHid & IHlen & IHcount)].
  - repeat split.
  - cbn. rewrite Hid, IHid, IHlen. repeat split.
    intros t. rewrite !countTeam_cons, IHcount.
    unfold unit_of, onTeam. now rewrite Hteam.
Qed.

Lemma rosterOK_same_seats (r r' : GameRoom) :
  Forall2 sameSeat (players r) (players r') ->
  redTeamCount r' = redTeamCount r -> blueTeamCount r' = blueTeamCount r ->
  rosterOK r -> rosterOK r'.
Proof.
  intros Hseat HrEq HbEq (Hnd & Hr & Hb & Hrc & Hbc & Hlen).
  destruct (Forall2_sameSeat_roster _ _ Hseat) as (Hid & Hl & Hcount).
  unfold rosterOK. rewrite Hid, Hl, !Hcount, HrEq, HbEq. auto 10.
Qed.

Lemma Forall2_map_right (A B : Type) (R : A -> B -> Prop) (f : A -> B) (l : list A) :
  (forall a, R a (f a)) -> Forall2 R l (map f l).
Proof. intros H. induction l; cbn; constructor; auto. Qed.

Lemma Forall2_impl_keptBy (ps qs : list Player) :
  Forall2 keptBy ps qs -> Forall2 sameSeat ps qs.
Proof. induction 1; constructor; auto using keptBy_sameSeat. Qed.

Lemma updateGame_seats (clock : nat -> Z) (r : GameRoom) :
  Forall2 sameSeat (players r) (players (updateGame clock r)) /\
  redTeamCount (updateGame clock r) = redTeamCount r /\
  blueTeamCount (updateGame clock r) = blueTeamCount r /\
  code (updateGame clock r) = code r /\ isPlaying (updateGame clock r) = isPlaying r.
Proof.
  unfold updateGame.
  set (r2 := collisionPhase (motionPhase clock r)).
  assert (Hk : Forall2 keptBy (players r) (players r2)).
  { eapply Forall2_keptBy_trans; [apply motionPhase_frame | apply collisionPhase_frame]. }
  assert (Hfields : redTeamCount r2 = redTeamCount r /\ blueTeamCount r2 = blueTeamCount r /\
                    code r2 = code r /\ isPlaying r2 = isPlaying r).
  { unfold r2, collisionPhase.
    destruct (checkCollisions _ _). repeat split. }
  assert (Hg : Forall2 sameSeat (players r2) (players (goalPhase r2)) /\
               redTeamCount (goalPhase r2) = redTeamCount r2 /\
               blueTeamCount (goalPhase r2) = blueTeamCount r2 /\
               code (goalPhase r2) = code r2 /\ isPlaying (goalPhase r2) = isPlaying r2).
  { unfold goalPhase. destruct (checkGoal _).
    - cbn [handleGoal players set_players]. split; [|repeat split].
      apply Forall2_map_right. intros p. destruct (team p) eqn:Ht; split; try reflexivity.
    - split; [|repeat split]. apply Forall2_impl_keptBy, Forall2_keptBy_refl. }
  destruct Hg as (Hs & Hr' & Hb' & Hc' & Hp'). destruct Hfields as (Hr2 & Hb2 & Hc2 & Hp2).
  cbn [addGameTime players set_gameState redTeamCount blueTeamCount code isPlaying].
  rewrite Hr', Hb', Hc', Hp', Hr2, Hb2, Hc2, Hp2. split; [|repeat split].
  apply Forall2_impl_keptBy in Hk.
  clear - Hk Hs. revert Hs. generalize (players (goalPhase r2)).
  induction Hk as [|p q ps qs [Hi Ht] _ IH]; intros l Hs; inversion Hs; subst; constructor.
  - match goal with H : sameSeat q _ |- _ => destruct H as [Hi' Ht'] end.
    split; congruence.
  - now apply IH.
Qed.

Lemma rosterOK_updateGame (clock : nat -> Z) (r : GameRoom) :
  rosterOK r -> rosterOK (updateGame clock r).
Proof.
  destruct (updateGame_seats clock r) as (Hs & Hr & Hb & _).
  now apply rosterOK_same_seats.
Qed.

Lemma rosterOK_resetGame (r : GameRoom) : rosterOK r -> rosterOK (resetGame r).
Proof.
  apply rosterOK_same_seats; [|reflexivity|reflexivity].
  cbn [resetGame players set_players]. apply Forall2_map_right.
  intros p. destruct (team p) eqn:Ht; split; try reflexivity; cbn; now rewrite ?Ht.
Qed.

Lemma Forall2_sameSeat_refl (ps : list Player) : Forall2 sameSeat ps ps.
Proof. induction ps; constructor; auto. split; reflexivity. Qed.

Lemma modifyPlayer_seats (ps : list Player) (pid : string) (f : Player -> Player) :
  (forall q, sameSeat q (f q)) -> Forall2 sameSeat ps (modifyPlayer ps pid f).
Proof.
  intros Hf. induction ps as [|q tl IH]; cbn; [constructor|].
  destruct (String.eqb (id q) pid).
  - constructor; [apply Hf | apply Forall2_sameSeat_refl].
  - constructor; [split; reflexivity | exact IH].
Qed.

Lemma rosterOK_updatePlayerInput (r : GameRoom) (pid : string) (i : Input) (now : Z) :
  rosterOK r -> rosterOK (updatePlayerInput r pid i now).
Proof.
  unfold updatePlayerInput. destruct (getPlayer (players r) pid); [|auto].
  apply rosterOK_same_seats; [|reflexivity|reflexivity].
  cbn [players set_players]. apply modifyPlayer_seats. intros q. split; reflexivity.
Qed.

Lemma rosterOK_pairRoom : rosterOK pairRoom.
Proof.
  unfold rosterOK. split.
  { change (map id (players pairRoom)) with ["a"%string; "b"%string].
    repeat constructor; cbn; intuition discriminate. }
  split; [reflexivity|]. split; [reflexivity|].
  split; [vm_compute; discriminate|]. split; [vm_compute; discriminate|].
  change (List.length (players pairRoom)) with 2%nat. unfold maxPlayers. lia.
Defined.

(** X10.  Joining keeps the room's bookkeeping right.  The room a
    constructor returns has it right; [addPlayer] of a player that is not in
    the room keeps it right; on a full room [addPlayer] returns [false] and
    changes nothing, and otherwise it returns [true] and the room has one
    more player, stored under its id on the team [autoAssignTeam] chose. *)
Theorem addPlayer_keeps_roster (r : GameRoom) (p : Player) :
  (forall roomCode host now, rosterOK (newGameRoom roomCode host now)) /\
  (rosterOK r -> getPlayer (players r) (id p) = None -> rosterOK (fst (addPlayer r p))) /\
  (isFull r = true -> addPlayer r p = (r, false)) /\
  (isFull r = false -> getPlayer (players r) (id p) = None ->
   snd (addPlayer r p) = true /\
   List.length (players (fst (addPlayer r p))) = S (List.length (players r)) /\
   getPlayer (players (fst (addPlayer r p))) (id p) = Some (snd (autoAssignTeam r p))).
Proof.
  split; [|split; [|split]].
  - intros roomCode host now. unfold newGameRoom.
    apply rosterOK_addPlayer; [apply rosterOK_empty | reflexivity].
  - apply rosterOK_addPlayer.
  - unfold isFull, addPlayer. now intros ->.
  - unfold isFull, addPlayer. intros -> Hfresh.
    destruct (autoAssignTeam_player r p) as [t Ht].
    assert (Hps : players (fst (autoAssignTeam r p)) = players r).
    { unfold autoAssignTeam. destruct (_ && _); [reflexivity|]. now destruct (_ <? _)%Z. }
    destruct (autoAssignTeam r p) as [r1 p1]. cbn [fst snd] in *. subst p1.
    cbn [players set_players]. rewrite Hps.
    split; [reflexivity|]. split.
    + rewrite mapSet_fresh by exact Hfresh. rewrite length_app. cbn. lia.
    + change (id p) with (id (setTeam p t)). apply getPlayer_mapSet.
Qed.

Lemma addPlayer_keeps_roster_witness :
  rosterOK (fst (addPlayer pairRoom (newPlayer "c" "c" 0))) /\
  snd (addPlayer pairRoom (newPlayer "c" "c" 0)) = true.
Proof.
  split.
  - apply (proj1 (proj2 (addPlayer_keeps_roster pairRoom (newPlayer "c" "c" 0))));
      [exact rosterOK_pairRoom | reflexivity].
  - apply (proj2 (proj2 (proj2 (addPlayer_keeps_roster pairRoom (newPlayer "c" "c" 0)))));
      reflexivity.
Defined.

(** X11.  Leaving and switching keep the room's bookkeeping right:
    [removePlayer] and [switchPlayerTeam], granted or refused, take a room
    whose counters agree with its players to one whose counters agree with
    its players, with both teams still within the team size. *)
Theorem leave_and_switch_keep_roster (r : GameRoom) (playerId : string)
        (newTeam : option string) :
  rosterOK r ->
  rosterOK (fst (removePlayer r playerId)) /\
  rosterOK (fst (switchPlayerTeam r playerId newTeam)).
Proof.
  intros H. split; [now apply rosterOK_removePlayer | now apply rosterOK_switchPlayerTeam].
Qed.

Lemma leave_and_switch_keep_roster_witness :
  rosterOK (fst (removePlayer pairRoom "a")) /\
  rosterOK (fst (switchPlayerTeam pairRoom "a" (Some "blue"%string))).
Proof. apply leave_and_switch_keep_roster. exact rosterOK_pairRoom. Defined.

(** X12.  A tick never touches the roster: after [updateGame] the room has
    the same players in the same order, each with its id and its team, and
    the same team counters, code and playing flag. *)
Theorem updateGame_keeps_seats (clock : nat -> Z) (r : GameRoom) :
  map id (players (updateGame clock r)) = map id (players r) /\
  map team (players (updateGame clock r)) = map team (players r) /\
  redTeamCount (updateGame clock r) = redTeamCount r /\
  blueTeamCount (updateGame clock r) = blueTeamCount r /\
  code (updateGame clock r) = code r /\
  isPlaying (updateGame clock r) = isPlaying r.
Proof.
  destruct (updateGame_seats clock r) as (Hs & Hr & Hb & Hc & Hp).
  repeat split; try assumption.
  - now apply Forall2_sameSeat_roster.
  - clear - Hs. induction Hs as [|p q ps qs [_ Ht] _ IH]; cbn; [reflexivity|].
    now rewrite Ht, IH.
Qed.

Lemma roster_partition (ps : list Player) :
  (countTeam Red ps + countTeam Blue ps + countSpectators ps)%Z
  = Z.of_nat (List.length ps).
Proof.
  induction ps as [|p tl IH]; [reflexivity|].
  rewrite !countTeam_cons. unfold countSpectators in *. cbn [filter].
  unfold unit_of, onTeam, teamed in *.
  destruct (team p) as [[|]|]; cbn [negb List.length]; lia.
Qed.

(** X13.  In every room that a history of joins (of players not yet in the
    room), leaves, team switches, inputs, ticks and resets leads to, the
    ids are distinct, each team counter is the number of players on that
    team and is at most 4, there are at most 10 players, and Red, Blue and
    spectators add up to the number of players. *)
Theorem reachable_rosterOK (r : GameRoom) :
  reachable r ->
  rosterOK r /\
  (redTeamCount r + blueTeamCount r + countSpectators (players r))%Z
  = Z.of_nat (List.length (players r)).
Proof.
  intros H.
  assert (Hok : rosterOK r).
  { induction H.
    - unfold newGameRoom. apply rosterOK_addPlayer; [apply rosterOK_empty | reflexivity].
    - now apply rosterOK_addPlayer.
    - now apply rosterOK_removePlayer.
    - now apply rosterOK_switchPlayerTeam.
    - now apply rosterOK_updatePlayerInput.
    - now apply rosterOK_updateGame.
    - now apply rosterOK_resetGame. }
  split; [exact Hok|].
  destruct Hok as (_ & Hr & Hb & _). rewrite Hr, Hb. apply roster_partition.
Qed.

Lemma reachable_rosterOK_witness :
  rosterOK (updateGame wallClock (fst (switchPlayerTeam pairRoom "b" None))).
Proof.
  apply reachable_rosterOK.
  apply reach_tick, reach_switch. unfold pairRoom.
  apply reach_join; [apply reach_new | reflexivity].
Defined.

(** ** Joining, leaving and switching *)

Lemma getPlayer_app_fresh (ps : list Player) (p : Player) :
  getPlayer ps (id p) = None -> getPlayer (ps ++ [p]) (id p) = Some p.
Proof.
  unfold getPlayer. induction ps as [|q tl IH]; cbn.
  - now rewrite String.eqb_refl.
  - destruct (String.eqb (id q) (id p)); [discriminate | exact IH].
Qed.

Lemma deletePlayer_app_fresh (ps : list Player) (p : Player) :
  getPlayer ps (id p) = None -> deletePlayer (ps ++ [p]) (id p) = ps.
Proof.
  unfold getPlayer. induction ps as [|q tl IH]; cbn.
  - now rewrite String.eqb_refl.
  - destruct (String.eqb (id q) (id p)); [discriminate|]. intros H. now rewrite IH.
Qed.

Lemma removePlayer_last (r1 : GameRoom) (q : Player) :
  getPlayer (players r1) (id q) = None ->
  removePlayer (set_players r1 (players r1 ++ [q])) (id q)
  = (set_players (leaveCount r1 (team q)) (players r1), true).
Proof.
  intros Hfresh. unfold removePlayer. cbn [players set_players].
  rewrite (getPlayer_app_fresh _ _ Hfresh).
  destruct (team q) as [[|]|]; cbn [leaveCount set_redTeamCount set_blueTeamCount
    set_players players code isPlaying gameState redTeamCount blueTeamCount];
    now rewrite (deletePlayer_app_fresh _ _ Hfresh).
Qed.

(** X14.  A join followed by the leave of the same player is a round trip:
    when the room is not full and the player is not in it,
    [removePlayer] after [addPlayer] returns [true] and gives back the room
    as it was, players and counters. *)
Theorem addPlayer_removePlayer_round_trip (r : GameRoom) (p : Player) :
  isFull r = false -> getPlayer (players r) (id p) = None ->
  removePlayer (fst (addPlayer r p)) (id p) = (r, true).
Proof.
  unfold isFull, addPlayer. intros -> Hfresh.
  assert (Hcases :
    exists t r1, autoAssignTeam r p = (r1, setTeam p t) /\ players r1 = players r /\
                 set_players (leaveCount r1 t) (players r) = r).
  { unfold autoAssignTeam. destruct r as [c ps playing g nr nb].
    cbn [redTeamCount blueTeamCount players].
    destruct ((nr <? maxTeamSize)%Z && (nr <=? nb)%Z);
      [exists (Some Red) | destruct (nb <? maxTeamSize)%Z; [exists (Some Blue) | exists None]];
      eexists; (split; [reflexivity|]); (split; [reflexivity|]);
      cbv [leaveCount set_redTeamCount set_blueTeamCount set_players players code isPlaying
           gameState redTeamCount blueTeamCount];
      f_equal; lia. }
  destruct Hcases as (t & r1 & Ha & Hps & Hback).
  rewrite Ha. cbn [fst]. rewrite Hps in *.
  rewrite mapSet_fresh by exact Hfresh.
  change (id p) with (id (setTeam p t)). rewrite <- Hps.
  rewrite removePlayer_last by (rewrite Hps; exact Hfresh).
  rewrite Hps. now rewrite (proj1 (setTeam_spot p t)), Hback.
Qed.

Lemma addPlayer_removePlayer_round_trip_witness :
  removePlayer (fst (addPlayer pairRoom (newPlayer "c" "c" 0))) "c" = (pairRoom, true).
Proof.
  apply (addPlayer_removePlayer_round_trip pairRoom (newPlayer "c" "c" 0)); reflexivity.
Defined.

Lemma getPlayer_deletePlayer_other (ps : list Player) (pid other : string) :
  other <> pid -> getPlayer (deletePlayer ps pid) other = getPlayer ps other.
Proof.
  intros Hne. unfold getPlayer. induction ps as [|q tl IH]; cbn; [reflexivity|].
  destruct (String.eqb (id q) pid) eqn:E; cbn.
  - apply String.eqb_eq in E.
    destruct (String.eqb (id q) other) eqn:E'; [|reflexivity].
    apply String.eqb_eq in E'. congruence.
  - destruct (String.eqb (id q) other); [reflexivity | exact IH].
Qed.

Lemma getPlayer_deletePlayer_same (ps : list Player) (pid : string) :
  NoDup (map id ps) -> getPlayer (deletePlayer ps pid) pid = None.
Proof.
  intros Hnd. apply getPlayer_None_iff. induction ps as [|q tl IH]; cbn; [tauto|].
  inversion Hnd as [|s l Hnot Hnd']; subst.
  destruct (String.eqb (id q) pid) eqn:E; cbn.
  - apply String.eqb_eq in E. now rewrite <- E.
  - apply String.eqb_neq in E. intros [H | H]; [contradiction | now apply IH].
Qed.

(** X15.  [removePlayer] of an id that is not in the room returns [false]
    and changes nothing.  Otherwise it returns [true]; afterwards that id is
    no longer in the room (ids being distinct, as in a map) and every other
    id leads to the player it led to before. *)
Theorem removePlayer_lookup (r : GameRoom) (playerId : string) :
  (getPlayer (players r) playerId = None -> removePlayer r playerId = (r, false)) /\
  (getPlayer (players r) playerId <> None -> snd (removePlayer r playerId) = true) /\
  (NoDup (map id (players r)) ->
   getPlayer (players (fst (removePlayer r playerId))) playerId = None) /\
  (forall other, other <> playerId ->
     getPlayer (players (fst (removePlayer r playerId))) other = getPlayer (players r) other).
Proof.
  unfold removePlayer.
  destruct (getPlayer (players r) playerId) as [p|] eqn:Hp.
  - assert (Hps : players (leaveCount r (team p)) = players r)
      by (destruct (team p) as [[|]|]; reflexivity).
    cbn [fst snd players set_players]. rewrite Hps.
    split; [discriminate|]. split; [reflexivity|]. split.
    + apply getPlayer_deletePlayer_same.
    + intros other Hne. now apply getPlayer_deletePlayer_other.
  - cbn [fst snd]. split; [reflexivity|]. split; [congruence|]. split; [now intros _|].
    reflexivity.
Qed.

Lemma removePlayer_lookup_witness :
  removePlayer pairRoom "z" = (pairRoom, false) /\
  getPlayer (players (fst (removePlayer pairRoom "a"))) "a" = None /\
  getPlayer (players (fst (removePlayer pairRoom "a"))) "b" = getPlayer (players pairRoom) "b".
Proof.
  split; [|split].
  - apply (proj1 (removePlayer_lookup pairRoom "z")). reflexivity.
  - apply (proj1 (proj2 (proj2 (removePlayer_lookup pairRoom "a")))).
    exact (proj1 rosterOK_pairRoom).
  - apply (proj2 (proj2 (proj2 (removePlayer_lookup pairRoom "a")))). discriminate.
Defined.

(** X16.  [switchPlayerTeam] for an id that is not in the room, or for a
    team name other than ['red'], ['blue'] and ['spectator'] (and not
    [null]), returns [false] and leaves the whole room as it was. *)
Theorem switchPlayerTeam_rejects (r : GameRoom) (playerId : string)
        (newTeam : option string) :
  getPlayer (players r) playerId = None \/
  (exists s, newTeam = Some s /\ s <> "red"%string /\ s <> "blue"%string
             /\ s <> "spectator"%string) ->
  switchPlayerTeam r playerId newTeam = (r, false).
Proof.
  unfold switchPlayerTeam. intros [Hnone | (s & -> & Hr & Hb & Hs)].
  - now rewrite Hnone.
  - destruct (getPlayer (players r) playerId) as [p|]; [|reflexivity].
    cbn [isString isNull].
    rewrite (proj2 (String.eqb_neq s "red") Hr), (proj2 (String.eqb_neq s "blue") Hb),
      (proj2 (String.eqb_neq s "spectator") Hs).
    cbn [andb orb]. now rewrite restore_leave.
Qed.

Lemma switchPlayerTeam_rejects_witness :
  switchPlayerTeam pairRoom "z" (Some "red"%string) = (pairRoom, false) /\
  switchPlayerTeam pairRoom "a" (Some "green"%string) = (pairRoom, false).
Proof.
  split.
  - apply switchPlayerTeam_rejects. left. reflexivity.
  - apply switchPlayerTeam_rejects. right. exists "green"%string.
    split; [reflexivity|]. split; [discriminate|]. split; discriminate.
Defined.

(** ** Input, time and score *)

Lemma getPlayer_updatePlayers_active (clock : nat -> Z) (dt : R) (pid : string) (p : Player)
      (ps : list Player) :
  team p <> None -> (forall k, isActive (clock k) p = true) ->
  forall k,
    getPlayer ps pid = Some p ->
    getPlayer (updatePlayers clock k dt ps) pid
    = Some (set_body p (updatePlayer (body p) (input p) dt)).
Proof.
  intros Ht Hact. unfold getPlayer.
  induction ps as [|q tl IH]; intros k; cbn; [discriminate|].
  destruct (String.eqb (id q) pid) eqn:E.
  - intros [= ->]. destruct (team p); [|contradiction].
    cbn. rewrite Hact. cbn. now rewrite E.
  - intros H. destruct (team q); cbn.
    + destruct (isActive (clock k) q); cbn; rewrite E; now apply IH.
    + rewrite E. now apply IH.
Qed.

(** X17.  Input reaches the next tick.  After [updatePlayerInput] for a
    teamed player of the room, a tick all of whose clock readings come less
    than five seconds after the input moves that player by [updatePlayer]
    with the new input; for an id that is not in the room
    [updatePlayerInput] changes nothing. *)
Theorem updatePlayerInput_then_tick (r : GameRoom) (playerId : string) (newInput : Input)
        (now : Z) (clock : nat -> Z) :
  (getPlayer (players r) playerId = None ->
   updatePlayerInput r playerId newInput now = r) /\
  (forall p,
     getPlayer (players r) playerId = Some p -> team p <> None ->
     (forall k, (clock k - now < 5000)%Z) ->
     getPlayer (players (motionPhase clock (updatePlayerInput r playerId newInput now)))
               playerId
     = Some (set_body (updateInput p newInput now)
                      (updatePlayer (body p) newInput (tickDt clock r)))).
Proof.
  unfold updatePlayerInput. split.
  - now intros ->.
  - intros p Hp Ht Hclock. rewrite Hp.
    cbn [motionPhase players set_players].
    change (tickDt clock (set_players r (modifyPlayer (players r) playerId
                                            (fun q => updateInput q newInput now))))
      with (tickDt clock r).
    apply (getPlayer_updatePlayers_active clock (tickDt clock r) playerId
             (updateInput p newInput now)).
    + exact Ht.
    + intros k. unfold isActive. cbn [updateInput lastSeen]. apply Z.ltb_lt. apply Hclock.
    + exact (getPlayer_modifyPlayer _ _ (fun q => updateInput q newInput now) p Hp eq_refl).
Qed.

Lemma updatePlayerInput_then_tick_witness :
  getPlayer (players (motionPhase wallClock
                        (updatePlayerInput pairRoom "a"
                                           (mkInput false false false true) 1000)))
            "a"
  = Some (set_body (updateInput (setTeam (newPlayer "a" "a" 0) (Some Red))
                                (mkInput false false false true) 1000)
                   (updatePlayer (mkBody 100 200 0 0) (mkInput false false false true)
                                 (tickDt wallClock pairRoom))).
Proof.
  apply (proj2 (updatePlayerInput_then_tick pairRoom "a" (mkInput false false false true)
                  1000 wallClock) (setTeam (newPlayer "a" "a" 0) (Some Red))).
  - reflexivity.
  - discriminate.
  - intros k. reflexivity.
Defined.

Lemma updateGame_time (clock : nat -> Z) (r : GameRoom) :
  lastUpdate (gameState (updateGame clock r)) = clock O /\
  gameTime (gameState (updateGame clock r))
  = (gameTime (gameState r) + (clock O - lastUpdate (gameState r)))%Z.
Proof.
  unfold updateGame, tickDelta, goalPhase, collisionPhase.
  destruct (checkCollisions _ _) as [ps1 b1].
  destruct (checkGoal _); split; reflexivity.
Qed.

(** X18.  The game time follows the clock: after a tick, [lastUpdate] is the
    tick's first clock reading and [gameTime] has grown by that reading
    minus the old [lastUpdate], goal or no goal; so over any run of ticks
    [gameTime - lastUpdate] does not change. *)
Theorem gameTime_follows_clock (clocks : list (nat -> Z)) (clock : nat -> Z) (r : GameRoom) :
  lastUpdate (gameState (updateGame clock r)) = clock O /\
  gameTime (gameState (updateGame clock r))
  = (gameTime (gameState r) + (clock O - lastUpdate (gameState r)))%Z /\
  (gameTime (gameState (runTicks clocks r)) - lastUpdate (gameState (runTicks clocks r)))%Z
  = (gameTime (gameState r) - lastUpdate (gameState r))%Z.
Proof.
  split; [apply updateGame_time|]. split; [apply updateGame_time|].
  unfold runTicks. revert r. induction clocks as [|c tl IH]; intros r; cbn [fold_left].
  - reflexivity.
  - rewrite IH. destruct (updateGame_time c r) as [-> ->]. lia.
Qed.

Lemma updateGame_score (clock : nat -> Z) (r : GameRoom) :
  let s := score (gameState r) in
  let s' := score (gameState (updateGame clock r)) in
  (red s <= red s' /\ blue s <= blue s' /\ red s' + blue s' <= red s + blue s + 1)%Z.
Proof.
  cbv zeta. unfold updateGame, goalPhase.
  set (r2 := collisionPhase (motionPhase clock r)).
  assert (Hs : score (gameState r2) = score (gameState r)).
  { unfold r2. rewrite (proj1 (collisionPhase_frame _)). apply motionPhase_frame. }
  destruct (checkGoal (ball (gameState r2))) as [[|]|];
    cbn [addGameTime handleGoal gameState set_gameState set_players score incrementScore
         red blue]; rewrite Hs; lia.
Qed.

(** X19.  Scores only go up, by at most one point a tick: over any run of
    ticks neither team's score decreases, and the two together gain at most
    as many points as there were ticks. *)
Theorem scores_only_go_up (clocks : list (nat -> Z)) (r : GameRoom) :
  (red (score (gameState r)) <= red (score (gameState (runTicks clocks r))))%Z /\
  (blue (score (gameState r)) <= blue (score (gameState (runTicks clocks r))))%Z /\
  (red (score (gameState (runTicks clocks r))) + blue (score (gameState (runTicks clocks r)))
   <= red (score (gameState r)) + blue (score (gameState r))
      + Z.of_nat (List.length clocks))%Z.
Proof.
  unfold runTicks. revert r. induction clocks as [|c tl IH]; intros r; cbn [fold_left].
  - cbn. lia.
  - specialize (IH (updateGame c r)). pose proof (updateGame_score c r) as Hs.
    cbv zeta in Hs. cbn [List.length]. lia.
Qed.

(** * The game loop's timer *)

Lemma clearInterval_active (h : nat) (ts : Timers) :
  NoDup (active ts) -> In h (active ts) ->
  S (List.length (active (clearInterval h ts))) = List.length (active ts) /\
  NoDup (active (clearInterval h ts)) /\
  forall k, In k (active (clearInterval h ts)) <-> In k (active ts) /\ k <> h.
Proof.
  unfold clearInterval. cbn [active]. intros Hnd Hin.
  assert (Hiff : forall k, In k (filter (fun k0 => negb (k0 =? h)%nat) (active ts))
                           <-> In k (active ts) /\ k <> h).
  { intros k. rewrite filter_In. rewrite Bool.negb_true_iff, Nat.eqb_neq. tauto. }
  split; [|split; [apply NoDup_filter; exact Hnd | exact Hiff]].
  clear Hiff. induction (active ts) as [|a l IH]; [contradiction|].
  inversion Hnd as [|a' l' Hnot Hnd']; subst. cbn [filter List.length].
  destruct (Nat.eqb_spec a h) as [-> | Hne]; cbn [negb].
  - f_equal. clear IH Hin Hnd. induction l as [|b l IH]; [reflexivity|].
    cbn [filter]. destruct (Nat.eqb_spec b h) as [-> | Hne]; cbn [negb].
    + exfalso. apply Hnot. now left.
    + cbn [List.length]. f_equal. apply IH.
      * intros H. apply Hnot. now right.
      * now inversion Hnd'.
  - cbn [List.length]. f_equal. apply IH; [exact Hnd'|].
    destruct Hin as [H | H]; [congruence | exact H].
Qed.

Lemma loopInv_start (ts0 : Timers) (lr : LoopRoom) (ts : Timers) (now : Z) :
  loopInv ts0 (lr, ts) -> loopInv ts0 (startGameLoop lr ts now).
Proof.
  unfold loopInv. cbn [fst snd].
  intros (H0 & (Hnd & Hbound) & Hnext & Hown & Hkeep & Hlen & Hplay).
  split; [exact H0|]. destruct H0 as [_ Hold].
  unfold startGameLoop, ownTimers, timersOK in *.
  destruct (gameLoopInterval lr) as [h|] eqn:Hh.
  - destruct (Hown h eq_refl) as [Hin Hge].
    destruct (clearInterval_active h ts Hnd Hin) as (Hl & Hnd1 & Hiff).
    cbn [setInterval fst snd active nextHandle gameLoopInterval room clearInterval] in *.
    split; [split|].
    + constructor; [|exact Hnd1]. intros Hc. apply Hiff in Hc.
      destruct Hc as [Hc _]. apply Hbound in Hc. lia.
    + intros k [<- | Hk]; [lia|]. apply Hiff in Hk. destruct Hk as [Hk _].
      apply Hbound in Hk. lia.
    + split; [lia|]. split.
      { intros k [= <-]. split; [now left | lia]. }
      split.
      { intros k Hk. right. apply Hiff. split; [now apply Hkeep|].
        apply Hold in Hk. lia. }
      split; [cbn [List.length]; lia | reflexivity].
  - cbn [setInterval fst snd active nextHandle gameLoopInterval room] in *.
    split; [split|].
    + constructor; [|exact Hnd]. intros Hc. apply Hbound in Hc. lia.
    + intros k [<- | Hk]; [lia|]. apply Hbound in Hk. lia.
    + split; [lia|]. split.
      { intros k [= <-]. split; [now left | lia]. }
      split; [intros k Hk; right; now apply Hkeep|].
      split; [cbn [List.length]; lia | reflexivity].
Qed.

Lemma loopInv_stop (ts0 : Timers) (lr : LoopRoom) (ts : Timers) :
  loopInv ts0 (lr, ts) -> loopInv ts0 (stopGameLoop lr ts).
Proof.
  unfold loopInv. cbn [fst snd].
  intros (H0 & (Hnd & Hbound) & Hnext & Hown & Hkeep & Hlen & Hplay).
  split; [exact H0|]. destruct H0 as [_ Hold].
  unfold stopGameLoop, ownTimers, timersOK in *.
  destruct (gameLoopInterval lr) as [h|] eqn:Hh.
  - destruct (Hown h eq_refl) as [Hin Hge].
    destruct (clearInterval_active h ts Hnd Hin) as (Hl & Hnd1 & Hiff).
    cbn [fst snd gameLoopInterval room] in *.
    split; [split; [exact Hnd1|]|].
    + intros k Hk. apply Hiff in Hk. destruct Hk as [Hk _]. now apply Hbound.
    + split; [exact Hnext|]. split; [discriminate|]. split.
      { intros k Hk. apply Hiff. split; [now apply Hkeep|]. apply Hold in Hk. lia. }
      split; [lia | reflexivity].
  - cbn [fst snd gameLoopInterval room] in *.
    split; [split; assumption|]. split; [exact Hnext|]. split; [discriminate|].
    split; [exact Hkeep|]. split; [lia | reflexivity].
Qed.

Lemma loopInv_calls (ts0 : Timers) (cs : list LoopCall) :
  forall st, loopInv ts0 st -> loopInv ts0 (loopCalls cs st).
Proof.
  unfold loopCalls. induction cs as [|c tl IH]; intros st H; cbn [fold_left]; [exact H|].
  apply IH. destruct st as [lr ts]. destruct c; cbn [loopCall fst snd].
  - now apply loopInv_start.
  - now apply loopInv_stop.
Qed.

Lemma set_isPlaying_same (r : GameRoom) : set_isPlaying r (isPlaying r) = r.
Proof. now destruct r. Qed.

(** X20.  A room never stacks timers.  Start from a stopped room (no handle,
    not playing) and well-formed timers.  After any history of
    [startGameLoop] and [stopGameLoop] calls the timers that were active at
    the start are still active, and the only other active timer is the
    room's own: one if the room is playing, none if it is not.  And
    [stopGameLoop] on a stopped room changes nothing. *)
Theorem game_loop_single_timer (lr : LoopRoom) (ts : Timers) (cs : list LoopCall) :
  gameLoopInterval lr = None -> isPlaying (room lr) = false -> timersOK ts ->
  stopGameLoop lr ts = (lr, ts) /\
  (forall h, In h (active ts) -> In h (active (snd (loopCalls cs (lr, ts))))) /\
  List.length (active (snd (loopCalls cs (lr, ts))))
  = (List.length (active ts)
     + if isPlaying (room (fst (loopCalls cs (lr, ts)))) then 1 else 0)%nat /\
  (isPlaying (room (fst (loopCalls cs (lr, ts)))) = true <->
   exists h, gameLoopInterval (fst (loopCalls cs (lr, ts))) = Some h /\
             In h (active (snd (loopCalls cs (lr, ts))))).
Proof.
  intros Hnone Hstopped Hok. split.
  - unfold stopGameLoop. rewrite Hnone. rewrite <- Hstopped, set_isPlaying_same.
    destruct lr as [r g]. cbn in *. now subst g.
  - assert (Hinit : loopInv ts (lr, ts)).
    { unfold loopInv, ownTimers. cbn [fst snd]. rewrite Hnone, Hstopped.
      repeat split; try apply Hok; try lia; try discriminate; auto. }
    pose proof (loopInv_calls ts cs (lr, ts) Hinit) as (_ & _ & _ & Hown & Hkeep & Hlen & Hplay).
    unfold ownTimers in Hlen.
    split; [exact Hkeep|]. split.
    + rewrite Hlen, Hplay.
      destruct (gameLoopInterval (fst (loopCalls cs (lr, ts)))); reflexivity.
    + rewrite Hplay.
      destruct (gameLoopInterval (fst (loopCalls cs (lr, ts)))) as [h|] eqn:Hh.
      * split; [|reflexivity]. intros _. exists h. split; [reflexivity|]. now apply Hown.
      * split; [discriminate|]. intros (h & Hc & _). discriminate.
Qed.

Lemma game_loop_single_timer_witness :
  List.length
    (active (snd (loopCalls [CallStart 0; CallStart 5; CallStop; CallStart 9]
                            (mkLoopRoom (newGameRoom "ROOM01" (newPlayer "a" "a" 0) 0) None,
                             mkTimers [3; 1]%nat 4))))
  = (2 + if isPlaying
              (room (fst (loopCalls [CallStart 0; CallStart 5; CallStop; CallStart 9]
                            (mkLoopRoom (newGameRoom "ROOM01" (newPlayer "a" "a" 0) 0) None,
                             mkTimers [3; 1]%nat 4))))
         then 1 else 0)%nat.
Proof.
  apply (game_loop_single_timer
           (mkLoopRoom (newGameRoom "ROOM01" (newPlayer "a" "a" 0) 0) None)
           (mkTimers [3; 1]%nat 4)
           [CallStart 0; CallStart 5; CallStop; CallStart 9]).
  - reflexivity.
  - reflexivity.
  - split.
    + repeat constructor; cbn; intuition lia.
    + cbn. intros h [<- | [<- | []]]; lia.
Defined.

(** * Room codes *)

Lemma string_length_append (a b : string) :
  String.length (String.append a b) = (String.length a + String.length b)%nat.
Proof. induction a as [|c a IH]; cbn; [reflexivity | now rewrite IH]. Qed.

Lemma list_ascii_of_string_append (a b : string) :
  list_ascii_of_string (String.append a b) = (list_ascii_of_string a ++ list_ascii_of_string b)%list.
Proof. induction a as [|c a IH]; cbn; [reflexivity | now rewrite IH]. Qed.

(** A draw in [0, 1) picks one character of the alphabet. *)
Lemma charAt_random (v : R) :
  0 <= v < 1 ->
  exists c, charAt roomCodeChars
                   (Math_floor (v * IZR (Z.of_nat (String.length roomCodeChars))))
            = String c EmptyString /\
            In c (list_ascii_of_string roomCodeChars).
Proof.
  intros Hv. change (Z.of_nat (String.length roomCodeChars)) with 36%Z.
  unfold Math_floor. destruct (base_Int_part (v * 36)) as [Hlo Hhi].
  set (n := Int_part (v * 36)) in *.
  assert (Hn : (0 <= n < 36)%Z).
  { split.
    - apply Z.lt_succ_r. apply lt_IZR. rewrite succ_IZR. lra.
    - apply lt_IZR. lra. }
  unfold charAt. destruct (Z.ltb_spec n 0) as [Hneg | _]; [lia|].
  assert (Hk : (Z.to_nat n < 36)%nat) by lia.
  generalize dependent (Z.to_nat n). intros k Hk. clear - Hk.
  do 36 (destruct k as [|k];
         [eexists; split; [reflexivity | cbn; tauto]|]).
  lia.
Qed.

Lemma generateRoomCodeFrom_spec (random : nat -> R) (count : nat) :
  forall i result,
    (forall j, (i <= j < i + count)%nat -> 0 <= random j < 1) ->
    String.length (generateRoomCodeFrom random i count result)
      = (String.length result + count)%nat /\
    (Forall (fun c => In c (list_ascii_of_string roomCodeChars))
            (list_ascii_of_string result) ->
     Forall (fun c => In c (list_ascii_of_string roomCodeChars))
            (list_ascii_of_string (generateRoomCodeFrom random i count result))).
Proof.
  induction count as [|count IH]; intros i result Hr; cbn [generateRoomCodeFrom].
  - split; [lia | auto].
  - destruct (charAt_random (random i)) as (c & Hc & Hin); [apply Hr; lia|].
    rewrite Hc.
    destruct (IH (S i) (String.append result (String c EmptyString))) as [Hlen Hall];
      [intros j Hj; apply Hr; lia|].
    split.
    + rewrite Hlen, string_length_append. cbn. lia.
    + intros Hres. apply Hall. rewrite list_ascii_of_string_append.
      apply Forall_app. split; [exact Hres|]. cbn. now constructor.
Qed.

(** X21.  As long as [Math.random()] returns values in [0, 1), a generated
    room code has exactly 6 characters, each of them one of the 36
    characters A-Z, 0-9. *)
Theorem generateRoomCode_six_alphanumerics (random : nat -> R) :
  (forall j, (j < 6)%nat -> 0 <= random j < 1) ->
  String.length (generateRoomCode random) = 6%nat /\
  Forall (fun c => In c (list_ascii_of_string roomCodeChars))
         (list_ascii_of_string (generateRoomCode random)).
Proof.
  intros Hr. unfold generateRoomCode.
  destruct (generateRoomCodeFrom_spec random 6 0 EmptyString) as [Hlen Hall].
  - intros j Hj. apply Hr. lia.
  - split; [exact Hlen | apply Hall; constructor].
Qed.

Lemma generateRoomCode_six_alphanumerics_witness :
  String.length (generateRoomCode (fun j => IZR (Z.of_nat j) / 6)) = 6%nat.
Proof.
  apply (generateRoomCode_six_alphanumerics (fun j => IZR (Z.of_nat j) / 6)).
  intros j Hj.
  do 6 (destruct j as [|j]; [cbn; lra|]). lia.
Defined.

(** * The client's offline tick *)

(** X22.  For a room whose only player is teamed and active, the client's
    offline tick for that player, over the same time, computes what the
    server's tick computes: the same ball and the same score after the
    whole tick, and the same player as the server has after its collision
    pass.  (What differs is a goal: the server then also puts the player on
    its kickoff spot, the client does not.) *)
Theorem updateOfflinePhysics_agrees_with_server (clock : nat -> Z) (r : GameRoom)
        (p : Player) :
  players r = [p] -> team p <> None -> isActive (clock 1%nat) p = true ->
  let c := mkClientState [toData p] (ball (gameState r)) (score (gameState r)) in
  let c' := updateOfflinePhysics (id p) (input p) (IZR (tickDelta clock r)) c in
  client_ball c' = ball (gameState (updateGame clock r)) /\
  client_score c' = score (gameState (updateGame clock r)) /\
  client_players c' = map toData (players (collisionPhase (motionPhase clock r))) /\
  (checkGoal (ball (gameState (collisionPhase (motionPhase clock r)))) = None ->
   client_players c' = map toData (players (updateGame clock r))).
Proof.
  intros Hps Ht Hact. cbv zeta.
  destruct (team p) as [t|] eqn:Hteam; [clear Ht | contradiction].
  assert (Hmotion : updatePlayers clock 1 (tickDt clock r) [p]
                    = [set_body p (updatePlayer (body p) (input p) (tickDt clock r))]).
  { cbn [updatePlayers]. rewrite Hteam, Hact. reflexivity. }
  unfold updateOfflinePhysics, updateGame, goalPhase, collisionPhase, motionPhase, getData,
    checkCollisions.
  fold (tickDt clock r).
  rewrite Hps, Hmotion.
  cbv [find toData modifyData set_data_body set_players set_gameState
       collideBall clientCollideBall collideWithBall set_body].
  cbn [client_players client_ball client_score data_id data_body data_nickname data_team
       players gameState ball score gameTime lastUpdate team body
       id nickname playerScore input lastSeen code isPlaying redTeamCount blueTeamCount].
  rewrite !String.eqb_refl, ?Hteam.
  cbn [client_players client_ball client_score data_id data_body data_nickname data_team
       players gameState ball score gameTime lastUpdate team body
       id nickname playerScore input lastSeen code isPlaying redTeamCount blueTeamCount].
  destruct (checkCollision (updatePlayer (body p) (input p) (tickDt clock r))
                           (updateBall (ball (gameState r)) (tickDt clock r)) 15 10).
  - destruct (resolveCollision _ _ 15 10 1 0.5) as [o1 o2].
    cbv [collidePlayers collidePlayersFuel List.length collideWithRest].
    cbn [team players gameState ball score]. rewrite ?Hteam.
    cbn [team players gameState ball score].
    destruct (checkGoal o2);
      (split; [reflexivity | split; [reflexivity | split;
         [reflexivity | intro HG; first [discriminate HG | reflexivity]]]]).
  - cbv [collidePlayers collidePlayersFuel List.length collideWithRest].
    cbn [team players gameState ball score]. rewrite ?Hteam.
    cbn [team players gameState ball score].
    destruct (checkGoal (updateBall (ball (gameState r)) (tickDt clock r)));
      (split; [reflexivity | split; [reflexivity | split;
         [reflexivity | intro HG; first [discriminate HG | reflexivity]]]]).
Qed.

Lemma updateOfflinePhysics_agrees_with_server_witness :
  client_ball
    (updateOfflinePhysics "a" (mkInput false false false true) (IZR 17)
       (mkClientState [toData (mkPlayer "a" "a" (mkBody 100 200 0 0) (Some Red) 0
                                        (mkInput false false false true) 1000)]
                      (mkBody 400 200 0 0) (mkScore 0 0)))
  = ball (gameState
            (updateGame wallClock
               (mkGameRoom "ROOM01"
                  [mkPlayer "a" "a" (mkBody 100 200 0 0) (Some Red) 0
                            (mkInput false false false true) 1000]
                  true (mkGameState (mkBody 400 200 0 0) (mkScore 0 0) 0 1000) 1 0))).
Proof.
  apply (updateOfflinePhysics_agrees_with_server wallClock
           (mkGameRoom "ROOM01"
              [mkPlayer "a" "a" (mkBody 100 200 0 0) (Some Red) 0
                        (mkInput false false false true) 1000]
              true (mkGameState (mkBody 400 200 0 0) (mkScore 0 0) 0 1000) 1 0)
           (mkPlayer "a" "a" (mkBody 100 200 0 0) (Some Red) 0
                     (mkInput false false false true) 1000)).
  - reflexivity.
  - discriminate.
  - reflexivity.
Defined.

(** * The snapshot's rounding in double arithmetic *)

(** ** Powers of two *)

Lemma Rabs_bound (x y : R) : Rabs x <= y -> - y <= x <= y.
Proof. unfold Rabs. destruct (Rcase_abs x); lra. Qed.


Lemma bpow_pos (e : Z) : 0 < bpow e.
Proof. apply powerRZ_lt. lra. Qed.

Lemma bpow_add (a b : Z) : bpow (a + b) = bpow a * bpow b.
Proof. apply powerRZ_add. lra. Qed.

Lemma bpow_0 : bpow 0 = 1.
Proof. reflexivity. Qed.

Lemma bpow_Z (e : Z) : (0 <= e)%Z -> bpow e = IZR (2 ^ e).
Proof.
  intro He. unfold bpow.
  rewrite <- (Z2Nat.id e He) at 1. rewrite <- pow_powerRZ.
  rewrite pow_IZR. now rewrite Z2Nat.id.
Qed.

Lemma bpow_opp (e : Z) : bpow (- e) = / bpow e.
Proof. apply powerRZ_neg'. Qed.

Lemma bpow_le (a b : Z) : (a <= b)%Z -> bpow a <= bpow b.
Proof.
  intro H. replace b with (a + (b - a))%Z by lia.
  rewrite bpow_add, (bpow_Z (b - a)) by lia.
  assert (1 <= 2 ^ (b - a))%Z by (apply (Z.pow_le_mono_r 2 0); lia).
  apply IZR_le in H0. pose proof (bpow_pos a). nra.
Qed.

Lemma bpow_lt (a b : Z) : (a < b)%Z -> bpow a < bpow b.
Proof.
  intro H. replace b with (a + (b - a))%Z by lia.
  rewrite bpow_add, (bpow_Z (b - a)) by lia.
  assert (2 <= 2 ^ (b - a))%Z by (apply (Z.pow_le_mono_r 2 1); lia).
  apply IZR_le in H0. pose proof (bpow_pos a). nra.
Qed.

Lemma bpow_lt_inv (a b : Z) : bpow a < bpow b -> (a < b)%Z.
Proof.
  intro H. destruct (Z_lt_le_dec a b) as [|Hle]; [assumption|].
  apply bpow_le in Hle. lra.
Qed.

Lemma bpow_le_inv (a b : Z) : bpow a <= bpow b -> (a <= b)%Z.
Proof.
  intro H. destruct (Z_le_gt_dec a b) as [|Hgt]; [assumption|].
  assert (b < a)%Z as Hlt by lia. apply bpow_lt in Hlt. lra.
Qed.

Lemma bpow_succ (e : Z) : bpow (e + 1) = 2 * bpow e.
Proof. rewrite bpow_add. change (bpow 1) with (2 * 1). lra. Qed.

Lemma bpow_pred (e : Z) : bpow (e - 1) = bpow e / 2.
Proof.
  replace e with ((e - 1) + 1)%Z at 2 by lia. rewrite bpow_succ. lra.
Qed.

(** ** The number of digits of a mantissa *)

Lemma digits2_pos_bounds (p : positive) :
  (2 ^ (Zpos (digits2_pos p) - 1) <= Zpos p < 2 ^ Zpos (digits2_pos p))%Z.
Proof.
  induction p as [p IH|p IH|]; cbn [digits2_pos].
  - rewrite Pos2Z.inj_succ.
    replace (Z.succ (Zpos (digits2_pos p)) - 1)%Z with (Z.succ (Zpos (digits2_pos p) - 1))%Z
      by lia.
    rewrite !Z.pow_succ_r by lia. lia.
  - rewrite Pos2Z.inj_succ.
    replace (Z.succ (Zpos (digits2_pos p)) - 1)%Z with (Z.succ (Zpos (digits2_pos p) - 1))%Z
      by lia.
    rewrite !Z.pow_succ_r by lia. lia.
  - cbn. lia.
Qed.

Lemma Zdigits2_bounds (m : Z) :
  (0 < m)%Z -> (2 ^ (Zdigits2 m - 1) <= m < 2 ^ Zdigits2 m)%Z /\ (0 < Zdigits2 m)%Z.
Proof.
  destruct m as [|p|p]; try lia. intros _. split; [apply digits2_pos_bounds|].
  cbn. lia.
Qed.

Lemma Zdigits2_le (m k : Z) : (0 <= m < 2 ^ k)%Z -> (0 <= k)%Z -> (Zdigits2 m <= k)%Z.
Proof.
  intros [H0 Hk] Hk0. destruct (Z.eq_dec m 0) as [->|Hne]; [cbn; lia|].
  destruct (Zdigits2_bounds m) as [[Hlo _] Hpos]; [lia|].
  assert (2 ^ (Zdigits2 m - 1) < 2 ^ k)%Z as Hlt by lia.
  apply Z.pow_lt_mono_r_iff in Hlt; lia.
Qed.

Lemma Zdigits2_ge (m k : Z) : (2 ^ k <= m)%Z -> (0 <= k)%Z -> (k < Zdigits2 m)%Z.
Proof.
  intros Hk Hk0. assert (0 < 2 ^ k)%Z by (apply Z.pow_pos_nonneg; lia).
  destruct (Zdigits2_bounds m) as [[_ Hhi] Hpos]; [lia|].
  assert (2 ^ k < 2 ^ Zdigits2 m)%Z as Hlt by lia.
  apply Z.pow_lt_mono_r_iff in Hlt; lia.
Qed.

(** ** Shifting a located number *)

Lemma iter_pos_nat {A : Type} (f : A -> A) (p : positive) (x : A) :
  iter_pos f p x = Nat.iter (Pos.to_nat p) f x.
Proof.
  revert x. induction p as [p IH|p IH|]; intro x; cbn [iter_pos].
  - rewrite !IH, Pos2Nat.inj_xI.
    replace (S (2 * Pos.to_nat p)) with (Pos.to_nat p + (Pos.to_nat p + 1))%nat by lia.
    rewrite !Nat.iter_add. reflexivity.
  - rewrite !IH, Pos2Nat.inj_xO.
    replace (2 * Pos.to_nat p)%nat with (Pos.to_nat p + Pos.to_nat p)%nat by lia.
    rewrite Nat.iter_add. reflexivity.
  - reflexivity.
Qed.

Lemma shr_1_locates (mrs : shr_record) (t : R) :
  locates mrs t -> locates (shr_1 mrs) (t / 2).
Proof.
  destruct mrs as [m r s]. unfold locates. cbn [shr_m shr_r shr_s].
  intros (Hm & Ht & Hr & Hs).
  destruct m as [|[p|p|]|p]; try lia; cbn [shr_1 shr_m shr_r shr_s].
  - split; [lia|]. split; [lra|]. split; [lra|].
    destruct r, s; cbn [orb]; try (split; intro; lra);
      try (destruct Hs; [left|]; lra); try (destruct Hs; lra).
  - assert (E : IZR (Zpos p~1) = 2 * IZR (Zpos p) + 1)
      by (change (Zpos p~1) with (2 * Zpos p + 1)%Z; rewrite plus_IZR, mult_IZR; reflexivity).
    rewrite E in *. generalize dependent (IZR (Zpos p)). intros q Ht Hr Hs.
    split; [lia|]. split; [lra|]. split; [lra|].
    destruct r, s; cbn [orb]; try (split; intro; lra);
      try (destruct Hs; [right|]; lra); try (destruct Hs; lra).
  - assert (E : IZR (Zpos p~0) = 2 * IZR (Zpos p))
      by (change (Zpos p~0) with (2 * Zpos p)%Z; rewrite mult_IZR; reflexivity).
    rewrite E in *. generalize dependent (IZR (Zpos p)). intros q Ht Hr Hs.
    split; [lia|]. split; [lra|]. split; [lra|].
    destruct r, s; cbn [orb]; try (split; intro; lra);
      try (destruct Hs; [left|]; lra); try (destruct Hs; lra).
  - split; [lia|]. split; [lra|]. split; [lra|].
    destruct r, s; cbn [orb]; try (split; intro; lra);
      try (destruct Hs; [right|]; lra); try (destruct Hs; lra).
Qed.

Lemma iter_shr_1_locates (k : nat) (mrs : shr_record) (t : R) :
  locates mrs t -> locates (Nat.iter k shr_1 mrs) (t * bpow (- Z.of_nat k)).
Proof.
  intro H. induction k as [|k IH].
  - cbn [Nat.iter Z.of_nat Z.opp]. rewrite bpow_0, Rmult_1_r. exact H.
  - cbn [Nat.iter].
    replace (t * bpow (- Z.of_nat (S k))) with (t * bpow (- Z.of_nat k) / 2).
    + apply shr_1_locates, IH.
    + rewrite Nat2Z.inj_succ.
      replace (- Z.succ (Z.of_nat k))%Z with (- Z.of_nat k - 1)%Z by lia.
      rewrite bpow_pred. lra.
Qed.

Lemma shr_locates (mrs : shr_record) (e n : Z) (t : R) :
  locates mrs t ->
  locates (fst (shr mrs e n)) (t * bpow (e - snd (shr mrs e n))) /\
  snd (shr mrs e n) = Z.max e (e + n).
Proof.
  intro H. destruct n as [|p|p]; cbn [shr fst snd].
  - rewrite Z.sub_diag, bpow_0, Rmult_1_r. split; [exact H | lia].
  - split; [|lia]. rewrite iter_pos_nat.
    replace (e - (e + Zpos p))%Z with (- Z.of_nat (Pos.to_nat p))%Z
      by (rewrite positive_nat_Z; lia).
    now apply iter_shr_1_locates.
  - rewrite Z.sub_diag, bpow_0, Rmult_1_r. split; [exact H | lia].
Qed.

Lemma shr_record_of_loc_m (m : Z) (l : location) : shr_m (shr_record_of_loc m l) = m.
Proof. destruct l as [|[| |]]; reflexivity. Qed.

Lemma locates_exact (m : Z) : (0 <= m)%Z -> locates (shr_record_of_loc m loc_Exact) (IZR m).
Proof.
  intro H. unfold locates. cbn [shr_record_of_loc shr_m shr_r shr_s].
  split; [exact H|]. split; [lra|]. split; [lra|]. now left.
Qed.

(** ** Rounding to nearest, ties to even *)

Lemma round_nearest_even_locates (mrs : shr_record) (t : R) :
  locates mrs t ->
  (shr_m mrs <= round_nearest_even (shr_m mrs) (loc_of_shr_record mrs) <= shr_m mrs + 1)%Z /\
  Rabs (IZR (round_nearest_even (shr_m mrs) (loc_of_shr_record mrs)) - t) <= / 2.
Proof.
  destruct mrs as [m r s]. unfold locates. cbn [shr_m shr_r shr_s].
  intros (Hm & Ht & Hr & Hs).
  destruct r, s; cbn [loc_of_shr_record round_nearest_even].
  - split; [lia|]. rewrite plus_IZR. apply Rabs_le. lra.
  - assert (Et : t = IZR m + / 2) by (destruct Hs; lra).
    destruct (Z.even m); (split; [lia|]); rewrite ?plus_IZR; apply Rabs_le; lra.
  - split; [lia|]. apply Rabs_le. lra.
  - split; [lia|]. apply Rabs_le. lra.
Qed.

Lemma binary_round_aux_eq (s : bool) (mx ex : Z) (lx : location) :
  binary_round_aux 53 1024 s mx ex lx =
  let r1 := shr_fexp 53 1024 mx ex lx in
  let m1 := round_nearest_even (shr_m (fst r1)) (loc_of_shr_record (fst r1)) in
  let r2 := shr_fexp 53 1024 m1 (snd r1) loc_Exact in
  match shr_m (fst r2) with
  | Z0 => S754_zero s
  | Zpos m => if (snd r2 <=? 1024 - 53)%Z then S754_finite s m (snd r2) else S754_infinity s
  | Zneg _ => S754_nan
  end.
Proof.
  unfold binary_round_aux. destruct (shr_fexp 53 1024 mx ex lx) as [mrs1 e1].
  cbn [fst snd].
  destruct (shr_fexp 53 1024 _ e1 loc_Exact) as [mrs2 e2]. reflexivity.
Qed.

Lemma fexp_ge (k : Z) : (k - 53 <= fexp 53 1024 k)%Z /\ (-1074 <= fexp 53 1024 k)%Z.
Proof. unfold fexp, emin. lia. Qed.

Lemma fexp_cases (k : Z) :
  (fexp 53 1024 k = (k - 53)%Z /\ (-1074 <= k - 53)%Z) \/
  (fexp 53 1024 k = (-1074)%Z /\ (k - 53 < -1074)%Z).
Proof. unfold fexp, emin. lia. Qed.

Lemma signed_value (s : bool) (m : positive) (e : Z) :
  double_value (S754_finite s m e)
  = if s then - (IZR (Zpos m) * bpow e) else IZR (Zpos m) * bpow e.
Proof.
  unfold double_value. destruct s; cbn [cond_Zopp].
  - change (- Zpos m)%Z with (Z.opp (Zpos m)). rewrite opp_IZR. lra.
  - reflexivity.
Qed.

(** [binary_round_aux] gives a finite double within half a unit, at the
    exponent it rounds at, of the number located. *)
Lemma binary_round_aux_correct (s : bool) (mx ex : Z) (lx : location) (t : R) :
  locates (shr_record_of_loc mx lx) t ->
  (round_exponent mx ex < 971)%Z ->
  exists a : R,
    double_value (binary_round_aux 53 1024 s mx ex lx) = (if s then - a else a) /\
    double_finite (binary_round_aux 53 1024 s mx ex lx) = true /\
    double_53 (binary_round_aux 53 1024 s mx ex lx) /\
    0 <= a /\
    Rabs (a - t * bpow ex) <= bpow (round_exponent mx ex) / 2 /\
    (t = IZR mx -> round_exponent mx ex = ex -> a = t * bpow ex).
Proof.
  intros Hloc Hov. rewrite binary_round_aux_eq. cbv zeta.
  unfold shr_fexp.
  destruct (shr_locates _ ex (fexp 53 1024 (Zdigits2 mx + ex) - ex) t Hloc) as [H1 He1].
  set (r1 := shr (shr_record_of_loc mx lx) ex (fexp 53 1024 (Zdigits2 mx + ex) - ex)) in *.
  assert (Ee1 : snd r1 = round_exponent mx ex) by (unfold round_exponent; rewrite He1; lia).
  clear He1. set (e1 := snd r1) in *.
  set (t1 := t * bpow (ex - e1)) in *.
  destruct (round_nearest_even_locates _ _ H1) as [Hm' Hr'].
  set (m' := round_nearest_even (shr_m (fst r1)) (loc_of_shr_record (fst r1))) in *.
  destruct H1 as (Hm1 & Ht1 & _ & _).
  (* the kept mantissa fits 53 bits *)
  assert (Hmx : (0 <= mx)%Z)
    by (destruct Hloc as [Hmx _]; now rewrite shr_record_of_loc_m in Hmx).
  assert (Htx : t < bpow (Zdigits2 mx)).
  { destruct Hloc as (_ & Ht & _). rewrite shr_record_of_loc_m in Ht.
    destruct (Z.eq_dec mx 0) as [->|Hne].
    - cbn [Zdigits2]. rewrite bpow_0. cbn in Ht. lra.
    - destruct (Zdigits2_bounds mx) as [[_ Hhi] Hd]; [lia|].
      rewrite bpow_Z by lia.
      assert (mx + 1 <= 2 ^ Zdigits2 mx)%Z as Hle by lia.
      apply IZR_le in Hle. rewrite plus_IZR in Hle. lra. }
  assert (Ht0 : 0 <= t).
  { destruct Hloc as (_ & Ht & _). rewrite shr_record_of_loc_m in Ht.
    apply IZR_le in Hmx. lra. }
  assert (He1lo : (Zdigits2 mx + ex - 53 <= e1)%Z /\ (-1074 <= e1)%Z /\ (ex <= e1)%Z).
  { rewrite Ee1. unfold round_exponent.
    pose proof (fexp_ge (Zdigits2 mx + ex)). lia. }
  assert (Hm1hi : (shr_m (fst r1) < 2 ^ 53)%Z).
  { apply lt_IZR. rewrite <- bpow_Z by lia.
    apply Rle_lt_trans with t1; [apply Ht1|].
    apply Rlt_le_trans with (bpow (Zdigits2 mx) * bpow (ex - e1)).
    - unfold t1. apply Rmult_lt_compat_r; [apply bpow_pos | exact Htx].
    - rewrite <- bpow_add. apply bpow_le. lia. }
  assert (Hval : t1 * bpow e1 = t * bpow ex).
  { unfold t1. rewrite Rmult_assoc, <- bpow_add. f_equal. f_equal. lia. }
  exists (IZR m' * bpow e1).
  assert (Ha0 : 0 <= IZR m' * bpow e1).
  { apply Rmult_le_pos; [apply IZR_le; lia | apply Rlt_le, bpow_pos]. }
  assert (Herr : Rabs (IZR m' * bpow e1 - t * bpow ex) <= bpow (round_exponent mx ex) / 2).
  { rewrite <- Hval, <- Rmult_minus_distr_r, Rabs_mult, <- Ee1.
    fold e1. rewrite (Rabs_pos_eq (bpow e1)) by apply Rlt_le, bpow_pos.
    pose proof (bpow_pos e1). nra. }
  assert (Hexact : t = IZR mx -> round_exponent mx ex = ex -> IZR m' * bpow e1 = t * bpow ex).
  { intros Et Eex. rewrite <- Hval. f_equal.
    assert (e1 = ex) as E by lia.
    assert (Et1 : t1 = IZR mx) by (unfold t1; rewrite E, Z.sub_diag, bpow_0; lra).
    rewrite Et1 in *.
    assert (shr_m (fst r1) = mx) as Em1.
    { apply eq_IZR. apply Rle_antisym; [lra|].
      apply IZR_le. apply Z.lt_succ_r. apply lt_IZR. rewrite succ_IZR. lra. }
    rewrite Em1 in Hm'.
    destruct (Z.eq_dec m' mx) as [->|Hne]; [reflexivity|].
    assert (m' = mx + 1)%Z as -> by lia.
    rewrite plus_IZR in Hr'. apply Rabs_bound in Hr'. lra. }
  destruct (Z_lt_le_dec m' (2 ^ 53)) as [Hlt|Hge].
  - (* no second shift *)
    assert (Hn2 : (fexp 53 1024 (Zdigits2 m' + e1) - e1 <= 0)%Z).
    { assert (Zdigits2 m' <= 53)%Z by (apply Zdigits2_le; lia).
      unfold fexp, emin. lia. }
    assert (Eshr : shr (shr_record_of_loc m' loc_Exact) e1
                       (fexp 53 1024 (Zdigits2 m' + e1) - e1)
                   = (shr_record_of_loc m' loc_Exact, e1)).
    { destruct (fexp 53 1024 (Zdigits2 m' + e1) - e1)%Z; try reflexivity. lia. }
    rewrite Eshr. cbn [fst snd shr_record_of_loc shr_m].
    destruct m' as [|p|p] eqn:Em'; try lia.
    + cbn [double_value double_finite double_53].
      repeat split; try assumption. destruct s; cbn; lra.
    + assert ((e1 <=? 1024 - 53)%Z = true) as -> by (apply Z.leb_le; lia).
      rewrite signed_value. cbn [double_finite double_53].
      repeat split; try assumption.
  - (* the mantissa carried into a 54th bit *)
    assert (Em' : m' = (2 ^ 53)%Z) by lia.
    assert (Ed : Zdigits2 (2 ^ 53) = 54%Z) by reflexivity.
    assert (En2 : (fexp 53 1024 (54 + e1) - e1 = 1)%Z) by (unfold fexp, emin; lia).
    assert (Eshr : shr (shr_record_of_loc m' loc_Exact) e1
                       (fexp 53 1024 (Zdigits2 m' + e1) - e1)
                   = ({| shr_m := 2 ^ 52; shr_r := false; shr_s := false |}, (e1 + 1)%Z)).
    { rewrite Em', Ed, En2. reflexivity. }
    rewrite Eshr.
    cbn [fst snd shr_m].
    change (2 ^ 52)%Z with (Zpos (2 ^ 52)).
    cbv iota beta.
    assert ((e1 + 1 <=? 1024 - 53)%Z = true) as -> by (apply Z.leb_le; lia).
    rewrite signed_value. cbn [double_finite double_53].
    assert (Ev : IZR (Zpos (2 ^ 52)) * bpow (e1 + 1) = IZR m' * bpow e1).
    { rewrite Em', bpow_succ. change (2 ^ 53)%Z with (2 * Zpos (2 ^ 52))%Z.
      rewrite mult_IZR. lra. }
    clearbody m'.
    rewrite Ev. repeat split; try assumption.
Qed.

(** Where the mantissa has at least 53 bits, half a unit at the rounding
    exponent is a relative error of [2^-53], or the smallest one a double
    can show. *)
Lemma half_ulp_relative (mx ex : Z) :
  (2 ^ 52 <= mx)%Z ->
  (round_exponent mx ex = (Zdigits2 mx + ex - 53)%Z /\
   bpow (round_exponent mx ex) / 2 <= IZR mx * bpow ex * bpow (-53)) \/
  (round_exponent mx ex = (-1074)%Z /\ (Zdigits2 mx + ex - 53 < -1074)%Z).
Proof.
  intro Hmx.
  assert (Hd : (52 < Zdigits2 mx)%Z) by (apply Zdigits2_ge; lia).
  destruct (Zdigits2_bounds mx) as [[Hlo _] _]; [lia|].
  unfold round_exponent.
  destruct (fexp_cases (Zdigits2 mx + ex)) as [[E Hn]|[E Hs]]; rewrite E.
  - left. assert (Z.max ex (Zdigits2 mx + ex - 53) = Zdigits2 mx + ex - 53)%Z as -> by lia.
    split; [reflexivity|].
    replace (Zdigits2 mx + ex - 53)%Z with ((Zdigits2 mx - 1) + ex + (-53) + 1)%Z by lia.
    rewrite bpow_succ, !bpow_add, (bpow_Z (Zdigits2 mx - 1)) by lia.
    apply IZR_le in Hlo.
    pose proof (bpow_pos ex). pose proof (bpow_pos (-53)).
    assert (0 < bpow ex * bpow (-53)) by nra. nra.
  - right. split; lia.
Qed.

Lemma double_100 : double_of_Z 100 = S754_finite false 7036874417766400 (-46).
Proof. reflexivity. Qed.

Lemma bpow_m46 : IZR 7036874417766400 * bpow (-46) = 100.
Proof.
  change (-46)%Z with (Z.opp 46). rewrite bpow_opp, bpow_Z by lia.
  change (2 ^ 46)%Z with 70368744177664%Z. lra.
Qed.

Lemma value_magnitude (s : bool) (m : positive) (e : Z) :
  Rabs (double_value (S754_finite s m e)) = IZR (Zpos m) * bpow e.
Proof.
  rewrite signed_value.
  assert (0 < IZR (Zpos m) * bpow e).
  { apply Rmult_lt_0_compat; [apply IZR_lt; lia | apply bpow_pos]. }
  destruct s; [rewrite Rabs_Ropp|]; apply Rabs_pos_eq; lra.
Qed.

(** The magnitude of a finite double bounds its digits and exponent. *)
Lemma magnitude_exponent (m : positive) (e k : Z) :
  IZR (Zpos m) * bpow e <= bpow k -> (Zdigits2 (Zpos m) + e <= k + 1)%Z /\ (e <= k)%Z.
Proof.
  intro H. destruct (Zdigits2_bounds (Zpos m)) as [[Hlo _] Hd]; [lia|].
  apply IZR_le in Hlo. rewrite <- bpow_Z in Hlo by lia.
  pose proof (bpow_pos e).
  split.
  - assert (bpow (Zdigits2 (Zpos m) - 1 + e) <= bpow k) as Hle.
    { rewrite bpow_add. apply Rle_trans with (IZR (Zpos m) * bpow e); [nra | exact H]. }
    apply bpow_le_inv in Hle. lia.
  - apply bpow_le_inv. apply Rle_trans with (IZR (Zpos m) * bpow e); [|exact H].
    assert (1 <= IZR (Zpos m)) by (apply IZR_le; lia). nra.
Qed.

(** The double product by 100. *)
Lemma double_mul_100 (v : double) :
  double_finite v = true -> Rabs (double_value v) <= bpow 50 ->
  double_finite (double_mul v (double_of_Z 100)) = true /\
  double_53 (double_mul v (double_of_Z 100)) /\
  Rabs (double_value (double_mul v (double_of_Z 100)) - 100 * double_value v)
  <= Rabs (100 * double_value v) * bpow (-53) + bpow (-1075).
Proof.
  intros Hfin Hmag. rewrite double_100.
  destruct v as [s|s| |s m e]; try discriminate.
  - cbn [double_mul SFmul double_finite double_53 double_value].
    repeat split; try exact I.
    rewrite Rmult_0_r, Rminus_0_r, Rabs_R0. pose proof (bpow_pos (-1075)). lra.
  - rewrite value_magnitude in Hmag.
    destruct (magnitude_exponent _ _ _ Hmag) as [Hde He].
    unfold double_mul. cbn [SFmul].
    set (M := Zpos (m * 7036874417766400)).
    assert (EM : M = (Zpos m * 7036874417766400)%Z) by reflexivity.
    assert (HM52 : (2 ^ 52 <= M)%Z).
    { rewrite EM. change (2 ^ 52)%Z with 4503599627370496%Z. lia. }
    assert (HdM : (Zdigits2 M <= Zdigits2 (Zpos m) + 53)%Z).
    { destruct (Zdigits2_bounds (Zpos m)) as [[_ Hhi] Hd]; [lia|].
      apply Zdigits2_le; [|lia]. rewrite Z.pow_add_r by lia.
      split; [lia|]. rewrite EM. change (2 ^ 53)%Z with 9007199254740992%Z.
      assert (0 < 2 ^ Zdigits2 (Zpos m))%Z by (apply Z.pow_pos_nonneg; lia). nia. }
    assert (Hov : (round_exponent M (e + -46) < 971)%Z).
    { unfold round_exponent, fexp, emin. lia. }
    destruct (binary_round_aux_correct (xorb s false) M (e + -46) loc_Exact (IZR M)
                (locates_exact M ltac:(lia)) Hov)
      as (a & Hv & Hf & H53 & Ha0 & Herr & _).
    split; [exact Hf|]. split; [exact H53|].
    rewrite Hv.
    assert (Ex : IZR M * bpow (e + -46) = 100 * (IZR (Zpos m) * bpow e)).
    { rewrite EM, mult_IZR, bpow_add. rewrite <- bpow_m46. ring. }
    rewrite Ex in Herr.
    assert (Hx0 : 0 < IZR (Zpos m) * bpow e).
    { apply Rmult_lt_0_compat; [apply IZR_lt; lia | apply bpow_pos]. }
    assert (Hbound : bpow (round_exponent M (e + -46)) / 2
                     <= 100 * (IZR (Zpos m) * bpow e) * bpow (-53) + bpow (-1075)).
    { pose proof (bpow_pos (-53)). pose proof (bpow_pos (-1075)).
      destruct (half_ulp_relative M (e + -46) HM52) as [[_ Hrel]|[Esub _]].
      - rewrite Ex in Hrel. lra.
      - rewrite Esub. replace (-1075)%Z with (-1074 - 1)%Z by lia.
        rewrite bpow_pred. assert (0 <= 100 * (IZR (Zpos m) * bpow e) * bpow (-53)) by nra.
        lra. }
    rewrite signed_value.
    apply Rabs_bound in Herr.
    destruct s; cbn [xorb]; rewrite Rabs_mult, (Rabs_pos_eq 100) by lra.
    + rewrite Rabs_Ropp, (Rabs_pos_eq (IZR (Zpos m) * bpow e)) by lra.
      apply Rabs_le. lra.
    + rewrite (Rabs_pos_eq (IZR (Zpos m) * bpow e)) by lra.
      apply Rabs_le. lra.
Qed.

(** ** Integers as doubles, and [Math.round] *)

Lemma iter_xO_pow (m d : positive) : Zpos (Pos.iter xO m d) = (Zpos m * 2 ^ Zpos d)%Z.
Proof.
  induction d as [|d IH] using Pos.peano_ind.
  - cbn [Pos.iter]. lia.
  - rewrite Pos.iter_succ, Pos2Z.inj_succ, Z.pow_succ_r by lia.
    rewrite Pos2Z.inj_xO, IH. ring.
Qed.

Lemma shl_align_spec (mx : positive) (ex ex' : Z) :
  snd (shl_align mx ex ex') = Z.min ex ex' /\
  Zpos (fst (shl_align mx ex ex')) = (Zpos mx * 2 ^ (ex - Z.min ex ex'))%Z.
Proof.
  unfold shl_align. destruct (ex' - ex)%Z as [|d|d] eqn:E; cbn [fst snd].
  - replace (Z.min ex ex') with ex by lia. rewrite Z.sub_diag. split; lia.
  - replace (Z.min ex ex') with ex by lia. rewrite Z.sub_diag. split; lia.
  - replace (Z.min ex ex') with ex' by lia. split; [reflexivity|].
    rewrite iter_xO_pow. f_equal. f_equal. lia.
Qed.

Lemma double_of_Z_exact (n : Z) :
  n <> 0%Z -> (Z.abs n < 2 ^ 53)%Z ->
  double_value (double_of_Z n) = IZR n /\
  double_finite (double_of_Z n) = true /\
  double_53 (double_of_Z n).
Proof.
  intros Hn Hlt.
  assert (Hgen : forall (s : bool) (p : positive),
             (Zpos p < 2 ^ 53)%Z ->
             double_value (binary_round 53 1024 s p 0) = IZR (cond_Zopp s (Zpos p)) /\
             double_finite (binary_round 53 1024 s p 0) = true /\
             double_53 (binary_round 53 1024 s p 0)).
  { intros s p Hp. unfold binary_round.
    destruct (shl_align_spec p 0 (fexp 53 1024 (Zpos (digits2_pos p) + 0))) as [Ee Em].
    destruct (shl_align p 0 (fexp 53 1024 (Zpos (digits2_pos p) + 0))) as [mz ez].
    cbn [fst snd] in Ee, Em.
    pose proof (digits2_pos_bounds p) as [Hlo Hhi].
    assert (Hd : (0 < Zpos (digits2_pos p) <= 53)%Z).
    { split; [lia|]. change (Zpos (digits2_pos p)) with (Zdigits2 (Zpos p)).
      apply Zdigits2_le; lia. }
    assert (Eez : ez = (Zpos (digits2_pos p) - 53)%Z).
    { rewrite Ee. unfold fexp, emin. lia. }
    assert (Hmz : (Zpos mz < 2 ^ 53)%Z).
    { rewrite Em, <- Ee, Eez.
      replace (2 ^ 53)%Z with (2 ^ Zpos (digits2_pos p) * 2 ^ (0 - (Zpos (digits2_pos p) - 53)))%Z
        by (rewrite <- Z.pow_add_r by lia; f_equal; lia).
      apply Z.mul_lt_mono_pos_r; [apply Z.pow_pos_nonneg; lia | exact Hhi]. }
    assert (Hre : round_exponent (Zpos mz) ez = ez).
    { unfold round_exponent.
      assert (Zdigits2 (Zpos mz) <= 53)%Z by (apply Zdigits2_le; lia).
      unfold fexp, emin. lia. }
    destruct (binary_round_aux_correct s (Zpos mz) ez loc_Exact (IZR (Zpos mz))
                (locates_exact (Zpos mz) ltac:(lia)) ltac:(lia))
      as (a & Hv & Hf & H53 & _ & _ & Hex).
    split; [|split; assumption].
    rewrite Hv, (Hex eq_refl Hre), Em, <- Ee, mult_IZR.
    rewrite <- bpow_Z by lia. rewrite Rmult_assoc, <- bpow_add.
    replace (0 - ez + ez)%Z with 0%Z by lia. rewrite bpow_0, Rmult_1_r.
    destruct s; cbn [cond_Zopp]; [|reflexivity].
    change (- Zpos p)%Z with (Z.opp (Zpos p)). now rewrite opp_IZR. }
  unfold double_of_Z, binary_normalize. destruct n as [|p|p]; [contradiction| |].
  - apply (Hgen false p). lia.
  - apply (Hgen true p). lia.
Qed.

Lemma Math_round_IZR (k : Z) : Math_round (IZR k) = k.
Proof. unfold Math_round. symmetry. apply Int_part_spec. lra. Qed.

(** [Math.round] on a double is [Math.round] on the number it stands for. *)
Lemma Math_round_double_correct (p : double) :
  double_finite p = true -> double_53 p ->
  double_finite (Math_round_double p) = true /\
  double_53 (Math_round_double p) /\
  double_value (Math_round_double p) = IZR (Math_round (double_value p)).
Proof.
  intros Hfin H53. destruct p as [s|s| |s m e]; try discriminate.
  - cbn [Math_round_double double_value]. repeat split; try assumption.
    now rewrite (Math_round_IZR 0).
  - cbn [double_53] in H53. cbn [Math_round_double].
    destruct (Z.leb_spec 0 e) as [He|He].
    + repeat split; try assumption.
      unfold double_value. rewrite bpow_Z, <- mult_IZR by lia.
      now rewrite Math_round_IZR.
    + set (sm := cond_Zopp s (Zpos m)).
      assert (Hsm : (- 2 ^ 53 < sm < 2 ^ 53)%Z) by (unfold sm; destruct s; cbn [cond_Zopp]; lia).
      set (K := (2 ^ (- e))%Z).
      assert (HK : (2 <= K)%Z).
      { unfold K. apply (Z.pow_le_mono_r 2 1); lia. }
      assert (E2K : (2 ^ (1 - e) = 2 * K)%Z).
      { unfold K. replace (1 - e)%Z with (Z.succ (- e)) by lia. now rewrite Z.pow_succ_r by lia. }
      rewrite E2K. cbv zeta.
      set (n := ((2 * sm + K) / (2 * K))%Z).
      assert (Hn : (- 2 ^ 52 <= n <= 2 ^ 52)%Z).
      { unfold n. change (2 ^ 53)%Z with 9007199254740992%Z in Hsm.
        change (2 ^ 52)%Z with 4503599627370496%Z. split.
        - apply Z.div_le_lower_bound; nia.
        - apply Z.lt_succ_r. apply Z.div_lt_upper_bound; nia. }
      assert (Ev : Math_round (double_value (S754_finite s m e)) = n).
      { unfold Math_round. symmetry. apply Int_part_spec.
        unfold double_value. fold sm.
        replace e with (- (- e))%Z by lia. rewrite bpow_opp, bpow_Z by lia. fold K.
        pose proof (Z.div_mod (2 * sm + K) (2 * K) ltac:(lia)) as Hdiv. fold n in Hdiv.
        pose proof (Z.mod_pos_bound (2 * sm + K) (2 * K) ltac:(lia)) as Hmod.
        set (r := ((2 * sm + K) mod (2 * K))%Z) in *.
        apply (f_equal IZR) in Hdiv.
        rewrite !plus_IZR, !mult_IZR in Hdiv.
        destruct Hmod as [Hr0 Hr1]. apply IZR_le in Hr0. apply IZR_lt in Hr1.
        rewrite mult_IZR in Hr1.
        assert (HKr : 2 <= IZR K) by (apply IZR_le; exact HK).
        set (ik := / IZR K).
        assert (Hik : IZR K * ik = 1) by (unfold ik; field; lra).
        assert (Hik0 : 0 < ik) by (unfold ik; apply Rinv_0_lt_compat; lra).
        assert (Hq : 2 * IZR n + IZR r * ik = 2 * (IZR sm * ik) + 1).
        { transitivity ((2 * IZR K * IZR n + IZR r) * ik).
          - replace ((2 * IZR K * IZR n + IZR r) * ik)
              with (2 * IZR n * (IZR K * ik) + IZR r * ik) by ring.
            rewrite Hik. ring.
          - rewrite <- Hdiv.
            replace ((2 * IZR sm + IZR K) * ik)
              with (2 * (IZR sm * ik) + IZR K * ik) by ring.
            rewrite Hik. reflexivity. }
        assert (Hrik : 0 <= IZR r * ik < 2).
        { split; [apply Rmult_le_pos; lra|].
          replace 2 with (2 * IZR K * ik) by (rewrite Rmult_assoc, Hik; ring).
          apply Rmult_lt_compat_r; lra. }
        lra. }
      rewrite Ev. clearbody n.
      assert (Hbig : n <> 0%Z -> double_value (double_of_Z n) = IZR n /\
                                 double_finite (double_of_Z n) = true /\
                                 double_53 (double_of_Z n)).
      { intro Hne. apply double_of_Z_exact; [exact Hne|].
        change (2 ^ 53)%Z with 9007199254740992%Z.
        change (2 ^ 52)%Z with 4503599627370496%Z in Hn. lia. }
      destruct n as [|pn|pn].
      * cbn [double_finite double_53 double_value]. repeat split.
      * destruct Hbig as (Hv & Hf & Hb); [discriminate|]. repeat split; assumption.
      * destruct Hbig as (Hv & Hf & Hb); [discriminate|]. repeat split; assumption.
Qed.

(** ** The double quotient by 100 *)

Lemma div_eucl_div_mod (a b : Z) : Z.div_eucl a b = ((a / b)%Z, (a mod b)%Z).
Proof. unfold Z.div, Z.modulo. now destruct (Z.div_eucl a b). Qed.

Lemma SFdiv_core_100 (m1 : positive) (e1 : Z) :
  (Zdigits2 (Zpos m1) <= 53)%Z -> (1 <= Zdigits2 (Zpos m1) + e1)%Z ->
  SFdiv_core_binary 53 1024 (Zpos m1) e1 7036874417766400 (-46)
  = ((Zpos m1 * 2 ^ (106 - Zdigits2 (Zpos m1)) / 7036874417766400)%Z,
     (Zdigits2 (Zpos m1) + e1 - 60)%Z,
     new_location 7036874417766400
       ((Zpos m1 * 2 ^ (106 - Zdigits2 (Zpos m1))) mod 7036874417766400)%Z).
Proof.
  intros Hd Hde. unfold SFdiv_core_binary.
  change (Zdigits2 7036874417766400) with 53%Z.
  set (d1 := Zdigits2 (Zpos m1)) in *.
  assert (Ee : Z.min (fexp 53 1024 (d1 + e1 - (53 + -46))) (e1 - -46) = (d1 + e1 - 60)%Z)
    by (unfold fexp, emin; lia).
  rewrite Ee.
  assert (Es : (e1 - -46 - (d1 + e1 - 60) = 106 - d1)%Z) by lia.
  rewrite Es.
  assert (Em : match (106 - d1)%Z with
               | 0%Z => Zpos m1
               | Zpos _ => Z.shiftl (Zpos m1) (106 - d1)
               | Zneg _ => 0%Z
               end = (Zpos m1 * 2 ^ (106 - d1))%Z).
  { rewrite <- Z.shiftl_mul_pow2 by lia.
    destruct (106 - d1)%Z eqn:E; lia. }
  rewrite Em, div_eucl_div_mod. reflexivity.
Qed.

Lemma new_location_100 (q r : Z) :
  (0 <= q)%Z -> (0 <= r < 7036874417766400)%Z ->
  locates (shr_record_of_loc q (new_location 7036874417766400 r))
          (IZR q + IZR r / 7036874417766400).
Proof.
  intros Hq [Hr0 Hr1]. apply IZR_le in Hr0. apply IZR_lt in Hr1.
  change (new_location 7036874417766400) with (new_location_even 7036874417766400).
  unfold new_location_even, locates.
  destruct (Z.eqb_spec r 0) as [->|Hne].
  - cbn [shr_record_of_loc shr_m shr_r shr_s].
    split; [exact Hq|]. split; [lra|]. split; [lra|]. left. lra.
  - assert (IZR r <> 0) by (intro E; apply eq_IZR in E; contradiction).
    destruct (Z.compare_spec (2 * r) 7036874417766400) as [E|E|E];
      cbn [shr_record_of_loc shr_m shr_r shr_s].
    + apply (f_equal IZR) in E. rewrite mult_IZR in E.
      split; [exact Hq|]. split; [lra|]. split; [lra|]. right. lra.
    + apply IZR_lt in E. rewrite mult_IZR in E.
      split; [exact Hq|]. split; [lra|]. split; [lra|]. split; lra.
    + apply IZR_lt in E. rewrite mult_IZR in E.
      split; [exact Hq|]. split; [lra|]. split; [lra|]. split; lra.
Qed.

(** Dividing a double that stands for a number of magnitude at least 1 by
    the double 100 gives a finite double within a relative [2^-53] of the
    exact quotient. *)
Lemma double_div_100 (s : bool) (m1 : positive) (e1 : Z) :
  (Zpos m1 < 2 ^ 53)%Z ->
  1 <= IZR (Zpos m1) * bpow e1 <= bpow 60 ->
  double_finite (double_div (S754_finite s m1 e1) (double_of_Z 100)) = true /\
  Rabs (double_value (double_div (S754_finite s m1 e1) (double_of_Z 100))
        - double_value (S754_finite s m1 e1) / 100)
  <= Rabs (double_value (S754_finite s m1 e1) / 100) * bpow (-53).
Proof.
  intros H53 [Hge1 Hmag]. rewrite double_100.
  set (c := 7036874417766400%Z).
  set (d1 := Zdigits2 (Zpos m1)).
  assert (Hd1 : (d1 <= 53)%Z) by (apply Zdigits2_le; lia).
  destruct (Zdigits2_bounds (Zpos m1)) as [[Hlo Hhi] Hd0]; [lia|]. fold d1 in Hlo, Hhi, Hd0.
  destruct (magnitude_exponent _ _ _ Hmag) as [Hde _]. fold d1 in Hde.
  assert (Hde1 : (1 <= d1 + e1)%Z).
  { assert (bpow 0 < bpow (d1 + e1)) as Hlt.
    { rewrite bpow_0, bpow_add, (bpow_Z d1) by lia.
      apply IZR_lt in Hhi. pose proof (bpow_pos e1). nra. }
    apply bpow_lt_inv in Hlt. lia. }
  unfold double_div. cbn [SFdiv].
  rewrite (SFdiv_core_100 m1 e1 Hd1 Hde1). fold d1 c.
  set (m' := (Zpos m1 * 2 ^ (106 - d1))%Z).
  set (q := (m' / c)%Z). set (r := (m' mod c)%Z).
  assert (Hm' : (2 ^ 105 <= m' < 2 ^ 106)%Z).
  { unfold m'. split.
    - replace 105%Z with ((d1 - 1) + (106 - d1))%Z by lia. rewrite Z.pow_add_r by lia.
      apply Z.mul_le_mono_nonneg_r; [apply Z.pow_nonneg; lia | exact Hlo].
    - replace 106%Z with (d1 + (106 - d1))%Z at 2 by lia. rewrite Z.pow_add_r by lia.
      apply Z.mul_lt_mono_pos_r; [apply Z.pow_pos_nonneg; lia | exact Hhi]. }
  pose proof (Z.div_mod m' c ltac:(unfold c; lia)) as Hdiv. fold q r in Hdiv.
  pose proof (Z.mod_pos_bound m' c ltac:(unfold c; lia)) as Hr. fold r in Hr.
  assert (Hq : (2 ^ 52 <= q < 2 ^ 54)%Z).
  { unfold q, c. change (2 ^ 105)%Z with 40564819207303340847894502572032%Z in Hm'.
    change (2 ^ 106)%Z with 81129638414606681695789005144064%Z in Hm'.
    change (2 ^ 52)%Z with 4503599627370496%Z. change (2 ^ 54)%Z with 18014398509481984%Z.
    split.
    - apply Z.div_le_lower_bound; lia.
    - apply Z.div_lt_upper_bound; lia. }
  assert (Hq0 : (0 <= q)%Z) by (change (2 ^ 52)%Z with 4503599627370496%Z in Hq; lia).
  pose proof (new_location_100 q r Hq0 Hr) as Hloc. fold c in Hloc.
  assert (Hdq : (52 < Zdigits2 q <= 54)%Z).
  { split; [apply Zdigits2_ge; lia | apply Zdigits2_le; lia]. }
  assert (Hre : (round_exponent q (d1 + e1 - 60) < 971)%Z).
  { unfold round_exponent, fexp, emin. lia. }
  destruct (binary_round_aux_correct (xorb s false) q (d1 + e1 - 60) (new_location c r)
              (IZR q + IZR r / IZR c) Hloc Hre)
    as (a & Hv & Hf & _ & Ha0 & Herr & _).
  split; [exact Hf|]. rewrite Hv.
  (* the number located is the exact quotient *)
  set (x := IZR (Zpos m1) * bpow e1) in *.
  assert (Ex : (IZR q + IZR r / IZR c) * bpow (d1 + e1 - 60) = x / 100).
  { assert (E1 : IZR q + IZR r / IZR c = IZR m' / IZR c).
    { rewrite Hdiv, plus_IZR, mult_IZR. unfold c. field. }
    rewrite E1. unfold m'. rewrite mult_IZR, <- bpow_Z by lia.
    unfold x, c. rewrite <- bpow_m46.
    replace (d1 + e1 - 60)%Z with ((d1 - 106) + e1 + 46)%Z by lia.
    rewrite !bpow_add.
    replace (106 - d1)%Z with (- (d1 - 106))%Z by lia. rewrite bpow_opp.
    change (-46)%Z with (Z.opp 46). rewrite bpow_opp.
    pose proof (bpow_pos 46). pose proof (bpow_pos (d1 - 106)).
    field. split; lra. }
  rewrite Ex in Herr.
  assert (Hrel : bpow (round_exponent q (d1 + e1 - 60)) / 2 <= x / 100 * bpow (-53)).
  { destruct (half_ulp_relative q (d1 + e1 - 60) (proj1 Hq)) as [[_ Hrel]|[_ Hsub]]; [|lia].
    apply Rle_trans with (1 := Hrel).
    apply Rmult_le_compat_r; [apply Rlt_le, bpow_pos|].
    rewrite <- Ex. apply Rmult_le_compat_r; [apply Rlt_le, bpow_pos|].
    destruct Hr as [Hr0 _]. apply IZR_le in Hr0.
    assert (0 <= IZR r / IZR c) by (unfold c; lra). lra. }
  rewrite signed_value. fold x.
  apply Rabs_bound in Herr.
  pose proof (bpow_pos (-53)).
  destruct s; cbn [xorb].
  - replace (- x / 100) with (- (x / 100)) by lra.
    rewrite Rabs_Ropp, (Rabs_pos_eq (x / 100)) by lra. apply Rabs_le. lra.
  - rewrite (Rabs_pos_eq (x / 100)) by lra. apply Rabs_le. lra.
Qed.

(** ** The snapshot's rounding *)

Lemma bpow_m53 : bpow (-53) = / 9007199254740992.
Proof. change (-53)%Z with (Z.opp 53). now rewrite bpow_opp, bpow_Z by lia. Qed.

Lemma bpow_m1075 : bpow (-1075) <= / 1267650600228229401496703205376.
Proof.
  apply Rle_trans with (bpow (-100)); [apply bpow_le; lia|].
  change (-100)%Z with (Z.opp 100). rewrite bpow_opp, bpow_Z by lia.
  change (2 ^ 100)%Z with 1267650600228229401496703205376%Z. lra.
Qed.

Lemma pow2_51 : 2 ^ 51 = 2251799813685248.
Proof. rewrite pow_IZR. reflexivity. Qed.

Lemma pow2_53 : 2 ^ 53 = 9007199254740992.
Proof. rewrite pow_IZR. reflexivity. Qed.

Lemma round2_double_roundedTo2 (v : double) :
  fieldInRange v -> roundedTo2_double (round2_double v) v.
Proof.
  intros [Hfin Hmag]. unfold round2_double.
  assert (Hmag50 : Rabs (double_value v) <= bpow 50).
  { rewrite bpow_Z by lia. change (2 ^ 50)%Z with 1125899906842624%Z. lra. }
  destruct (double_mul_100 v Hfin Hmag50) as (Hpf & Hp53 & Hperr).
  set (p := double_mul v (double_of_Z 100)) in *.
  destruct (Math_round_double_correct p Hpf Hp53) as (HNf & HN53 & HNv).
  pose proof (Math_round_bounds (double_value p)) as Hround.
  set (n := Math_round (double_value p)) in *.
  set (N := Math_round_double p) in *.
  rewrite Rabs_mult, (Rabs_pos_eq 100) in Hperr by lra.
  pose proof (Rabs_pos (double_value v)) as Hav0.
  pose proof (Rabs_bound _ _ (Rle_refl (Rabs (double_value v)))) as Hav.
  set (av := Rabs (double_value v)) in *.
  apply Rabs_bound in Hperr.
  pose proof bpow_m1075 as Heta. pose proof (bpow_pos (-1075)) as Heta0.
  rewrite bpow_m53 in Hperr.
  set (eta := bpow (-1075)) in *.
  unfold roundedTo2_double. rewrite pow2_51, pow2_53.
  change (Rabs (double_value v)) with av.
  destruct N as [sN|sN| |sN mN eN] eqn:EN; try discriminate.
  - (* the product rounds to zero *)
    cbn [double_value] in HNv.
    unfold double_div. rewrite double_100. cbn [SFdiv double_finite double_value].
    split; [reflexivity|]. split.
    + exists 0%Z. replace (0 - 0 / 100) with 0 by lra.
      rewrite Rabs_R0. replace (0 / 100) with 0 by lra. rewrite Rabs_R0. lra.
    + apply Rabs_le. lra.
  - (* a whole number of hundredths *)
    cbn [double_53] in HN53.
    assert (Hx : 0 < IZR (Zpos mN) * bpow eN).
    { apply Rmult_lt_0_compat; [apply IZR_lt; lia | apply bpow_pos]. }
    pose proof (value_magnitude sN mN eN) as Hmagn. rewrite HNv in Hmagn.
    assert (Hn1 : 1 <= Rabs (IZR n)).
    { rewrite <- abs_IZR. apply IZR_le.
      assert (n <> 0%Z) by (intros ->; rewrite Rabs_R0 in Hmagn; lra). lia. }
    pose proof (Rabs_bound _ _ (Rle_refl (Rabs (IZR n)))) as Han.
    assert (Hanhi : Rabs (IZR n) <= 100 * av + 100 * av * / 9007199254740992 + eta + 0.5).
    { apply Rabs_le. lra. }
    destruct (double_div_100 sN mN eN HN53) as [Hof Hoerr].
    { rewrite <- Hmagn. split; [exact Hn1|].
      rewrite bpow_Z by lia. change (2 ^ 60)%Z with 1152921504606846976%Z. lra. }
    rewrite HNv, bpow_m53 in Hoerr.
    split; [exact Hof|]. split.
    + exists n. lra.
    + replace (IZR n / 100) with (/ 100 * IZR n) in Hoerr by lra.
      rewrite Rabs_mult, (Rabs_pos_eq (/ 100)) in Hoerr by lra.
      apply Rabs_bound in Hoerr.
      set (an := Rabs (IZR n)) in *.
      apply Rabs_le. lra.
Qed.

Lemma roundBody_double_roundedTo2 (b : DoubleBody) :
  bodyInRange b -> bodyRoundedTo2_double (roundBody_double b) b.
Proof.
  intros (Hx & Hy & Hvx & Hvy). unfold bodyRoundedTo2_double, roundBody_double.
  cbn [dbl_x dbl_y dbl_vx dbl_vy].
  split; [|split; [|split]]; now apply round2_double_roundedTo2.
Qed.

Lemma fieldInRangeb_sound (v : double) : fieldInRangeb v = true -> fieldInRange v.
Proof.
  destruct v as [s|s| |s m e]; try discriminate; intro H; split; try reflexivity.
  - cbn [double_value]. rewrite Rabs_R0. lra.
  - cbn [fieldInRangeb] in H. apply Z.leb_le in H.
    rewrite value_magnitude.
    destruct (Zdigits2_bounds (Zpos m)) as [[_ Hhi] Hd]; [lia|].
    cbn [Zdigits2] in Hhi, Hd. apply IZR_lt in Hhi. rewrite <- bpow_Z in Hhi by lia.
    apply Rle_trans with (bpow 49).
    + apply Rle_trans with (bpow (Zpos (digits2_pos m) + e)); [|apply bpow_le; lia].
      rewrite bpow_add. pose proof (bpow_pos e). nra.
    + rewrite bpow_Z by lia. change (2 ^ 49)%Z with 562949953421312%Z. lra.
Qed.

(** C9.  Every position and velocity field of a snapshot, for the ball and
    for each player, is [Math.round(v * 100) / 100] computed on doubles.
    For a field that is a finite double of magnitude at most [10^15], the
    emitted double is finite, is a whole number of hundredths up to the
    rounding of the division (a relative [2^-53]), and differs from the
    field by at most [0.005 + (|v| + 1) / 2^51]: the two roundings, of the
    product and of the quotient, come on top of the [0.005]. *)
Theorem getGameState_rounds_to_2_digits_in_doubles (ps : list DoublePlayer)
        (ball : DoubleBody) :
  bodyInRange ball ->
  Forall (fun p => bodyInRange (dbl_body p)) ps ->
  bodyRoundedTo2_double (snd (getGameState_double ps ball)) ball /\
  List.length (fst (getGameState_double ps ball)) = List.length ps /\
  (forall i p,
     nth_error ps i = Some p ->
     exists d, nth_error (fst (getGameState_double ps ball)) i = Some d /\
               dbl_id d = dbl_id p /\ dbl_team d = dbl_team p /\
               bodyRoundedTo2_double (dbl_body d) (dbl_body p)).
Proof.
  intros Hball Hps. cbn [getGameState_double fst snd].
  split; [now apply roundBody_double_roundedTo2|].
  split; [apply length_map|].
  intros i p Hp. exists (getGameData_double p). split.
  - now rewrite nth_error_map, Hp.
  - cbn [getGameData_double dbl_id dbl_team dbl_body].
    split; [reflexivity|]. split; [reflexivity|].
    apply roundBody_double_roundedTo2.
    rewrite Forall_forall in Hps. apply Hps. eapply nth_error_In, Hp.
Qed.

Lemma getGameState_rounds_to_2_digits_in_doubles_witness :
  bodyRoundedTo2_double (snd (getGameState_double [slowPlayer] slowBall)) slowBall.
Proof.
  apply (getGameState_rounds_to_2_digits_in_doubles [slowPlayer] slowBall).
  - repeat split; apply fieldInRangeb_sound; reflexivity.
  - constructor; [|constructor].
    repeat split; apply fieldInRangeb_sound; reflexivity.
Defined.

(** The bound [0.005] itself does not hold of the doubles.  The ball's
    horizontal velocity is the double nearest to 0.015, a little below
    0.015; its product by 100 rounds to the double 1.5, a tie that
    [Math.round] takes up to 2; the snapshot shows the double nearest to
    0.02, more than 0.005 away. *)
Lemma snapshot_rounding_exceeds_half_cent :
  bodyInRange slowBall /\
  Rabs (double_value (dbl_vx slowBall) - 0.015) < / 2 ^ 60 /\
  double_mul (dbl_vx slowBall) (double_of_Z 100)
  = double_div (double_of_Z 3) (double_of_Z 2) /\
  dbl_vx (snd (getGameState_double [] slowBall))
  = double_div (double_of_Z 2) (double_of_Z 100) /\
  0.005 < Rabs (double_value (dbl_vx (snd (getGameState_double [] slowBall)))
                - double_value (dbl_vx slowBall)).
Proof.
  split; [repeat split; apply fieldInRangeb_sound; reflexivity|].
  assert (E59 : bpow (-59) = / 576460752303423488).
  { change (-59)%Z with (Z.opp 59). now rewrite bpow_opp, bpow_Z by lia. }
  assert (E58 : bpow (-58) = / 288230376151711744).
  { change (-58)%Z with (Z.opp 58). now rewrite bpow_opp, bpow_Z by lia. }
  assert (E60 : 2 ^ 60 = 1152921504606846976) by (rewrite pow_IZR; reflexivity).
  split; [|split; [|split]].
  - cbn [slowBall dbl_vx double_0_015 double_value cond_Zopp]. rewrite E59, E60.
    apply Rabs_def1; lra.
  - reflexivity.
  - reflexivity.
  - change (dbl_vx (snd (getGameState_double [] slowBall)))
      with (S754_finite false 5764607523034235 (-58)).
    cbn [slowBall dbl_vx double_0_015 double_value cond_Zopp]. rewrite E58, E59.
    rewrite Rabs_pos_eq; lra.
Qed.
